(** * AI companion backend: the decision parser, the session store and the
      DUMP-phase response protocol, embedded from the JavaScript sources.

    Conventions of the embedding.
    - A JavaScript string is the list of its UTF-16 code units ([jsstring]);
      [js "..."] builds one from an ASCII literal.
    - A JavaScript number is an exact rational ([Q]): the sources add,
      multiply, divide, round and compare short decimal fractions, and the
      rounding of binary64 after each operation is not modelled.
    - A value that may be [undefined] has an option type, [None] standing
      for [undefined]; the store operations that return [null] return [None].
    - Code that throws returns in [Outcome]; code that calls the LLM or the
      in-memory session store threads a [World]. *)

From Stdlib Require Import ZArith QArith Qround List Ascii String Lia Bool.
From Stdlib Require Import DecimalString Sorted Permutation Lqa.
From Equations Require Import Equations.
From stdpp Require Import gmap list fin_maps.
Import ListNotations.

Set Warnings "-register-all".
Local Open Scope N_scope.

(** ** JavaScript strings *)

Module JsString.

Abbreviation jsstring := (list N).

Definition js (s : string) : jsstring :=
  List.map N_of_ascii (list_ascii_of_string s).

(** WhiteSpace and LineTerminator code points: what [String.prototype.trim]
    strips and what [\s] matches in a regular expression. *)
Definition is_ws (c : N) : bool :=
  (c =? 9) || (c =? 10) || (c =? 11) || (c =? 12) || (c =? 13) || (c =? 32)
  || (c =? 160) || (c =? 0x1680) || ((0x2000 <=? c) && (c <=? 0x200A))
  || (c =? 0x2028) || (c =? 0x2029) || (c =? 0x202F) || (c =? 0x205F)
  || (c =? 0x3000) || (c =? 0xFEFF).

(** LineTerminator code points: where [^] and [$] match under the [m] flag. *)
Definition is_line_terminator (c : N) : bool :=
  (c =? 10) || (c =? 13) || (c =? 0x2028) || (c =? 0x2029).

Fixpoint trimStart (s : jsstring) : jsstring :=
  match s with
  | c :: s' => if is_ws c then trimStart s' else s
  | [] => []
  end.

Definition trimEnd (s : jsstring) : jsstring := rev (trimStart (rev s)).

Definition trim (s : jsstring) : jsstring := trimEnd (trimStart s).

Fixpoint startsWith (s p : jsstring) {struct p} : bool :=
  match p, s with
  | [], _ => true
  | a :: p', b :: s' => (a =? b) && startsWith s' p'
  | _ :: _, [] => false
  end.

(** [s.includes(p)] *)
Fixpoint includes (s p : jsstring) : bool :=
  startsWith s p ||
  match s with
  | _ :: s' => includes s' p
  | [] => false
  end.

Definition endsWith (s p : jsstring) : bool := startsWith (rev s) (rev p).

(** [s.split(sep)] for a one-code-unit separator. *)
Fixpoint split_on (sep : N) (s : jsstring) : list jsstring :=
  match s with
  | [] => [[]]
  | c :: s' =>
      if c =? sep then [] :: split_on sep s'
      else match split_on sep s' with
           | l :: ls => (c :: l) :: ls
           | [] => [[c]]
           end
  end.

(** [parts.join(sep)] *)
Fixpoint join (sep : jsstring) (parts : list jsstring) : jsstring :=
  match parts with
  | [] => []
  | [p] => p
  | p :: ps => p ++ sep ++ join sep ps
  end.

End JsString.
Import JsString.

(** ** Values, errors and JSON *)

Inductive JsError :=
| Error (message : jsstring)
| TypeError
| AppError (message : jsstring) (statusCode : N) (code : jsstring).

Inductive Outcome (A : Type) :=
| Ok (a : A)
| Throw (e : JsError).
Arguments Ok {A} a.
Arguments Throw {A} e.

Definition obind {A B} (m : Outcome A) (f : A -> Outcome B) : Outcome B :=
  match m with
  | Ok a => f a
  | Throw e => Throw e
  end.

(** What [JSON.parse] returns. A number is a finite rational: the JSON grammar
    has no literal for NaN or the infinities. An object is the list of its
    own properties, each key once. *)
Inductive JSON :=
| JNull
| JBool (b : bool)
| JNum (q : Q)
| JStr (s : jsstring)
| JArr (items : list JSON)
| JObj (props : list (jsstring * JSON)).

Fixpoint jsstring_eqb (a b : jsstring) : bool :=
  match a, b with
  | [], [] => true
  | x :: a', y :: b' => (x =? y) && jsstring_eqb a' b'
  | _, _ => false
  end.

Fixpoint assoc (k : jsstring) (props : list (jsstring * JSON)) : option JSON :=
  match props with
  | [] => None
  | (k', v) :: rest => if jsstring_eqb k k' then Some v else assoc k rest
  end.

(** [v.k] for a property name that no prototype defines: [undefined] ([None])
    unless [v] is an object owning [k]; reading a property of [null] throws. *)
Definition get (v : JSON) (k : jsstring) : Outcome (option JSON) :=
  match v with
  | JNull => Throw TypeError
  | JObj props => Ok (assoc k props)
  | _ => Ok None
  end.

Definition truthy (v : option JSON) : bool :=
  match v with
  | None | Some JNull => false
  | Some (JBool b) => b
  | Some (JNum q) => negb (Qeq_bool q 0)
  | Some (JStr s) => match s with [] => false | _ => true end
  | Some (JArr _) | Some (JObj _) => true
  end.

Definition is_string (v : option JSON) : bool :=
  match v with Some (JStr _) => true | _ => false end.

Definition is_number (v : option JSON) : bool :=
  match v with Some (JNum _) => true | _ => false end.

Definition isArray (v : option JSON) : bool :=
  match v with Some (JArr _) => true | _ => false end.

(** [v.length] as a number, for the values whose length is a number without
    coercion: arrays, strings, and objects owning a numeric [length]. *)
Definition length_of (v : option JSON) : option Q :=
  match v with
  | Some (JArr items) => Some (inject_Z (Z.of_nat (List.length items)))
  | Some (JStr s) => Some (inject_Z (Z.of_nat (List.length s)))
  | Some (JObj props) =>
      match assoc (js "length") props with
      | Some (JNum q) => Some q
      | _ => None
      end
  | _ => None
  end.

Definition nat_to_js (n : nat) : jsstring :=
  js (NilZero.string_of_uint (Nat.to_uint n)).

(** ** JavaScript arrays *)

(** [Array.prototype.sort(comparefn)]: a stable sort; an element moves behind
    another only when [comparefn] ranks it strictly greater. *)
Section Sort.
Context {A : Type} (comparefn : A -> A -> Z).

Fixpoint sort_insert (x : A) (l : list A) : list A :=
  match l with
  | [] => [x]
  | y :: l' =>
      if (comparefn x y <=? 0)%Z then x :: y :: l'
      else y :: sort_insert x l'
  end.

Fixpoint sort (l : list A) : list A :=
  match l with
  | [] => []
  | x :: l' => sort_insert x (sort l')
  end.
End Sort.

(** [arr.map((x, index) => f x index)] *)
Fixpoint map_index {A B} (f : A -> nat -> B) (i : nat) (l : list A) : list B :=
  match l with
  | [] => []
  | x :: l' => f x i :: map_index f (S i) l'
  end.

(** ** JavaScript regular expressions

    The patterns of the sources, as syntax trees, with the matching rules of
    ECMAScript for the constructs they use. The flags live in the tree: a
    pattern written with [m] uses [LineStart] and [LineEnd], one written with
    [i] uses [ci] literals. None of the patterns carries the [g] flag, so
    [test] has no state. *)

Module RegExp.

Inductive regex :=
| Empty
| Class (p : N -> bool)
| Seq (a b : regex)
| Alt (a b : regex)
| Star (a : regex)
| LineStart
| LineEnd
| InputEnd
| WordBoundary.

Definition is_digit (c : N) : bool := (48 <=? c) && (c <=? 57).
Definition is_upper (c : N) : bool := (65 <=? c) && (c <=? 90).
Definition is_lower (c : N) : bool := (97 <=? c) && (c <=? 122).
Definition is_letter (c : N) : bool := is_upper c || is_lower c.

(** [\w] *)
Definition is_word (c : N) : bool := is_letter c || is_digit c || (c =? 95).

Definition is_word_at (c : option N) : bool :=
  match c with Some c => is_word c | None => false end.

(** A pattern character under the [i] flag (without [u]): an ASCII letter
    matches its two cases, any other ASCII character only itself. *)
Definition ci_eq (p c : N) : bool :=
  (c =? p) || (is_lower p && (c =? p - 32)) || (is_upper p && (c =? p + 32)).

Definition chr (a : ascii) : regex := Class (N.eqb (N_of_ascii a)).

Fixpoint seq_of (rs : list regex) : regex :=
  match rs with
  | [] => Empty
  | [r] => r
  | r :: rs' => Seq r (seq_of rs')
  end.

Fixpoint alt_of (rs : list regex) : regex :=
  match rs with
  | [] => Class (fun _ => false)
  | [r] => r
  | r :: rs' => Alt r (alt_of rs')
  end.

(** A literal under the [i] flag. *)
Definition ci (s : string) : regex :=
  seq_of (List.map (fun p => Class (ci_eq p)) (js s)).

Definition Plus (a : regex) : regex := Seq a (Star a).

(** [a{1,n}] *)
Fixpoint upto (n : nat) (a : regex) : regex :=
  match n with
  | O => Empty
  | S O => a
  | S n' => Seq a (Alt (upto n' a) Empty)
  end.

(** [matches r prev s k]: [r] matches a prefix of [s], the code unit before
    [s] being [prev], and [k] accepts what follows. An iteration of [Star]
    that consumes nothing is not taken. *)
Fixpoint matches (r : regex) (prev : option N) (s : jsstring)
    (k : option N -> jsstring -> bool) : bool :=
  match r with
  | Empty => k prev s
  | Class p =>
      match s with
      | c :: s' => p c && k (Some c) s'
      | [] => false
      end
  | Seq a b => matches a prev s (fun prev' s' => matches b prev' s' k)
  | Alt a b => matches a prev s k || matches b prev s k
  | Star a =>
      (fix iterate (fuel : nat) (prev : option N) (s : jsstring) : bool :=
         match fuel with
         | O => k prev s
         | S fuel' =>
             matches a prev s (fun prev' s' =>
               (List.length s' <? List.length s)%nat && iterate fuel' prev' s')
             || k prev s
         end) (List.length s) prev s
  | LineStart =>
      match prev with
      | None => k prev s
      | Some c => is_line_terminator c && k prev s
      end
  | LineEnd =>
      match s with
      | [] => k prev s
      | c :: _ => is_line_terminator c && k prev s
      end
  | InputEnd =>
      match s with
      | [] => k prev s
      | _ :: _ => false
      end
  | WordBoundary =>
      xorb (is_word_at prev) (is_word_at (List.head s)) && k prev s
  end.

Fixpoint search (r : regex) (prev : option N) (s : jsstring) : bool :=
  matches r prev s (fun _ _ => true) ||
  match s with
  | c :: s' => search r (Some c) s'
  | [] => false
  end.

(** [pattern.test(s)] *)
Definition test (r : regex) (s : jsstring) : bool := search r None s.

Definition ws : regex := Class is_ws.
Definition digit : regex := Class is_digit.

End RegExp.

(** ** services/ai/responseParser.js *)

Module ResponseParser.

Definition ALIGNMENT_SUFFIX : jsstring :=
  js "Are we aligned, or should we challenge this before moving on?".

(** [reasoning.replace(/[.!?]$/, '')]: without the [m] flag [$] is the end of
    the input, so at most the last code unit is removed. *)
Definition is_trailing_punct (c : N) : bool :=
  (c =? 46) || (c =? 33) || (c =? 63).

Definition strip_trailing_punct (s : jsstring) : jsstring :=
  match rev s with
  | c :: r => if is_trailing_punct c then rev r else s
  | [] => s
  end.

Definition ensureAlignmentQuestion (reasoning : jsstring) : jsstring :=
  if includes reasoning ALIGNMENT_SUFFIX then reasoning
  else
    let trimmed := trim (strip_trailing_punct reasoning) in
    trimmed ++ js ". " ++ ALIGNMENT_SUFFIX.

(** A task as the validation lets it through, and a task after [parseInt]. *)
Record DeclaredTask := { d_title : jsstring; d_priority : Q }.
Record Task := { title : jsstring; priority : Z }.

(** [parseInt(x, 10)] for a number [x]: the integer part, truncated toward
    zero. This is its value whenever [String(x)] is in plain decimal
    notation, which holds for [1e-6 <= |x| < 1e21] and for [0]. *)
Definition parseInt10 (x : Q) : Z := Z.quot (Qnum x) (Zpos (Qden x)).

Definition normalizeTasks (tasks : list DeclaredTask) : list Task :=
  map_index
    (fun task index =>
       {| title := title task; priority := Z.of_nat (index + 1) |}) 0%nat
    (sort (fun a b => (priority a - priority b)%Z)
       (List.map
          (fun task =>
             {| title := trim (d_title task);
                priority := parseInt10 (d_priority task) |})
          tasks)).

(** [a < b] on numbers. *)
Definition Qltb (a b : Q) : bool := negb (Qle_bool b a).

Definition quoted (s : string) : jsstring := [34] ++ js s ++ [34].

(** The two checks made on every element of [data.tasks]. *)
Definition task_errors (task : JSON) (index : nat) : Outcome (list jsstring) :=
  obind (get task (js "title")) (fun t =>
  obind (get task (js "priority")) (fun p =>
    Ok ((if negb (truthy t) || negb (is_string t)
         then [js "Task " ++ nat_to_js (index + 1) ++
               js ": missing or invalid " ++ quoted "title"]
         else []) ++
        (if negb (is_number p) ||
            match p with Some (JNum q) => Qltb q 1 | _ => false end
         then [js "Task " ++ nat_to_js (index + 1) ++
               js ": missing or invalid " ++ quoted "priority"]
         else [])))).

(** [data.tasks.forEach((task, index) => ...)], collecting the messages. *)
Fixpoint tasks_errors (tasks : list JSON) (index : nat)
  : Outcome (list jsstring) :=
  match tasks with
  | [] => Ok []
  | task :: rest =>
      obind (task_errors task index) (fun e =>
      obind (tasks_errors rest (S index)) (fun es => Ok (e ++ es)))
  end.

Definition as_declared (task : JSON) : option DeclaredTask :=
  match task with
  | JObj props =>
      match assoc (js "title") props, assoc (js "priority") props with
      | Some (JStr t), Some (JNum p) =>
          Some {| d_title := t; d_priority := p |}
      | _, _ => None
      end
  | _ => None
  end.

Fixpoint all_declared (tasks : list JSON) : option (list DeclaredTask) :=
  match tasks with
  | [] => Some []
  | task :: rest =>
      match as_declared task, all_declared rest with
      | Some t, Some ts => Some (t :: ts)
      | _, _ => None
      end
  end.

Record Decision := {
  decision : jsstring;
  reasoning : jsstring;
  tasks : list Task
}.

Definition validateDecisionStructure (data : JSON) : Outcome Decision :=
  obind (get data (js "decision")) (fun d =>
  obind (get data (js "reasoning")) (fun r =>
  obind (get data (js "tasks")) (fun ts =>
  let errors1 :=
    if negb (truthy d) || negb (is_string d)
    then [js "Missing or invalid " ++ quoted "decision" ++ js " field"]
    else [] in
  let errors2 :=
    if negb (truthy r) || negb (is_string r)
    then [js "Missing or invalid " ++ quoted "reasoning" ++ js " field"]
    else [] in
  let errors3 :=
    if negb (isArray ts) ||
       match length_of ts with Some n => Qeq_bool n 0 | None => false end
    then [js "Missing or empty " ++ quoted "tasks" ++ js " array"]
    else [] in
  let errors4 :=
    if truthy ts &&
       match length_of ts with Some n => Qltb 5 n | None => false end
    then [js "Maximum 5 tasks allowed"]
    else [] in
  obind (match ts with
         | Some (JArr items) => tasks_errors items 0
         | _ => Ok []
         end) (fun errors5 =>
  let errors := errors1 ++ errors2 ++ errors3 ++ errors4 ++ errors5 in
  match errors with
  | _ :: _ =>
      Throw (Error (js "Invalid AI response: " ++ join (js "; ") errors))
  | [] =>
      match d, r, ts with
      | Some (JStr d'), Some (JStr r'), Some (JArr items) =>
          match all_declared items with
          | Some declared =>
              Ok {| decision := trim d';
                    reasoning := trim r';
                    tasks := normalizeTasks declared |}
          | None => Throw TypeError
          end
      | _, _, _ => Throw TypeError
      end
  end)))).

(** [parseDecisionResponse], given what [JSON.parse] does with the raw text
    ([None] when it throws a SyntaxError). *)
Definition parseDecisionResponse
    (JSON_parse : jsstring -> option JSON) (rawResponse : jsstring)
  : Outcome Decision :=
  match JSON_parse rawResponse with
  | None => Throw (Error (js "Failed to parse AI response as JSON"))
  | Some parsed =>
      obind (validateDecisionStructure parsed) (fun validated =>
      Ok {| decision := decision validated;
            reasoning := ensureAlignmentQuestion (reasoning validated);
            tasks := tasks validated |})
  end.

End ResponseParser.

(** ** The world of the session flow

    The process-wide maps of models/session.model.js, the sources of
    identifiers and timestamps, and the requests sent to the LLM so far. *)

Inductive Phase := DUMP | CLARITY | DECISION | PLANNING | EXECUTION.

Inductive Role := user | assistant | system.

Module Session.
Record t := {
  id : jsstring;
  user_id : option jsstring;
  current_phase : Phase;
  created_at : jsstring;
  updated_at : jsstring
}.
End Session.

Module Message.
Record t := {
  id : jsstring;
  session_id : jsstring;
  role : Role;
  content : jsstring;
  phase : Phase;
  created_at : jsstring
}.
End Message.

Module ChatMessage.
Record t := { role : Role; content : jsstring }.
End ChatMessage.

Module ChatRequest.
Record t := {
  model : option jsstring;
  messages : list ChatMessage.t;
  temperature : Q;
  max_tokens : N;
  top_p : Q
}.
End ChatRequest.

(** What awaiting [chat.completions.create] gives: the call throws (the
    promise rejects, or [getOpenAI] finds no API key), or it resolves and
    [choices[0]?.message?.content] is a string or is missing. *)
Inductive LLMReply :=
| Resolved (content : option jsstring)
| Rejected (e : JsError).

(** What the session flow takes from outside: [randomUUID()] and
    [new Date().toISOString()] as the sequences of their results, the LLM
    behind the client, the configured model name, and the five prompt texts
    of phasePrompts.js, whose wording plays no part here. *)
Record Env := {
  randomUUID_at : nat -> jsstring;
  toISOString_at : nat -> jsstring;
  llm : ChatRequest.t -> LLMReply;
  env_ai_model : option jsstring;
  PHASE_PROMPTS : Phase -> jsstring
}.

Record World := {
  sessions : gmap jsstring Session.t;
  messages : gmap jsstring (list Message.t);
  uuids_drawn : nat;
  clock_reads : nat;
  llm_requests : list ChatRequest.t
}.

Definition M (A : Type) : Type := World -> Outcome A * World.

#[global] Instance M_ret : MRet M := fun A a w => (Ok a, w).

#[global] Instance M_bind : MBind M := fun A B f m w =>
  match m w with
  | (Ok a, w') => f a w'
  | (Throw e, w') => (Throw e, w')
  end.

Definition throw {A} (e : JsError) : M A := fun w => (Throw e, w).

Definition gets {A} (f : World -> A) : M A := fun w => (Ok (f w), w).

Definition modify (f : World -> World) : M unit := fun w => (Ok tt, f w).

Definition set_sessions (f : gmap jsstring Session.t -> gmap jsstring Session.t)
    (w : World) : World :=
  {| sessions := f (sessions w); messages := messages w;
     uuids_drawn := uuids_drawn w; clock_reads := clock_reads w;
     llm_requests := llm_requests w |}.

Definition set_messages
    (f : gmap jsstring (list Message.t) -> gmap jsstring (list Message.t))
    (w : World) : World :=
  {| sessions := sessions w; messages := f (messages w);
     uuids_drawn := uuids_drawn w; clock_reads := clock_reads w;
     llm_requests := llm_requests w |}.

Section Effects.
Context (env : Env).

Definition randomUUID : M jsstring := fun w =>
  (Ok (randomUUID_at env (uuids_drawn w)),
   {| sessions := sessions w; messages := messages w;
      uuids_drawn := S (uuids_drawn w); clock_reads := clock_reads w;
      llm_requests := llm_requests w |}).

(** [new Date().toISOString()] *)
Definition now : M jsstring := fun w =>
  (Ok (toISOString_at env (clock_reads w)),
   {| sessions := sessions w; messages := messages w;
      uuids_drawn := uuids_drawn w; clock_reads := S (clock_reads w);
      llm_requests := llm_requests w |}).

(** [await aiClient.chat.completions.create(request)] *)
Definition chat_completions_create (request : ChatRequest.t)
  : M (option jsstring) := fun w =>
  let w' :=
    {| sessions := sessions w; messages := messages w;
       uuids_drawn := uuids_drawn w; clock_reads := clock_reads w;
       llm_requests := llm_requests w ++ [request] |} in
  match llm env request with
  | Resolved content => (Ok content, w')
  | Rejected e => (Throw e, w')
  end.
End Effects.

(** ** models/session.model.js *)

Module SessionModel.

Inductive MessagesRef := StoredArray | FreshArray.

Definition PHASE_ORDER : list Phase :=
  [DUMP; CLARITY; DECISION; PLANNING; EXECUTION].

Definition Phase_eqb (a b : Phase) : bool :=
  match a, b with
  | DUMP, DUMP | CLARITY, CLARITY | DECISION, DECISION
  | PLANNING, PLANNING | EXECUTION, EXECUTION => true
  | _, _ => false
  end.

(** [arr.indexOf(x)]: the first index holding [x], or [-1]. *)
Fixpoint indexOf (arr : list Phase) (x : Phase) : Z :=
  match arr with
  | [] => -1
  | y :: arr' =>
      if Phase_eqb y x then 0
      else match indexOf arr' x with
           | Zneg _ => -1
           | i => i + 1
           end
  end%Z.

Section Store.
Context (env : Env).

Definition create (userId : option jsstring) : M Session.t :=
  id ← randomUUID env;
  created_at ← now env;
  updated_at ← now env;
  let session :=
    {| Session.id := id; Session.user_id := userId;
       Session.current_phase := DUMP;
       Session.created_at := created_at;
       Session.updated_at := updated_at |} in
  _ ← modify (set_sessions (insert id session));
  _ ← modify (set_messages (insert id []));
  mret session.

Definition findById (id : jsstring) : M (option Session.t) :=
  gets (fun w => sessions w !! id).

(** The [messages] of the result are the stored array itself, not a copy
    ([StoredArray]), or a new empty array when the map has none for [id]
    ([FreshArray]); [read_messages] reads them at the time of use. *)
Definition findWithMessages (id : jsstring)
  : M (option (Session.t * MessagesRef)) :=
  gets (fun w =>
    match sessions w !! id with
    | None => None
    | Some session =>
        Some (session,
              match messages w !! id with
              | Some _ => StoredArray
              | None => FreshArray
              end)
    end).

Definition read_messages (id : jsstring) (ref : MessagesRef)
  : M (list Message.t) :=
  match ref with
  | StoredArray => gets (fun w => default [] (messages w !! id))
  | FreshArray => mret []
  end.

Definition addMessage (sessionId : jsstring) (role : Role)
    (content : jsstring) (phase : Phase) : M (option Message.t) :=
  found ← gets (fun w => sessions w !! sessionId);
  match found with
  | None => mret None
  | Some session =>
      id ← randomUUID env;
      created_at ← now env;
      let message :=
        {| Message.id := id; Message.session_id := sessionId;
           Message.role := role; Message.content := content;
           Message.phase := phase; Message.created_at := created_at |} in
      sessionMessages ← gets (fun w => default [] (messages w !! sessionId));
      _ ← modify (set_messages (insert sessionId (sessionMessages ++ [message])));
      updated_at ← now env;
      _ ← modify (set_sessions (insert sessionId
             {| Session.id := Session.id session;
                Session.user_id := Session.user_id session;
                Session.current_phase := Session.current_phase session;
                Session.created_at := Session.created_at session;
                Session.updated_at := updated_at |}));
      mret (Some message)
  end.

Definition advancePhase (sessionId : jsstring) : M (option Session.t) :=
  found ← gets (fun w => sessions w !! sessionId);
  match found with
  | None => mret None
  | Some session =>
      let currentIndex := indexOf PHASE_ORDER (Session.current_phase session) in
      let nextIndex := (currentIndex + 1)%Z in
      if (nextIndex >=? Z.of_nat (List.length PHASE_ORDER))%Z then mret None
      else
        let nextPhase := List.nth (Z.to_nat nextIndex) PHASE_ORDER EXECUTION in
        updated_at ← now env;
        let session' :=
          {| Session.id := Session.id session;
             Session.user_id := Session.user_id session;
             Session.current_phase := nextPhase;
             Session.created_at := Session.created_at session;
             Session.updated_at := updated_at |} in
        _ ← modify (set_sessions (insert sessionId session'));
        mret (Some session')
  end.

Definition canAdvance (currentPhase : Phase) : bool :=
  (indexOf PHASE_ORDER currentPhase <? Z.of_nat (List.length PHASE_ORDER) - 1)%Z.
End Store.

End SessionModel.

(** ** services/ai/phasePrompts.js *)

Module PhasePrompts.

Record PhaseConfig := { temperature : Q; maxTokens : N; topP : Q }.

Definition PHASE_CONFIG (phase : Phase) : PhaseConfig :=
  match phase with
  | DUMP => {| temperature := 0.4; maxTokens := 150; topP := 0.9 |}
  | CLARITY => {| temperature := 0.5; maxTokens := 200; topP := 0.9 |}
  | DECISION => {| temperature := 0.3; maxTokens := 250; topP := 0.85 |}
  | PLANNING => {| temperature := 0.4; maxTokens := 300; topP := 0.9 |}
  | EXECUTION => {| temperature := 0.5; maxTokens := 200; topP := 0.9 |}
  end%Q.

Section Prompts.
Context (env : Env).

(** Every phase has a prompt and a configuration: the unknown-phase errors
    of the two getters cannot arise. *)
Definition getPhasePrompt (phase : Phase) : jsstring := PHASE_PROMPTS env phase.

Definition getPhaseConfig (phase : Phase) : PhaseConfig := PHASE_CONFIG phase.

Definition buildPhaseMessages (phase : Phase)
    (conversationHistory : list ChatMessage.t) : list ChatMessage.t :=
  let systemPrompt := getPhasePrompt phase in
  {| ChatMessage.role := system; ChatMessage.content := systemPrompt |} ::
  List.map
    (fun msg =>
       {| ChatMessage.role := ChatMessage.role msg;
          ChatMessage.content := ChatMessage.content msg |})
    conversationHistory.
End Prompts.

End PhasePrompts.

(** ** services/session/sessionService.js *)

Module SessionService.
Import RegExp PhasePrompts.

(** A pattern with its source text, which [pattern.toString()] returns. *)
Record Pattern := { source : jsstring; re : regex }.

Inductive Category := questions | advice | structure | nextSteps.

Definition question_words : list string :=
  ["what"; "how"; "why"; "when"; "where"; "who"; "would"; "could"; "can";
   "do"; "does"; "have"; "has"; "are"; "is"]%string.

Definition DUMP_PHASE_VIOLATIONS : list (Category * list Pattern) :=
  [ (questions,
     [ {| source := js "/\?$/m";
          re := Seq (chr "?") LineEnd |};
       {| source :=
            js "/^(what|how|why|when|where|who|would|could|can|do|does|have|has|are|is)\s/im";
          re := seq_of [LineStart; alt_of (List.map ci question_words); ws] |} ]);
    (advice,
     [ {| source :=
            js "/\b(you should|you could|try to|consider|i suggest|i recommend|maybe you|perhaps you)\b/i";
          re := seq_of
                  [WordBoundary;
                   alt_of (List.map ci
                     ["you should"; "you could"; "try to"; "consider";
                      "i suggest"; "i recommend"; "maybe you";
                      "perhaps you"]%string);
                   WordBoundary] |};
       {| source := js "/\b(why don't you|what if you|have you tried)\b/i";
          re := seq_of
                  [WordBoundary;
                   alt_of (List.map ci
                     ["why don't you"; "what if you"; "have you tried"]%string);
                   WordBoundary] |} ]);
    (structure,
     [ {| source := js "/^\s*[-" ++ [0x2022] ++ js "*]\s/m";
          re := seq_of
                  [LineStart; Star ws;
                   Class (fun c => (c =? 45) || (c =? 0x2022) || (c =? 42));
                   ws] |};
       {| source := js "/^\s*\d+\.\s/m";
          re := seq_of [LineStart; Star ws; Plus digit; chr "."; ws] |};
       {| source := js "/^#{1,6}\s/m";
          re := seq_of [LineStart; upto 6 (chr "#"); ws] |} ]);
    (nextSteps,
     [ {| source :=
            js "/\b(next step|first step|start by|begin with|action item)\b/i";
          re := seq_of
                  [WordBoundary;
                   alt_of (List.map ci
                     ["next step"; "first step"; "start by"; "begin with";
                      "action item"]%string);
                   WordBoundary] |};
       {| source := js "/\b(to-do|todo|task|plan)\b/i";
          re := seq_of
                  [WordBoundary;
                   alt_of (List.map ci ["to-do"; "todo"; "task"; "plan"]%string);
                   WordBoundary] |} ]) ].

Record Violation := { category : Category; pattern : jsstring }.

Record ViolationCheck := { hasViolations : bool; violations : list Violation }.

(** The inner loop: the first pattern of a category that matches. *)
Fixpoint first_match (category : Category) (patterns : list Pattern)
    (response : jsstring) : list Violation :=
  match patterns with
  | [] => []
  | pattern :: rest =>
      if test (re pattern) response
      then [{| category := category; pattern := source pattern |}]
      else first_match category rest response
  end.

Definition checkDumpPhaseViolations (response : jsstring) : ViolationCheck :=
  let violations :=
    List.concat
      (List.map (fun '(category, patterns) =>
                   first_match category patterns response)
                DUMP_PHASE_VIOLATIONS) in
  {| hasViolations := (0 <? List.length violations)%nat;
     violations := violations |}.

Record LengthCheck := { isValid : bool; lineCount : nat }.

Definition checkResponseLength (response : jsstring) : LengthCheck :=
  let lines :=
    List.filter (fun l => match trim l with [] => false | _ => true end)
      (split_on 10 (trim response)) in
  {| isValid := (1 <=? List.length lines)%nat && (List.length lines <=? 6)%nat;
     lineCount := List.length lines |}.

Module PhaseResponse.
Record t := {
  content : jsstring;
  validationPassed : bool;
  regenerated : bool;
  violations : option (list Violation)
}.
End PhaseResponse.

Module ProcessResult.
Record t := {
  message : option Message.t;
  phase : Phase;
  validationPassed : bool;
  regenerated : bool
}.
End ProcessResult.

Definition MAX_ATTEMPTS : nat := 3.

Definition REMINDER : ChatMessage.t :=
  {| ChatMessage.role := system;
     ChatMessage.content :=
       js "REMINDER: Your previous response violated phase rules. DO NOT ask questions. DO NOT give advice. DO NOT use lists. Keep it to 3-5 lines of plain reflection." |}.

Section Service.
Context (env : Env).

Definition createSession (userId : option jsstring) : M Session.t :=
  SessionModel.create env userId.

Definition getSession (sessionId : jsstring) :=
  SessionModel.findWithMessages sessionId.

(** The recursion of the source is on [attempt], which only grows and stops
    the retries at [MAX_ATTEMPTS]. [console.warn] is not modelled. *)
Equations? generatePhaseResponse (phase : Phase)
    (conversationHistory : list ChatMessage.t) (attempt : nat)
  : M PhaseResponse.t by wf (MAX_ATTEMPTS - attempt)%nat lt :=
generatePhaseResponse phase conversationHistory attempt :=
  let messages := buildPhaseMessages env phase conversationHistory in
  let config := getPhaseConfig phase in
  completion ← chat_completions_create env
    {| ChatRequest.model := env_ai_model env;
       ChatRequest.messages := messages;
       ChatRequest.temperature := temperature config;
       ChatRequest.max_tokens := maxTokens config;
       ChatRequest.top_p := topP config |};
  let content := match completion with Some c => trim c | None => [] end in
  let passed :=
    mret {| PhaseResponse.content := content;
            PhaseResponse.validationPassed := true;
            PhaseResponse.regenerated := (1 <? attempt)%nat;
            PhaseResponse.violations := None |} in
  match phase with
  | DUMP =>
      let violations := checkDumpPhaseViolations content in
      let lengthCheck := checkResponseLength content in
      if hasViolations violations || negb (isValid lengthCheck) then
        match lt_dec attempt MAX_ATTEMPTS with
        | left _ =>
            let reminderHistory := conversationHistory ++ [REMINDER] in
            generatePhaseResponse phase reminderHistory (attempt + 1)
        | right _ =>
            mret {| PhaseResponse.content := content;
                    PhaseResponse.validationPassed := false;
                    PhaseResponse.regenerated := (1 <? attempt)%nat;
                    PhaseResponse.violations :=
                      Some (SessionService.violations violations) |}
        end
      else passed
  | _ => passed
  end.
Proof. lia. Qed.

(** [session.messages] is read after the user message is saved, and it is
    the stored array: the history holds what [addMessage] has pushed. *)
Definition processMessage (sessionId userContent : jsstring)
  : M ProcessResult.t :=
  found ← SessionModel.findWithMessages sessionId;
  match found with
  | None => throw (Error (js "Session not found"))
  | Some (session, session_messages) =>
      let currentPhase := Session.current_phase session in
      _ ← SessionModel.addMessage env sessionId user userContent currentPhase;
      stored ← SessionModel.read_messages sessionId session_messages;
      let history :=
        List.map
          (fun m => {| ChatMessage.role := Message.role m;
                       ChatMessage.content := Message.content m |})
          stored ++
        [{| ChatMessage.role := user; ChatMessage.content := userContent |}] in
      response ← generatePhaseResponse currentPhase history 1;
      savedMessage ← SessionModel.addMessage env sessionId assistant
                       (PhaseResponse.content response) currentPhase;
      mret {| ProcessResult.message := savedMessage;
              ProcessResult.phase := currentPhase;
              ProcessResult.validationPassed :=
                PhaseResponse.validationPassed response;
              ProcessResult.regenerated :=
                PhaseResponse.regenerated response |}
  end.

Definition advancePhase (sessionId : jsstring) : M (option Session.t) :=
  found ← SessionModel.findById sessionId;
  match found with
  | None => throw (Error (js "Session not found"))
  | Some session =>
      if negb (SessionModel.canAdvance (Session.current_phase session))
      then throw (Error (js "Cannot advance from current phase"))
      else SessionModel.advancePhase env sessionId
  end.

End Service.

End SessionService.

(** ** middlewares/error.middleware.js *)

Module Errors.

Definition badRequest (message : jsstring) : JsError :=
  AppError message 400 (js "BAD_REQUEST").

Definition notFound (message : jsstring) : JsError :=
  AppError message 404 (js "NOT_FOUND").

End Errors.

(** ** controllers/session.controller.js *)

Module SessionController.

Record AdvanceData := {
  id : jsstring;
  previousPhase : Phase;
  currentPhase : Phase
}.

Section Controller.
Context (env : Env).

(** [POST /session/:id/advance]: the [data] of the JSON response, or the
    error handed to the error middleware. *)
Definition advancePhase (id : jsstring) : M AdvanceData :=
  found ← SessionService.getSession id;
  match found with
  | None => throw (Errors.notFound (js "Session not found"))
  | Some (session, _) =>
      if SessionModel.Phase_eqb (Session.current_phase session) DUMP
      then throw (Errors.badRequest
             (js "Phase 2 (CLARITY) is not yet implemented. Stay in the dump phase for now."))
      else
        updated ← SessionService.advancePhase env id;
        match updated with
        | None =>
            throw (Errors.badRequest (js "Cannot advance from current phase"))
        | Some updated =>
            mret {| id := Session.id updated;
                    previousPhase := Session.current_phase session;
                    currentPhase := Session.current_phase updated |}
        end
  end.
End Controller.

End SessionController.

(** ** services/task/priorityService.js *)

Module PriorityService.

(** A task row as the task store returns it. *)
Record Task := {
  id : jsstring;
  decision_id : jsstring;
  title : jsstring;
  priority : Z;
  status : jsstring;
  created_at : jsstring;
  updated_at : jsstring
}.

(** [{ ...task, priority: p }] *)
Definition with_priority (task : Task) (p : Z) : Task :=
  {| id := id task; decision_id := decision_id task; title := title task;
     priority := p; status := status task;
     created_at := created_at task; updated_at := updated_at task |}.

(** [tasks.findIndex((t) => t.id === taskId)], [None] for [-1]. *)
Fixpoint findIndex (tasks : list Task) (taskId : jsstring) : option nat :=
  match tasks with
  | [] => None
  | t :: rest =>
      if jsstring_eqb (id t) taskId then Some O
      else option_map S (findIndex rest taskId)
  end.

(** The loop of [reorderTasks] from index [i] on: [n] iterations are left,
    [others] is [otherTasks] from index [i]. [newPriority] is an integer
    here; the loop compares it with the integer counter only. *)
Fixpoint reorder_loop (n : nat) (task : Task) (newPriority : Z)
    (others : list Task) (priorityCounter : Z) : list Task :=
  match n with
  | O => []
  | S n' =>
      let inserted :=
        if (priorityCounter =? newPriority)%Z
        then [with_priority task priorityCounter] else [] in
      let priorityCounter :=
        if (priorityCounter =? newPriority)%Z
        then (priorityCounter + 1)%Z else priorityCounter in
      match others with
      | other :: rest =>
          inserted ++ with_priority other priorityCounter ::
          reorder_loop n' task newPriority rest (priorityCounter + 1)%Z
      | [] =>
          inserted ++ reorder_loop n' task newPriority [] priorityCounter
      end
  end.

Definition reorderTasks (tasks : list Task) (taskId : jsstring)
    (newPriority : Z) : list Task :=
  match findIndex tasks taskId with
  | None => tasks
  | Some taskIndex =>
      match List.nth_error tasks taskIndex with
      | None => tasks
      | Some task =>
          let otherTasks :=
            List.filter (fun t => negb (jsstring_eqb (id t) taskId)) tasks in
          reorder_loop (List.length otherTasks + 1) task newPriority
            otherTasks 1
      end
  end.

End PriorityService.

(** ** utils/normalizeInput.js *)

Module NormalizeInput.

(** [s.replace(/\s+/g, ' ')]: every maximal run of white space becomes one
    space; [in_run] tells that the previous code unit was white space. *)
Fixpoint collapse_ws (in_run : bool) (s : jsstring) : jsstring :=
  match s with
  | [] => []
  | c :: s' =>
      if is_ws c then
        if in_run then collapse_ws true s' else 32 :: collapse_ws true s'
      else c :: collapse_ws false s'
  end.

(** [[\x00-\x08\x0B\x0C\x0E-\x1F\x7F]] *)
Definition is_control (c : N) : bool :=
  (c <=? 8) || (c =? 11) || (c =? 12) || ((14 <=? c) && (c <=? 31))
  || (c =? 127).

(** [s.replace(/[...]/g, to)] for a class of single code units. *)
Definition replace_class (p : N -> bool) (to : N) (s : jsstring) : jsstring :=
  List.map (fun c => if p c then to else c) s.

(** The two quote classes hold the ASCII quote they are replaced with; the
    dash class holds the en dash and the em dash. *)
Definition normalizeInput (input : option JSON) : jsstring :=
  match input with
  | Some (JStr input) =>
      if negb (truthy (Some (JStr input))) then [] else
      let normalized := trim input in
      let normalized := collapse_ws false normalized in
      let normalized := List.filter (fun c => negb (is_control c)) normalized in
      let normalized := replace_class (fun c => c =? 34) 34 normalized in
      let normalized := replace_class (fun c => c =? 39) 39 normalized in
      let normalized :=
        replace_class (fun c => (c =? 0x2013) || (c =? 0x2014)) 45 normalized in
      normalized
  | _ => []
  end.

(** The [normalized] property of a result: not set, [null], or a string. *)
Inductive Normalized := NotSet | Null | Text (s : jsstring).

Record Validation := {
  valid : bool;
  errors : list jsstring;
  normalized : Normalized
}.

Definition INPUT_REQUIRED := js "Input is required".
Definition MUST_BE_STRING := js "Input must be a string".
Definition TOO_SHORT := js "Input is too short (minimum 3 characters)".
Definition TOO_LONG := js "Input is too long (maximum 10000 characters)".
Definition MUST_CONTAIN_TEXT := js "Input must contain text".

Definition validateInput (input : option JSON) : Validation :=
  if negb (truthy input) then
    {| valid := false; errors := [INPUT_REQUIRED]; normalized := NotSet |}
  else if negb (is_string input) then
    {| valid := false; errors := [MUST_BE_STRING]; normalized := NotSet |}
  else
    let normalized := normalizeInput input in
    let errors :=
      (if N.of_nat (List.length normalized) <? 3 then [TOO_SHORT] else []) ++
      (if 10000 <? N.of_nat (List.length normalized) then [TOO_LONG] else []) ++
      (let hasLetters := RegExp.test (RegExp.Class RegExp.is_letter) normalized in
       if negb hasLetters then [MUST_CONTAIN_TEXT] else []) in
    {| valid := match errors with [] => true | _ => false end;
       errors := errors;
       normalized := match errors with [] => Text normalized | _ => Null end |}.

End NormalizeInput.

(** ** utils/confidenceScore.js *)

Module ConfidenceScore.
Local Open Scope Q_scope.

Record TaskLike := { title : jsstring }.

Record DecisionLike := {
  decision : option jsstring;
  tasks : option (list TaskLike);
  reasoning : option jsstring
}.

Record Context := { userInput : option jsstring; hasContext : bool }.




(** [s.toLowerCase()], as far as the places of ASCII keywords in the result
    go: ASCII capitals, the Kelvin sign and the dotted capital I are the code
    units whose lower case holds an ASCII letter; every other code unit is
    left in place. *)
Definition toLowerCase (s : jsstring) : jsstring :=
  List.concat
    (List.map
       (fun c =>
          if RegExp.is_upper c then [c + 32]
          else if c =? 0x212A then [107]
          else if c =? 0x0130 then [105; 0x0307]
          else [c])%N
       s).




Definition Qltb (a b : Q) : bool := negb (Qle_bool b a).












End ConfidenceScore.

(** ** controllers/session.controller.js, the message route *)

Module SessionRoutes.

Record Meta := { validationPassed : bool; regenerated : bool }.

Record MessageData := {
  message : option Message.t;
  phase : Phase;
  _meta : Meta
}.

Section Routes.
Context (env : Env).

(** [POST /session/:id/message], [content] being [req.body.content]: the
    [data] of the JSON response, or the error handed to the error
    middleware. *)
Definition sendMessage (id : jsstring) (content : option JSON)
  : M MessageData :=
  match content with
  | Some (JStr text) =>
      if negb (truthy content) || negb (is_string content) ||
         negb (truthy (Some (JStr (trim text))))
      then throw (Errors.badRequest (js "Content is required"))
      else
        session ← SessionService.getSession id;
        match session with
        | None => throw (Errors.notFound (js "Session not found"))
        | Some _ =>
            result ← SessionService.processMessage env id (trim text);
            mret {| message := SessionService.ProcessResult.message result;
                    phase := SessionService.ProcessResult.phase result;
                    _meta :=
                      {| validationPassed :=
                           SessionService.ProcessResult.validationPassed result;
                         regenerated :=
                           SessionService.ProcessResult.regenerated result |} |}
        end
  | _ => throw (Errors.badRequest (js "Content is required"))
  end.
End Routes.

End SessionRoutes.

(** ** services/ai/responseParser.js, the confidence indicators *)

Module ConfidenceIndicators.
Import ConfidenceScore.
Local Open Scope Q_scope.


End ConfidenceIndicators.

(** ** services/task/priorityService.js, scoring and renumbering *)

Module PriorityScoring.
Import PriorityService.

(** [words.forEach((w) => { if (hit(w)) score += step })] *)
Definition adjust (hit : jsstring -> bool) (words : list string)
    (step score : Z) : Z :=
  List.fold_left
    (fun score w => if hit (js w) then (score + step)%Z else score)
    words score.

Definition calculatePriorityScore (title : jsstring) : Z :=
  let lowerTitle := ConfidenceScore.toLowerCase title in
  let score := 50%Z in
  let urgentKeywords :=
    ["urgent"; "asap"; "immediately"; "critical"; "blocker"]%string in
  let score := adjust (includes lowerTitle) urgentKeywords (-30) score in
  let highKeywords :=
    ["important"; "first"; "before"; "must"; "required"]%string in
  let score := adjust (includes lowerTitle) highKeywords (-15) score in
  let lowKeywords :=
    ["later"; "eventually"; "nice to have"; "optional"; "when possible"]%string in
  let score := adjust (includes lowerTitle) lowKeywords 20 score in
  let actionVerbs := ["create"; "build"; "fix"; "implement"; "setup"]%string in
  let score := adjust (startsWith lowerTitle) actionVerbs (-5) score in
  score.

(** A task as [assignPriorities] reads it: only the title is used. *)
Record Titled := { t_title : jsstring }.

(** [{ ...task, score }], of which the title and the score are read. *)
Record Scored := { s_title : jsstring; score : Z }.

Definition assignPriorities (tasks : list Titled) : list ResponseParser.Task :=
  let scored :=
    List.map
      (fun task => {| s_title := t_title task;
                      score := calculatePriorityScore (t_title task) |})
      tasks in
  let scored := sort (fun a b => (score a - score b)%Z) scored in
  map_index
    (fun task index =>
       {| ResponseParser.title := s_title task;
          ResponseParser.priority := Z.of_nat (index + 1) |}) 0%nat
    scored.

(** [tasks.sort] sorts the argument array in place: the first component is
    the argument array after the call, the second the array returned. *)
Definition normalizePriorities (tasks : list Task) : list Task * list Task :=
  let sorted := sort (fun a b => (priority a - priority b)%Z) tasks in
  (sorted,
   map_index (fun task index => with_priority task (Z.of_nat (index + 1)))
     0%nat sorted).

End PriorityScoring.

(** ** utils/confidenceScore.js, the display of a score *)

Module ConfidenceDisplay.
Import ConfidenceScore.
Local Open Scope Q_scope.


(** The sign of a number: what [sort] reads of the result of [comparefn]. *)
Definition sign (q : Q) : Z := Z.sgn (Qnum q).







End ConfidenceDisplay.

(** ** services/memory/summaryService.js *)

Module SummaryService.

Definition MAX_SUMMARY_LENGTH : Z := 500.

(** [s.slice(0, end)] for an integer [end]: a negative [end] counts from the
    end of the string. *)
Definition slice_to (s : jsstring) (e : Z) : jsstring :=
  let len := Z.of_nat (List.length s) in
  let final := if (e <? 0)%Z then Z.max (len + e) 0 else Z.min e len in
  take (Z.to_nat final) s.

(** [truncate(text, maxLength)], [None] standing for a [text] that is
    [undefined] or [null]; [maxLength] is [MAX_SUMMARY_LENGTH] when the
    caller gives none. *)
Definition truncate (text : option jsstring) (maxLength : Z)
  : option jsstring :=
  match text with
  | None => None
  | Some s =>
      if negb (truthy (Some (JStr s))) ||
         (Z.of_nat (List.length s) <=? maxLength)%Z
      then Some s
      else Some (slice_to s (maxLength - 3) ++ js "...")
  end.

End SummaryService.

(** ** services/ai/promptBuilder.js *)

Module PromptBuilder.

(** [GetSubstitution] for a search value that is a string: there are no
    captures, so [$$], [$&], [$`] and [$'] are the only replacement
    patterns, and any other [$] stands for itself. *)
Fixpoint GetSubstitution (matched before after replacement : jsstring)
  : jsstring :=
  match replacement with
  | [] => []
  | c :: rest =>
      if c =? 36 then
        match rest with
        | d :: rest' =>
            if d =? 36 then 36 :: GetSubstitution matched before after rest'
            else if d =? 38
            then matched ++ GetSubstitution matched before after rest'
            else if d =? 96
            then before ++ GetSubstitution matched before after rest'
            else if d =? 39
            then after ++ GetSubstitution matched before after rest'
            else c :: GetSubstitution matched before after rest
        | [] => [c]
        end
      else c :: GetSubstitution matched before after rest
  end.

(** The text before and the text after the first occurrence of [search]. *)
Fixpoint split_at (s search : jsstring) : option (jsstring * jsstring) :=
  if startsWith s search then Some ([], drop (List.length search) s)
  else
    match s with
    | [] => None
    | c :: s' =>
        match split_at s' search with
        | Some (before, after) => Some (c :: before, after)
        | None => None
        end
    end.

(** [s.replace(searchValue, replaceValue)] for two strings. *)
Definition replace (s searchValue replaceValue : jsstring) : jsstring :=
  match split_at s searchValue with
  | None => s
  | Some (before, after) =>
      before ++ GetSubstitution searchValue before after replaceValue ++ after
  end.

Definition CONTEXT_TEMPLATE : jsstring :=
  js "KNOWN CONTEXT (if any):" ++ [10] ++ js "{context}" ++ [10; 10] ++ js "---".

Definition USER_INPUT_TEMPLATE : jsstring :=
  js "USER INPUT:" ++ [10] ++ js "{userInput}".

Section Builder.
(** The text of the system prompt plays no part here. *)
Context (SYSTEM_PROMPT : jsstring).

(** [context] is a string or [null]. *)
Definition buildDecisionPrompt (userInput : jsstring)
    (context : option jsstring) : list ChatMessage.t :=
  let messages :=
    [{| ChatMessage.role := system; ChatMessage.content := SYSTEM_PROMPT |}] in
  let messages :=
    match context with
    | Some text =>
        if truthy (Some (JStr text))
        then messages ++
             [{| ChatMessage.role := system;
                 ChatMessage.content :=
                   replace CONTEXT_TEMPLATE (js "{context}") text |}]
        else messages
    | None => messages
    end in
  messages ++
  [{| ChatMessage.role := user;
      ChatMessage.content :=
        replace USER_INPUT_TEMPLATE (js "{userInput}") userInput |}].
End Builder.

End PromptBuilder.

(** ** utils/normalizeInput.js, the intent of an input *)

Module IntentType.
Import RegExp.

Inductive Intent := question | planning | problem | decision | task | general.

(** A literal of a pattern without flags. *)
Definition lit (s : string) : regex :=
  seq_of (List.map (fun c => Class (N.eqb c)) (js s)).

(** [/(a|b|...)/] *)
Definition any_of (words : list string) : regex :=
  alt_of (List.map lit words).

(** [/\?|^(what|how|...)/]: without the [m] flag, [^] holds at the start of
    the input only; [test] tries the pattern at every position, so its
    second alternative can match at the first position only. *)
Definition question_pattern (s : jsstring) : bool :=
  test (chr "?") s ||
  matches
    (any_of ["what"; "how"; "why"; "when"; "where"; "who"; "which"; "can";
             "should"; "would"; "is"; "are"; "do"; "does"]%string)
    None s (fun _ _ => true).

(** The patterns, as their [test] methods, in the order of the entries. *)
Definition intentPatterns : list (Intent * (jsstring -> bool)) :=
  [(question, question_pattern);
   (planning,
    test (any_of ["plan"; "schedule"; "organize"; "prepare"; "strategy";
                  "goal"; "objective"]%string));
   (problem,
    test (any_of ["problem"; "issue"; "trouble"; "stuck"; "help"; "confused";
                  "unsure"; "challenge"]%string));
   (decision,
    test (any_of ["decide"; "choose"; "pick"; "select"; "option";
                  "alternative"; "versus"; "or"]%string));
   (task,
    test (any_of ["need to"; "want to"; "have to"; "must"; "should"; "todo";
                  "task"; "action"]%string))].

(** The loop over the entries: the first intent whose pattern matches. *)
Fixpoint first_intent (normalized : jsstring)
    (patterns : list (Intent * (jsstring -> bool))) : Intent :=
  match patterns with
  | [] => general
  | (intent, pattern) :: rest =>
      if pattern normalized then intent else first_intent normalized rest
  end.

Definition detectIntentType (input : option JSON) : Intent :=
  let normalized :=
    ConfidenceScore.toLowerCase (NormalizeInput.normalizeInput input) in
  first_intent normalized intentPatterns.

End IntentType.

(** ** middlewares/requestLogger.js, the logged body *)

Module RequestLogger.

(** [sanitized[k] = v] on an object that owns [k]: the property keeps its
    place; a new property goes last. *)
Fixpoint set_prop (k : jsstring) (v : JSON) (props : list (jsstring * JSON))
  : list (jsstring * JSON) :=
  match props with
  | [] => [(k, v)]
  | (k', v') :: rest =>
      if jsstring_eqb k k' then (k, v) :: rest
      else (k', v') :: set_prop k v rest
  end.

Definition sensitiveFields : list string :=
  ["password"; "token"; "apiKey"; "secret"]%string.

(** One turn of the first loop. *)
Definition redact (sanitized : list (jsstring * JSON)) (field : string)
  : list (jsstring * JSON) :=
  if truthy (assoc (js field) sanitized)
  then set_prop (js field) (JStr (js "[REDACTED]")) sanitized
  else sanitized.

(** One turn of the second loop, on the value of an entry. *)
Definition shorten (value : JSON) : JSON :=
  match value with
  | JStr s =>
      if (500 <? List.length s)%nat
      then JStr (take 500 s ++ js "... [truncated]")
      else value
  | _ => value
  end.

(** [body] is an object, given by its properties. The copy
    [{ ...body }] has the same properties in the same order; the second loop
    assigns to the key of the entry it visits, which changes that entry in
    place. *)
Definition sanitizeBody (body : list (jsstring * JSON))
  : list (jsstring * JSON) :=
  let sanitized := body in
  let sanitized := List.fold_left redact sensitiveFields sanitized in
  List.map (fun '(key, value) => (key, shorten value)) sanitized.

End RequestLogger.

(** ** services/ai/decisionEngine.js *)

Module DecisionEngine.

(** What the client throws: an error object, read through its [code] and
    its [message]. *)
Record ClientError := { code : option jsstring; message : jsstring }.

(** What awaiting [openai.chat.completions.create] gives: it resolves, and
    [choices[0]?.message?.content] is a string or is missing, or it throws;
    a missing API key makes the [chat] getter throw. *)
Inductive Completion :=
| Content (content : option jsstring)
| Failure (error : ClientError).

Definition code_is (error : ClientError) (name : string) : bool :=
  match code error with
  | Some c => jsstring_eqb c (js name)
  | None => false
  end.

Section Engine.
(** The client behind [openai], as a function of the messages it is sent;
    [JSON.parse] and the system prompt as before. *)
Context (create : list ChatMessage.t -> Completion).
Context (JSON_parse : jsstring -> option JSON).
Context (SYSTEM_PROMPT : jsstring).

(** The error that the [try] block ends with, if any: the client's, or the
    one thrown for an empty content. *)
Definition callOpenAI (messages : list ChatMessage.t) : Outcome jsstring :=
  let attempt : jsstring + ClientError :=
    match create messages with
    | Content (Some content) =>
        if truthy (Some (JStr content)) then inl content
        else inr {| code := None; message := js "Empty response from OpenAI" |}
    | Content None =>
        inr {| code := None; message := js "Empty response from OpenAI" |}
    | Failure error => inr error
    end in
  match attempt with
  | inl content => Ok content
  | inr error =>
      if code_is error "insufficient_quota"
      then Throw (Error (js "OpenAI API quota exceeded. Please check your billing."))
      else if code_is error "invalid_api_key"
      then Throw (Error (js "Invalid OpenAI API key. Please check your configuration."))
      else if code_is error "rate_limit_exceeded"
      then Throw (Error (js "Rate limit exceeded. Please try again in a moment."))
      else Throw (Error (js "AI service error: " ++ message error))
  end.

(** [{ ...parsed, raw: response }] *)
Record Generated := {
  decision : jsstring;
  reasoning : jsstring;
  tasks : list ResponseParser.Task;
  raw : jsstring
}.

Definition generateDecision (userInput : jsstring) (context : option jsstring)
  : Outcome Generated :=
  let messages := PromptBuilder.buildDecisionPrompt SYSTEM_PROMPT userInput context in
  obind (callOpenAI messages) (fun response =>
  obind (ResponseParser.parseDecisionResponse JSON_parse response) (fun parsed =>
  Ok {| decision := ResponseParser.decision parsed;
        reasoning := ResponseParser.reasoning parsed;
        tasks := ResponseParser.tasks parsed;
        raw := response |})).
End Engine.

End DecisionEngine.

(** * Vocabulary of the properties *)

(** A string is trimmed when neither end can lose a code unit. *)
Definition trimmed (s : jsstring) : Prop := trimStart s = s /\ trimEnd s = s.

(** What a stable sort by a key is: the same elements, in ascending order of
    the key, the elements of equal key in their original order. *)
Definition stable_sort_by {A K : Type} (le : K -> K -> Prop)
    (eqb : K -> K -> bool) (key : A -> K) (input output : list A) : Prop :=
  Permutation input output /\
  StronglySorted (fun a b => le (key a) (key b)) output /\
  forall k, List.filter (fun a => eqb (key a) k) output =
            List.filter (fun a => eqb (key a) k) input.

(** The task list of a reply, when it is an array of objects with a string
    [title] and a numeric [priority]. *)
Definition declared_tasks (data : JSON)
  : option (list ResponseParser.DeclaredTask) :=
  match get data (js "tasks") with
  | Ok (Some (JArr items)) => ResponseParser.all_declared items
  | _ => None
  end.

(** The phase after a phase, in the fixed order of the specification; the
    last phase has none. *)
Definition successor (p : Phase) : option Phase :=
  match p with
  | DUMP => Some CLARITY
  | CLARITY => Some DECISION
  | DECISION => Some PLANNING
  | PLANNING => Some EXECUTION
  | EXECUTION => None
  end.

(** The place of a phase in that order. *)
Definition phase_rank (p : Phase) : nat :=
  match p with
  | DUMP => 0
  | CLARITY => 1
  | DECISION => 2
  | PLANNING => 3
  | EXECUTION => 4
  end.

(** One operation of the session store. [randomUUID] gives [create] an
    identifier that no stored session has. *)
Inductive store_step (env : Env) (w : World) : World -> Prop :=
| step_create userId :
    sessions w !! randomUUID_at env (uuids_drawn w) = None ->
    store_step env w (SessionModel.create env userId w).2
| step_addMessage sessionId role content phase :
    store_step env w (SessionModel.addMessage env sessionId role content phase w).2
| step_advancePhase sessionId :
    store_step env w (SessionModel.advancePhase env sessionId w).2.

(** ** The DUMP-phase response protocol *)

Module Protocol.
Import SessionService PhasePrompts.

(** The world after more requests have gone to the LLM. *)
Definition add_requests (w : World) (new : list ChatRequest.t) : World :=
  {| sessions := sessions w; messages := messages w;
     uuids_drawn := uuids_drawn w; clock_reads := clock_reads w;
     llm_requests := llm_requests w ++ new |}.

(** The request that [generatePhaseResponse] sends for a history. *)
Definition phase_request (env : Env) (phase : Phase)
    (history : list ChatMessage.t) : ChatRequest.t :=
  {| ChatRequest.model := env_ai_model env;
     ChatRequest.messages := buildPhaseMessages env phase history;
     ChatRequest.temperature := temperature (getPhaseConfig phase);
     ChatRequest.max_tokens := maxTokens (getPhaseConfig phase);
     ChatRequest.top_p := topP (getPhaseConfig phase) |}.

(** The content that [generatePhaseResponse] takes from a reply. *)
Definition reply_content (reply : LLMReply) : jsstring :=
  match reply with
  | Resolved (Some c) => trim c
  | _ => []
  end.

(** A content fails the forbidden-content check or the length check. *)
Definition violates (content : jsstring) : bool :=
  hasViolations (checkDumpPhaseViolations content) ||
  negb (isValid (checkResponseLength content)).

(** An LLM that is a function from the message sequence to the reply text. *)
Definition with_oracle (oracle : list ChatMessage.t -> jsstring) (base : Env)
  : Env :=
  {| randomUUID_at := randomUUID_at base;
     toISOString_at := toISOString_at base;
     llm := fun request => Resolved (Some (oracle (ChatRequest.messages request)));
     env_ai_model := env_ai_model base;
     PHASE_PROMPTS := PHASE_PROMPTS base |}.

(** The history of the attempt after [k] reminders. *)
Definition retry_history (history : list ChatMessage.t) (k : nat)
  : list ChatMessage.t :=
  history ++ List.repeat REMINDER k.

(** The request of the attempt after [k] reminders, and the content taken
    from its reply. *)
Definition attempt_request (env : Env) (history : list ChatMessage.t) (k : nat)
  : ChatRequest.t :=
  phase_request env DUMP (retry_history history k).

Definition attempt_content (env : Env) (history : list ChatMessage.t) (k : nat)
  : jsstring :=
  reply_content (llm env (attempt_request env history k)).

(** A run from the world [w] that only talked to the LLM: it sent at least
    one request, each for [history] with some reminders appended, and it
    threw only what the LLM rejected one of them with. *)
Definition only_requests (env : Env) (phase : Phase)
    (history : list ChatMessage.t) (w : World)
    (run : Outcome PhaseResponse.t * World) : Prop :=
  exists new,
    run.2 = add_requests w new /\
    new <> [] /\
    (forall request, In request new ->
       exists k, request = phase_request env phase (retry_history history k)) /\
    (forall e, run.1 = Throw e ->
       exists request, In request new /\ llm env request = Rejected e).

(** A reply of seven plain lines: no forbidden content, one line too many. *)
Definition seven_lines : jsstring :=
  join [10]
    [js "That sounds heavy."; js "So much sits on you."; js "It makes sense.";
     js "Nothing here feels simple."; js "You carry a lot.";
     js "It all feels loud."; js "There is room for it."].

End Protocol.

(** Numbering a list of tasks from a counter on. *)
Fixpoint renumber (priorityCounter : Z) (tasks : list PriorityService.Task)
  : list PriorityService.Task :=
  match tasks with
  | [] => []
  | t :: rest =>
      PriorityService.with_priority t priorityCounter ::
      renumber (priorityCounter + 1) rest
  end.

(** * Sample inputs *)

Module Samples.
Import ResponseParser.

Definition task_json (title : string) (priority : Q) : JSON :=
  JObj [(js "title", JStr (js title)); (js "priority", JNum priority)].

Definition reply_json (decision reasoning : string) (tasks : list JSON) : JSON :=
  JObj [(js "decision", JStr (js decision));
        (js "reasoning", JStr (js reasoning));
        (js "tasks", JArr tasks)].

(** A reply whose reasoning asks the alignment question first. *)
Definition question_first_reply : JSON :=
  reply_json "Ship the onboarding flow"
    "Are we aligned, or should we challenge this before moving on? I think we are."
    [task_json "Draft the flow" 1].

(** Its text, as the LLM sends it. *)
Definition question_first_raw : jsstring :=
  js "{" ++ quoted "decision" ++ js ":" ++ quoted "Ship the onboarding flow" ++
  js "," ++ quoted "reasoning" ++ js ":" ++
  quoted "Are we aligned, or should we challenge this before moving on? I think we are." ++
  js "," ++ quoted "tasks" ++ js ":[{" ++ quoted "title" ++ js ":" ++
  quoted "Draft the flow" ++ js "," ++ quoted "priority" ++ js ":1}]}".

(** A reply whose two priorities have the same integer part. *)
Definition fractional_reply : JSON :=
  reply_json "Ship the onboarding flow" "Focus on X"
    [task_json "A" 1.9; task_json "B" 1.2].


End Samples.

Module SampleEnv.

(** An environment around an LLM [reply]: identifiers [uuid-0], [uuid-1], ...
    and timestamps [t0], [t1], ... *)
Definition env (reply : ChatRequest.t -> LLMReply) : Env :=
  {| randomUUID_at := fun n => js "uuid-" ++ nat_to_js n;
     toISOString_at := fun n => js "t" ++ nat_to_js n;
     llm := reply;
     env_ai_model := Some (js "llama-3.3-70b-versatile");
     PHASE_PROMPTS := fun _ => js "You are a calm, grounding presence." |}.

Definition empty_world : World :=
  {| sessions := ∅; messages := ∅; uuids_drawn := 0; clock_reads := 0;
     llm_requests := [] |}.

Definition silent : ChatRequest.t -> LLMReply := fun _ => Resolved None.

(** The world after one session is created in the empty world. *)
Definition one_session : World :=
  (SessionModel.create (env silent) None empty_world).2.

(** The session it holds. *)
Definition first_session : Session.t :=
  {| Session.id := js "uuid-0"; Session.user_id := None;
     Session.current_phase := DUMP;
     Session.created_at := js "t0"; Session.updated_at := js "t1" |}.

(** The world after a message is added to that session and its phase is
    advanced. *)
Definition later_world : World :=
  (SessionModel.advancePhase (env silent) (js "uuid-0")
     (SessionModel.addMessage (env silent) (js "uuid-0") user
        (js "I feel stuck") DUMP one_session).2).2.

(** An LLM whose every call throws. *)
Definition failing : ChatRequest.t -> LLMReply :=
  fun _ => Rejected (Error (js "Connection error.")).

End SampleEnv.

Module SampleTasks.
Import PriorityService.

Definition row (name : string) (p : Z) : Task :=
  {| id := js name; decision_id := js "d1"; title := js name;
     priority := p; status := js "pending";
     created_at := js "t0"; updated_at := js "t0" |}.

(** The three tasks of one decision, as the task store lists them. *)
Definition three : list Task := [row "a" 1; row "b" 2; row "c" 3].

End SampleTasks.

Module SampleDecision.
Import ConfidenceScore.

Definition decision : DecisionLike :=
  {| decision :=
       Some (js "Focus on shipping the onboarding flow first, then build and implement the billing page");
     tasks := Some [ {| title := js "Build 3 onboarding screens" |} ];
     reasoning :=
       Some (js "This matters because onboarding is the bottleneck, therefore it comes first. Are we aligned, or should we challenge this before moving on?") |}.

Definition context : Context :=
  {| userInput :=
       Some (js "I want to grow my product but I need to decide what to do first; my goal is more signups and the problem is onboarding");
     hasContext := false |}.

End SampleDecision.

(** ** The session store, further vocabulary *)

(** A store in which every session sits under its own identifier and every
    message log belongs to a stored session and holds its messages only. *)
Definition store_consistent (w : World) : Prop :=
  (forall k session, sessions w !! k = Some session -> Session.id session = k) /\
  (forall k log, messages w !! k = Some log ->
     is_Some (sessions w !! k) /\
     Forall (fun m => Message.session_id m = k) log).

(** The message of the chat request made from a stored message. *)
Definition chat_of (m : Message.t) : ChatMessage.t :=
  {| ChatMessage.role := Message.role m;
     ChatMessage.content := Message.content m |}.

(** A completion without content, or with white space only. *)
Definition blank (completion : option jsstring) : bool :=
  match completion with
  | Some c => forallb is_ws c
  | None => true
  end.

(** ** Input normalization, further vocabulary *)

(** The dash replacement of [normalizeInput] on one code unit. *)
Definition undash (c : N) : N :=
  if (c =? 0x2013) || (c =? 0x2014) then 45 else c.

(** The code units that [normalizeInput] leaves in a string: no control
    character, no white space but the space, no en dash and no em dash. *)
Definition normal_unit (c : N) : bool :=
  negb (NormalizeInput.is_control c) && (negb (is_ws c) || (c =? 32)) &&
  negb (c =? 0x2013) && negb (c =? 0x2014).

(** The only control characters of a string are white space (the vertical
    tab and the form feed). *)
Definition no_hidden_control (s : jsstring) : bool :=
  forallb (fun c => negb (NormalizeInput.is_control c) || is_ws c) s.

(** ** Confidence, further vocabulary *)


(** ** The decision parser, further vocabulary *)

(** A declared task that the validation accepts: a title that is not empty
    and a priority of at least 1. *)
Definition acceptable_task (task : ResponseParser.DeclaredTask) : Prop :=
  ResponseParser.d_title task <> [] /\ (1 <= ResponseParser.d_priority task)%Q.

(** ** The logged body, further vocabulary *)

(** A property name that [sanitizeBody] treats as sensitive. *)
Definition sensitive (key : jsstring) : bool :=
  List.existsb (fun field => jsstring_eqb (js field) key)
    RequestLogger.sensitiveFields.

(** What [sanitizeBody] logs for one property of the body. *)
Definition logged (key : jsstring) (value : JSON) : JSON :=
  if sensitive key && truthy (Some value)
  then JStr (js "[REDACTED]")
  else RequestLogger.shorten value.

Module SampleBody.

(** A request body with a password at the top and one inside an object. *)
Definition body : list (jsstring * JSON) :=
  [(js "email", JStr (js "ada@example.org"));
   (js "password", JStr (js "hunter2"));
   (js "profile", JObj [(js "password", JStr (js "hunter3"))])].

End SampleBody.

(** * Properties *)

(** ** Strings *)

Section StringFacts.
Implicit Types s p t : jsstring.

Lemma startsWith_app p s : startsWith (p ++ s) p = true.
Proof.
  induction p as [|c p IH]; simpl; [done|].
  by rewrite N.eqb_refl.
Qed.

Lemma includes_startsWith s p : startsWith s p = true -> includes s p = true.
Proof. destruct s; simpl; by intros ->. Qed.

Lemma includes_app p s t : includes (s ++ p ++ t) p = true.
Proof.
  induction s as [|c s IH]; simpl.
  - apply includes_startsWith, startsWith_app.
  - rewrite IH. apply orb_true_r.
Qed.

Lemma includes_suffix p s : includes (s ++ p) p = true.
Proof. rewrite <- (app_nil_r p) at 1. apply includes_app. Qed.

Lemma trimStart_idem s : trimStart (trimStart s) = trimStart s.
Proof.
  induction s as [|c s IH]; simpl; [done|].
  destruct (is_ws c) eqn:E; [done|]. simpl. by rewrite E.
Qed.

Lemma trimStart_snoc s c :
  is_ws c = false -> trimStart (s ++ [c]) = trimStart s ++ [c].
Proof.
  intros Hc. induction s as [|d s IH]; simpl.
  - by rewrite Hc.
  - by destruct (is_ws d).
Qed.

Lemma trimEnd_cons c s :
  is_ws c = false -> trimEnd (c :: s) = c :: trimEnd s.
Proof.
  intros Hc. unfold trimEnd. simpl.
  rewrite trimStart_snoc by done. by rewrite rev_app_distr.
Qed.

Lemma trimEnd_snoc s c :
  is_ws c = false -> trimEnd (s ++ [c]) = s ++ [c].
Proof.
  intros Hc. unfold trimEnd. rewrite rev_app_distr. simpl.
  rewrite Hc. simpl. by rewrite rev_involutive.
Qed.

Lemma trimEnd_idem s : trimEnd (trimEnd s) = trimEnd s.
Proof. unfold trimEnd. by rewrite rev_involutive, trimStart_idem. Qed.

Lemma trimStart_head s c t : trimStart s = c :: t -> is_ws c = false.
Proof.
  induction s as [|d s IH]; simpl; [done|].
  destruct (is_ws d) eqn:E; [done|]. by intros [= <- _].
Qed.

Lemma trimStart_length s : (List.length (trimStart s) <= List.length s)%nat.
Proof.
  induction s as [|c s IH]; simpl; [done|].
  destruct (is_ws c); simpl; lia.
Qed.

Lemma trim_trimmed s : trimmed (trim s).
Proof.
  unfold trimmed, trim. split; [|apply trimEnd_idem].
  destruct (trimStart s) as [|c t] eqn:E; [done|].
  pose proof (trimStart_head _ _ _ E) as Hc.
  rewrite trimEnd_cons by done. simpl. by rewrite Hc.
Qed.

Lemma trim_of_trimmed s : trimmed s -> trim s = s.
Proof. intros [H1 H2]. unfold trim. by rewrite H1. Qed.

Lemma trim_idem s : trim (trim s) = trim s.
Proof. apply trim_of_trimmed, trim_trimmed. Qed.

(** A trimmed string stays trimmed when text that starts and ends with
    visible code units is appended. *)
Lemma trimmed_app s a t b :
  trimmed s -> is_ws a = false -> is_ws b = false ->
  trimmed (s ++ a :: t ++ [b]).
Proof.
  intros [Hs _] Ha Hb. split.
  - destruct s as [|c s']; simpl; [by rewrite Ha|].
    simpl in Hs. destruct (is_ws c) eqn:E; [|done].
    pose proof (trimStart_length s') as Hlen.
    rewrite Hs in Hlen. simpl in Hlen. lia.
  - replace (s ++ a :: t ++ [b]) with ((s ++ a :: t) ++ [b])
      by (by rewrite <- app_assoc).
    by apply trimEnd_snoc.
Qed.
End StringFacts.

(** ** The alignment question (responseParser.js) *)

Section Alignment.
Import ResponseParser.

Lemma ensureAlignmentQuestion_present reasoning :
  includes reasoning ALIGNMENT_SUFFIX = true ->
  ensureAlignmentQuestion reasoning = reasoning.
Proof. unfold ensureAlignmentQuestion. by intros ->. Qed.

Lemma ensureAlignmentQuestion_absent reasoning :
  includes reasoning ALIGNMENT_SUFFIX = false ->
  ensureAlignmentQuestion reasoning =
  trim (strip_trailing_punct reasoning) ++ js ". " ++ ALIGNMENT_SUFFIX.
Proof. unfold ensureAlignmentQuestion. by intros ->. Qed.

(** When the question had to be appended, it is last. *)
Lemma ensureAlignmentQuestion_appended reasoning :
  includes reasoning ALIGNMENT_SUFFIX = false ->
  endsWith (ensureAlignmentQuestion reasoning) ALIGNMENT_SUFFIX = true.
Proof.
  intros H. rewrite ensureAlignmentQuestion_absent by done.
  unfold endsWith. rewrite app_assoc, rev_app_distr. apply startsWith_app.
Qed.

Lemma ensureAlignmentQuestion_trimmed reasoning :
  trimmed reasoning -> trimmed (ensureAlignmentQuestion reasoning).
Proof.
  intros Ht. unfold ensureAlignmentQuestion.
  destruct (includes reasoning ALIGNMENT_SUFFIX); [done|].
  cbv zeta.
  change (js ". " ++ ALIGNMENT_SUFFIX)
    with (46 :: (removelast (32 :: ALIGNMENT_SUFFIX)) ++ [63]).
  apply trimmed_app; [apply trim_trimmed|reflexivity|reflexivity].
Qed.

(** The scenario of the specification. *)
Example ensureAlignmentQuestion_focus_on_x :
  ensureAlignmentQuestion (js "Focus on X") =
  js "Focus on X. Are we aligned, or should we challenge this before moving on?".
Proof. reflexivity. Qed.
End Alignment.

(** C8. Appending the alignment question is idempotent: a reasoning that
    already ends with the exact question is returned unchanged, applying
    [ensureAlignmentQuestion] twice equals applying it once, and so does
    applying twice the transformation the parser makes on the reasoning
    (trim, then [ensureAlignmentQuestion]). *)
Theorem ensureAlignmentQuestion_idempotent :
  (forall prefix,
     ResponseParser.ensureAlignmentQuestion
       (prefix ++ ResponseParser.ALIGNMENT_SUFFIX) =
     prefix ++ ResponseParser.ALIGNMENT_SUFFIX) /\
  (forall reasoning,
     ResponseParser.ensureAlignmentQuestion
       (ResponseParser.ensureAlignmentQuestion reasoning) =
     ResponseParser.ensureAlignmentQuestion reasoning) /\
  (forall reasoning,
     let transform r := ResponseParser.ensureAlignmentQuestion (trim r) in
     transform (transform reasoning) = transform reasoning).
Proof.
  split; [|split].
  - intros prefix. apply ensureAlignmentQuestion_present, includes_suffix.
  - intros reasoning.
    destruct (includes reasoning ResponseParser.ALIGNMENT_SUFFIX) eqn:E.
    + by rewrite (ensureAlignmentQuestion_present reasoning E),
        (ensureAlignmentQuestion_present reasoning E).
    + rewrite (ensureAlignmentQuestion_absent reasoning) by done.
      apply ensureAlignmentQuestion_present.
      rewrite app_assoc. apply includes_suffix.
  - intros reasoning transform. unfold transform.
    rewrite trim_of_trimmed
      by apply ensureAlignmentQuestion_trimmed, trim_trimmed.
    destruct (includes (trim reasoning) ResponseParser.ALIGNMENT_SUFFIX) eqn:E.
    + by rewrite (ensureAlignmentQuestion_present _ E),
        (ensureAlignmentQuestion_present _ E).
    + rewrite (ensureAlignmentQuestion_absent (trim reasoning)) by done.
      apply ensureAlignmentQuestion_present.
      rewrite app_assoc. apply includes_suffix.
Qed.

(** ** Sorting (Array.prototype.sort) *)

Section SortFacts.
Context {A : Type} (key : A -> Z).

Let comparefn (a b : A) : Z := (key a - key b)%Z.

Lemma sort_insert_perm x l : Permutation (x :: l) (sort_insert comparefn x l).
Proof.
  induction l as [|y l IH]; simpl; [done|].
  destruct (comparefn x y <=? 0)%Z; [done|].
  rewrite <- IH. apply perm_swap.
Qed.

Lemma sort_perm l : Permutation l (sort comparefn l).
Proof.
  induction l as [|x l IH]; simpl; [done|].
  rewrite <- sort_insert_perm. by constructor.
Qed.

Lemma sort_length l : List.length (sort comparefn l) = List.length l.
Proof. symmetry. apply Permutation_length, sort_perm. Qed.

Lemma sort_insert_sorted x l :
  StronglySorted (fun a b => (key a <= key b)%Z) l ->
  StronglySorted (fun a b => (key a <= key b)%Z) (sort_insert comparefn x l).
Proof.
  induction 1 as [|y l Hs IH Hy]; simpl.
  - repeat constructor.
  - unfold comparefn at 1. destruct (Z.leb_spec (key x - key y) 0) as [Hle|Hgt].
    + constructor; [by constructor|].
      constructor; [lia|].
      eapply Forall_impl; [exact Hy|]. simpl. intros; lia.
    + constructor; [done|].
      eapply Permutation_Forall; [apply sort_insert_perm|].
      constructor; [lia|done].
Qed.

Lemma sort_sorted l :
  StronglySorted (fun a b => (key a <= key b)%Z) (sort comparefn l).
Proof.
  induction l as [|x l IH]; simpl; [constructor|].
  by apply sort_insert_sorted.
Qed.

Lemma sort_insert_filter x l k :
  List.filter (fun a => (key a =? k)%Z) (sort_insert comparefn x l) =
  List.filter (fun a => (key a =? k)%Z) (x :: l).
Proof.
  induction l as [|y l IH]; [done|].
  cbn [sort_insert]. unfold comparefn at 1.
  destruct (Z.leb_spec (key x - key y) 0) as [Hle|Hgt]; [done|].
  cbn [List.filter] in *. rewrite IH.
  destruct (Z.eqb_spec (key x) k), (Z.eqb_spec (key y) k); try done. lia.
Qed.

Lemma sort_filter l k :
  List.filter (fun a => (key a =? k)%Z) (sort comparefn l) =
  List.filter (fun a => (key a =? k)%Z) l.
Proof.
  induction l as [|x l IH]; [done|].
  cbn [sort]. rewrite sort_insert_filter. cbn [List.filter]. by rewrite IH.
Qed.

(** The model of [sort] is a stable sort by the key that [comparefn]
    subtracts. *)
Lemma sort_stable l : stable_sort_by Z.le Z.eqb key l (sort comparefn l).
Proof.
  split; [apply sort_perm|]. split; [apply sort_sorted|].
  intros k. apply sort_filter.
Qed.
End SortFacts.

Lemma sort_map {A B} (f : A -> B) (cmp : B -> B -> Z) (l : list A) :
  sort cmp (List.map f l) = List.map f (sort (fun a b => cmp (f a) (f b)) l).
Proof.
  induction l as [|x l IH]; [done|].
  cbn [List.map sort]. rewrite IH. generalize (sort (fun a b => cmp (f a) (f b)) l).
  intros s. induction s as [|y s IHs]; [done|].
  cbn [List.map sort_insert]. destruct (cmp (f x) (f y) <=? 0)%Z; [done|].
  cbn [List.map]. by rewrite IHs.
Qed.

Lemma map_index_map {A B C} (f : A -> nat -> B) (g : B -> C) (h : A -> nat -> C)
    (i : nat) (l : list A) :
  (forall a n, g (f a n) = h a n) ->
  List.map g (map_index f i l) = map_index h i l.
Proof.
  intros Hh. revert i. induction l as [|x l IH]; intros i; [done|].
  cbn [map_index List.map]. by rewrite Hh, IH.
Qed.

Lemma map_index_const {A B} (f : A -> B) (i : nat) (l : list A) :
  map_index (fun a _ => f a) i l = List.map f l.
Proof. revert i. induction l as [|x l IH]; intros i; [done|]. simpl. by rewrite IH. Qed.

Lemma map_index_positions {A} (i : nat) (l : list A) :
  map_index (fun _ index => Z.of_nat (index + 1)) i l =
  List.map Z.of_nat (List.seq (i + 1) (List.length l)).
Proof.
  revert i. induction l as [|x l IH]; intros i; [done|].
  cbn [map_index List.length List.seq List.map]. rewrite IH.
  by replace (S i + 1)%nat with (S (i + 1)) by lia.
Qed.

Section StableSortUnique.
Context {A : Type} (key : A -> Z).

Let same_key (k : Z) (a : A) : bool := (key a =? k)%Z.

Lemma sorted_by_groups_unique (s1 s2 : list A) :
  StronglySorted (fun a b => (key a <= key b)%Z) s1 ->
  StronglySorted (fun a b => (key a <= key b)%Z) s2 ->
  (forall k, List.filter (same_key k) s1 = List.filter (same_key k) s2) ->
  s1 = s2.
Proof.
  intros H1. revert s2.
  induction H1 as [|x s1 Hs1 IH Hx]; intros s2 H2 Hgroups.
  - destruct s2 as [|y s2]; [done|].
    specialize (Hgroups (key y)). cbn in Hgroups. unfold same_key in Hgroups.
    by rewrite Z.eqb_refl in Hgroups.
  - destruct H2 as [|y s2 Hs2 Hy].
    { specialize (Hgroups (key x)). cbn in Hgroups. unfold same_key in Hgroups.
      by rewrite Z.eqb_refl in Hgroups. }
    assert (Hxy : key x = key y).
    { apply Z.le_antisymm.
      - pose proof (Hgroups (key y)) as Hk. cbn in Hk. unfold same_key in Hk.
        rewrite (Z.eqb_refl (key y)) in Hk.
        assert (Hin : In y (List.filter (fun a => (key a =? key y)%Z) (x :: s1))).
        { cbn. rewrite Hk. by left. }
        apply filter_In in Hin as [[<-|Hin] _]; [done|].
        rewrite Forall_forall in Hx. by apply Hx, list_elem_of_In.
      - pose proof (Hgroups (key x)) as Hk. cbn in Hk. unfold same_key in Hk.
        rewrite Z.eqb_refl in Hk.
        assert (Hin : In x (List.filter (fun a => (key a =? key x)%Z) (y :: s2))).
        { cbn. rewrite <- Hk. by left. }
        apply filter_In in Hin as [[<-|Hin] _]; [done|].
        rewrite Forall_forall in Hy. by apply Hy, list_elem_of_In. }
    pose proof (Hgroups (key x)) as Hk. cbn in Hk. unfold same_key in Hk.
    rewrite Z.eqb_refl, <- Hxy, Z.eqb_refl in Hk. injection Hk as <- Hk.
    f_equal. apply IH; [done|]. intros k.
    specialize (Hgroups k). cbn in Hgroups. unfold same_key in *.
    destruct (key x =? k)%Z; [by injection Hgroups|done].
Qed.

(** A list has one stable sort by a key. *)
Lemma stable_sort_by_unique (l s1 s2 : list A) :
  stable_sort_by Z.le Z.eqb key l s1 ->
  stable_sort_by Z.le Z.eqb key l s2 ->
  s1 = s2.
Proof.
  intros (_ & Hs1 & Hg1) (_ & Hs2 & Hg2).
  apply sorted_by_groups_unique; [done|done|].
  intros k. unfold same_key. by rewrite Hg1, Hg2.
Qed.
End StableSortUnique.

(** ** Validation and task normalization (responseParser.js) *)

Section Validation.
Import ResponseParser.

Lemma all_declared_length items declared :
  all_declared items = Some declared ->
  List.length declared = List.length items.
Proof.
  revert declared. induction items as [|t items IH]; intros declared; simpl.
  - by intros [= <-].
  - destruct (as_declared t); [|done].
    destruct (all_declared items); [|done].
    intros [= <-]. simpl. f_equal. by apply IH.
Qed.

Lemma Qltb_length n : Qltb 5 (inject_Z (Z.of_nat n)) = false -> (n <= 5)%nat.
Proof.
  unfold Qltb. intros H. apply negb_false_iff, Qle_bool_iff in H.
  change 5%Q with (inject_Z 5) in H. rewrite <- Zle_Qle in H. lia.
Qed.

Lemma Qeq_length n : Qeq_bool (inject_Z (Z.of_nat n)) 0 = false -> (1 <= n)%nat.
Proof. destruct n; [done|lia]. Qed.

Local Ltac rejected :=
  cbn [app isArray negb orb];
  match goal with
  | |- obind ?m _ = _ -> _ => by destruct m
  end.

(** What a reply that passes validation looks like. *)
Lemma validateDecisionStructure_ok data v :
  validateDecisionStructure data = Ok v ->
  exists d r declared,
    declared_tasks data = Some declared /\
    (1 <= List.length declared <= 5)%nat /\
    v = {| decision := trim d; reasoning := trim r;
           tasks := normalizeTasks declared |}.
Proof.
  unfold validateDecisionStructure, declared_tasks.
  destruct (get data (js "decision")) as [d|]; [|done].
  destruct (get data (js "reasoning")) as [r|]; [|done].
  destruct (get data (js "tasks")) as [ts|]; [|done].
  cbn [obind].
  destruct (negb (truthy d) || negb (is_string d)); [rejected|].
  destruct (negb (truthy r) || negb (is_string r)); [rejected|].
  destruct ts as [[| | | |items|]|]; try rejected.
  cbn [isArray negb orb length_of truthy andb].
  destruct (Qeq_bool _ 0) eqn:Hne; [rejected|].
  destruct (Qltb 5 _) eqn:Hle; [rejected|].
  destruct (tasks_errors items 0) as [[|e es]|]; cbn [obind app]; [|done|done].
  destruct d as [[| | |d| |]|]; try done.
  destruct r as [[| | |r| |]|]; try done.
  destruct (all_declared items) as [declared|] eqn:Hd; [|done].
  intros [= <-]. exists d, r, declared. split; [done|]. split; [|done].
  rewrite (all_declared_length _ _ Hd).
  split; [by apply Qeq_length|by apply Qltb_length].
Qed.

Lemma normalizeTasks_priorities declared :
  List.map priority (normalizeTasks declared) =
  List.map Z.of_nat (List.seq 1 (List.length declared)).
Proof.
  unfold normalizeTasks.
  rewrite (map_index_map _ priority (fun _ index => Z.of_nat (index + 1)))
    by done.
  rewrite map_index_positions. simpl.
  by rewrite (sort_length priority), List.length_map.
Qed.

End Validation.




(** C3 (failing input). A reply whose reasoning holds the alignment
    question followed by more text is accepted and its reasoning is returned
    as it is: the question is present but it is not at the end. *)
Theorem parseDecisionResponse_question_not_last :
  forall (JSON_parse : jsstring -> option JSON) rawResponse,
    JSON_parse rawResponse = Some Samples.question_first_reply ->
    exists d,
      ResponseParser.parseDecisionResponse JSON_parse rawResponse = Ok d /\
      ResponseParser.reasoning d =
        js "Are we aligned, or should we challenge this before moving on? I think we are." /\
      endsWith (ResponseParser.reasoning d) ResponseParser.ALIGNMENT_SUFFIX = false.
Proof.
  intros JSON_parse rawResponse H. unfold ResponseParser.parseDecisionResponse.
  rewrite H. eexists. split; [vm_compute; reflexivity|]. split; reflexivity.
Qed.

(** C3 (witness). The reply as [JSON.parse] reads it from its text. *)
Lemma parseDecisionResponse_question_not_last_witness :
  exists d,
    ResponseParser.parseDecisionResponse
      (fun _ => Some Samples.question_first_reply) Samples.question_first_raw
      = Ok d /\
    ResponseParser.reasoning d =
      js "Are we aligned, or should we challenge this before moving on? I think we are." /\
    endsWith (ResponseParser.reasoning d) ResponseParser.ALIGNMENT_SUFFIX = false.
Proof.
  apply (parseDecisionResponse_question_not_last
           (fun _ => Some Samples.question_first_reply)
           Samples.question_first_raw).
  reflexivity.
Defined.

(** ** The session store (session.model.js) *)

(** Runs the monadic plumbing of an operation applied to a world. *)
Ltac run_model :=
  unfold mbind, M_bind, mret, M_ret, gets, modify, throw, randomUUID, now,
    set_sessions, set_messages; cbn.

Section Store.
Context (env : Env).
Import SessionModel.

Lemma advancePhase_spec w sessionId session :
  sessions w !! sessionId = Some session ->
  match successor (Session.current_phase session) with
  | None => advancePhase env sessionId w = (Ok None, w)
  | Some next =>
      exists session',
        (advancePhase env sessionId w).1 = Ok (Some session') /\
        sessions (advancePhase env sessionId w).2 !! sessionId = Some session' /\
        Session.current_phase session' = next /\
        forall other, other <> sessionId ->
          sessions (advancePhase env sessionId w).2 !! other = sessions w !! other
  end.
Proof.
  intros Hs. unfold advancePhase, mbind, M_bind, gets. rewrite Hs.
  destruct session as [i u p c t]. cbn [Session.current_phase].
  destruct p; cbn; try done;
    (eexists; split; [reflexivity|]; split; [apply lookup_insert_eq|];
     split; [reflexivity|]; intros other Hne; by apply lookup_insert_ne).
Qed.

Lemma store_step_monotone w w' sessionId session :
  store_step env w w' ->
  sessions w !! sessionId = Some session ->
  exists session',
    sessions w' !! sessionId = Some session' /\
    (phase_rank (Session.current_phase session) <=
     phase_rank (Session.current_phase session'))%nat.
Proof.
  intros Hstep Hs. destruct Hstep as [userId Hfresh|sid role content phase|sid].
  - exists session. split; [|done]. unfold create. run_model.
    rewrite lookup_insert_ne; [done|]. intros <-. congruence.
  - unfold addMessage, mbind, M_bind, gets.
    destruct (sessions w !! sid) as [s|] eqn:Hsid; [|by exists session].
    run_model. destruct (decide (sid = sessionId)) as [->|Hne].
    + rewrite lookup_insert_eq. eexists. split; [done|]. cbn.
      by replace s with session by congruence.
    + rewrite lookup_insert_ne by done. by exists session.
  - destruct (sessions w !! sid) as [s|] eqn:Hsid.
    + pose proof (advancePhase_spec w sid s Hsid) as Hadv.
      destruct (successor (Session.current_phase s)) as [next|] eqn:Hnext.
      * destruct Hadv as (s' & _ & Hs' & Hp & Hother).
        destruct (decide (sessionId = sid)) as [->|Hne].
        -- exists s'. split; [done|].
           replace session with s by congruence.
           destruct (Session.current_phase s); cbn in Hnext;
             try discriminate; injection Hnext as <-; rewrite Hp; cbn; lia.
        -- exists session. by rewrite Hother.
      * rewrite Hadv. by exists session.
    + unfold advancePhase, mbind, M_bind, gets. rewrite Hsid. by exists session.
Qed.
End Store.

(** C4. Take a stored session and any sequence of create, addMessage and
    advancePhase operations. The session is still stored afterwards and its
    phase has not moved backward in the fixed order. In the state reached,
    the advance operation returns [null] and changes nothing when the phase
    is the last one, EXECUTION, and otherwise stores and returns the session
    with the phase that follows. *)
Theorem phase_only_moves_forward :
  forall env w w' sessionId session,
    sessions w !! sessionId = Some session ->
    rtc (store_step env) w w' ->
    exists session',
      sessions w' !! sessionId = Some session' /\
      (phase_rank (Session.current_phase session) <=
       phase_rank (Session.current_phase session'))%nat /\
      match successor (Session.current_phase session') with
      | None =>
          Session.current_phase session' = EXECUTION /\
          SessionModel.advancePhase env sessionId w' = (Ok None, w')
      | Some next =>
          exists advanced,
            (SessionModel.advancePhase env sessionId w').1 = Ok (Some advanced) /\
            sessions (SessionModel.advancePhase env sessionId w').2 !! sessionId
              = Some advanced /\
            Session.current_phase advanced = next
      end.
Proof.
  intros env w w' sessionId session Hs Hsteps.
  assert (Hreach : exists session',
            sessions w' !! sessionId = Some session' /\
            (phase_rank (Session.current_phase session) <=
             phase_rank (Session.current_phase session'))%nat).
  { revert session Hs.
    induction Hsteps as [w|w w1 w2 Hstep _ IH]; intros session Hs.
    - by exists session.
    - destruct (store_step_monotone env w w1 sessionId session Hstep Hs)
        as (s1 & Hs1 & Hle1).
      destruct (IH s1 Hs1) as (s2 & Hs2 & Hle2).
      exists s2. split; [done|lia]. }
  destruct Hreach as (session' & Hs' & Hle).
  exists session'. split; [done|]. split; [done|].
  pose proof (advancePhase_spec env w' sessionId session' Hs') as H.
  destruct (successor (Session.current_phase session')) eqn:E.
  - destruct H as (advanced & ? & ? & ? & _). by exists advanced.
  - split; [|done]. by destruct (Session.current_phase session').
Qed.

(** C4 (witness). A session is created, gets a message and is advanced. *)
Lemma phase_only_moves_forward_witness :
  exists session',
    sessions SampleEnv.later_world !! js "uuid-0" = Some session' /\
    (phase_rank DUMP <= phase_rank (Session.current_phase session'))%nat /\
    match successor (Session.current_phase session') with
    | None =>
        Session.current_phase session' = EXECUTION /\
        SessionModel.advancePhase (SampleEnv.env SampleEnv.silent)
          (js "uuid-0") SampleEnv.later_world = (Ok None, SampleEnv.later_world)
    | Some next =>
        exists advanced,
          (SessionModel.advancePhase (SampleEnv.env SampleEnv.silent)
             (js "uuid-0") SampleEnv.later_world).1 = Ok (Some advanced) /\
          sessions (SessionModel.advancePhase (SampleEnv.env SampleEnv.silent)
                      (js "uuid-0") SampleEnv.later_world).2 !! js "uuid-0"
            = Some advanced /\
          Session.current_phase advanced = next
    end.
Proof.
  apply (phase_only_moves_forward (SampleEnv.env SampleEnv.silent)
           SampleEnv.one_session SampleEnv.later_world (js "uuid-0")
           SampleEnv.first_session).
  - vm_compute. reflexivity.
  - eapply rtc_l;
      [exact (step_addMessage _ SampleEnv.one_session (js "uuid-0") user
                (js "I feel stuck") DUMP)|].
    apply rtc_once.
    exact (step_advancePhase _
             (SessionModel.addMessage (SampleEnv.env SampleEnv.silent)
                (js "uuid-0") user (js "I feel stuck") DUMP
                SampleEnv.one_session).2
             (js "uuid-0")).
Defined.

(** C5. A session made by the create operation is in the DUMP phase, and the
    advance request on it is rejected with the bad-request error that says
    phase 2 (CLARITY) is not implemented, which is not the error of a phase
    that cannot advance; the store is left as it was. *)
Theorem fresh_session_advance_not_implemented :
  forall env userId w,
    exists session w1,
      SessionService.createSession env userId w = (Ok session, w1) /\
      Session.current_phase session = DUMP /\
      SessionController.advancePhase env (Session.id session) w1 =
        (Throw (Errors.badRequest
           (js "Phase 2 (CLARITY) is not yet implemented. Stay in the dump phase for now.")),
         w1) /\
      Errors.badRequest
        (js "Phase 2 (CLARITY) is not yet implemented. Stay in the dump phase for now.")
      <> Errors.badRequest (js "Cannot advance from current phase").
Proof.
  intros env userId w. eexists _, _. split.
  { unfold SessionService.createSession, SessionModel.create. run_model.
    reflexivity. }
  split; [reflexivity|]. split; [|by vm_compute].
  unfold SessionController.advancePhase, SessionService.getSession,
    SessionModel.findWithMessages.
  run_model. by rewrite !lookup_insert_eq.
Qed.

(** ** The DUMP-phase response protocol (sessionService.js) *)

Section ProtocolFacts.
Import SessionService PhasePrompts Protocol.

Lemma add_requests_app w a b :
  add_requests (add_requests w a) b = add_requests w (a ++ b).
Proof. unfold add_requests. cbn. by rewrite app_assoc. Qed.

(** One attempt: the request goes out, then the reply is judged. *)
Lemma generatePhaseResponse_attempt env phase history attempt w :
  generatePhaseResponse env phase history attempt w =
  let w1 := add_requests w [phase_request env phase history] in
  match llm env (phase_request env phase history) with
  | Rejected e => (Throw e, w1)
  | Resolved completion =>
      let content := reply_content (Resolved completion) in
      let passed :=
        {| PhaseResponse.content := content;
           PhaseResponse.validationPassed := true;
           PhaseResponse.regenerated := (1 <? attempt)%nat;
           PhaseResponse.violations := None |} in
      match phase with
      | DUMP =>
          if violates content then
            if (attempt <? MAX_ATTEMPTS)%nat then
              generatePhaseResponse env phase (history ++ [REMINDER])
                (attempt + 1) w1
            else
              (Ok {| PhaseResponse.content := content;
                     PhaseResponse.validationPassed := false;
                     PhaseResponse.regenerated := (1 <? attempt)%nat;
                     PhaseResponse.violations :=
                       Some (violations (checkDumpPhaseViolations content)) |},
               w1)
          else (Ok passed, w1)
      | _ => (Ok passed, w1)
      end
  end.
Proof.
  rewrite generatePhaseResponse_equation_1.
  unfold mbind, M_bind, chat_completions_create, mret, M_ret.
  fold (phase_request env phase history).
  fold (add_requests w [phase_request env phase history]).
  destruct (llm env (phase_request env phase history)) as [completion|e];
    [|done].
  cbv zeta. fold (reply_content (Resolved completion)).
  destruct phase; try done.
  fold (violates (reply_content (Resolved completion))).
  destruct (violates _); [|done].
  destruct (lt_dec attempt MAX_ATTEMPTS) as [Hlt|Hge].
  - by apply Nat.ltb_lt in Hlt as ->.
  - by apply Nat.ltb_nlt in Hge as ->.
Qed.

Lemma retry_history_S history k :
  retry_history history k ++ [REMINDER] = retry_history history (S k).
Proof.
  unfold retry_history. rewrite <- app_assoc. f_equal.
  change [REMINDER] with (List.repeat REMINDER 1).
  rewrite <- List.repeat_app. f_equal. lia.
Qed.

(** Attempt [k+1] of the protocol, with an LLM that always replies. *)
Lemma generatePhaseResponse_retry oracle base history k w :
  let env := with_oracle oracle base in
  let content := attempt_content env history k in
  let w1 := add_requests w [attempt_request env history k] in
  generatePhaseResponse env DUMP (retry_history history k) (S k) w =
  if violates content then
    if (S k <? MAX_ATTEMPTS)%nat then
      generatePhaseResponse env DUMP (retry_history history (S k)) (S (S k)) w1
    else
      (Ok {| PhaseResponse.content := content;
             PhaseResponse.validationPassed := false;
             PhaseResponse.regenerated := (1 <? S k)%nat;
             PhaseResponse.violations :=
               Some (violations (checkDumpPhaseViolations content)) |},
       w1)
  else
    (Ok {| PhaseResponse.content := content;
           PhaseResponse.validationPassed := true;
           PhaseResponse.regenerated := (1 <? S k)%nat;
           PhaseResponse.violations := None |},
     w1).
Proof.
  intros env content w1. rewrite generatePhaseResponse_attempt.
  rewrite retry_history_S. by replace (S k + 1)%nat with (S (S k)) by lia.
Qed.
End ProtocolFacts.

Section QuestionMark.
Import RegExp SessionService Protocol.

Lemma search_question_mark prev s :
  search (Seq (chr "?") LineEnd) prev (s ++ [63]) = true.
Proof.
  revert prev. induction s as [|c s IH]; intros prev.
  - reflexivity.
  - cbn [app search]. rewrite IH. apply orb_true_r.
Qed.

Lemma endsWith_question_mark content :
  endsWith content (js "?") = true -> exists s, content = s ++ [63].
Proof.
  unfold endsWith. destruct (rev content) as [|c r] eqn:E; [done|].
  cbn. rewrite andb_true_r. intros Hc%N.eqb_eq. subst c.
  exists (rev r). by rewrite <- (rev_involutive content), E.
Qed.

(** A content that ends with a question mark is a [questions] violation. *)
Lemma question_mark_violation content :
  endsWith content (js "?") = true ->
  hasViolations (checkDumpPhaseViolations content) = true /\
  exists rest,
    violations (checkDumpPhaseViolations content) =
    {| category := questions; pattern := js "/\?$/m" |} :: rest.
Proof.
  intros (s & ->)%endsWith_question_mark.
  assert (H : exists rest,
    List.concat
      (List.map (fun '(category, patterns) =>
                   first_match category patterns (s ++ [63]))
                DUMP_PHASE_VIOLATIONS) =
    {| category := questions; pattern := js "/\?$/m" |} :: rest).
  { unfold DUMP_PHASE_VIOLATIONS. cbn [List.map first_match re source].
    unfold test at 1. rewrite search_question_mark.
    cbn [List.concat app]. by eexists. }
  destruct H as [rest Hrest].
  unfold checkDumpPhaseViolations. cbn [violations hasViolations].
  rewrite Hrest. split; [done|]. by exists rest.
Qed.

Lemma question_mark_violates content :
  endsWith content (js "?") = true -> violates content = true.
Proof.
  intros H. unfold violates.
  by destruct (question_mark_violation content H) as [-> _].
Qed.

Lemma hasViolations_nonempty content :
  violations (checkDumpPhaseViolations content) <> [] <->
  hasViolations (checkDumpPhaseViolations content) = true.
Proof.
  unfold checkDumpPhaseViolations. cbn [violations hasViolations].
  destruct (List.concat _); cbn; split; done.
Qed.
End QuestionMark.

Ltac project_response :=
  cbn [SessionService.PhaseResponse.content
       SessionService.PhaseResponse.validationPassed
       SessionService.PhaseResponse.regenerated
       SessionService.PhaseResponse.violations Nat.sub Nat.ltb Nat.leb negb].

(** C1 (amended). With an LLM that is a function from the message sequence
    to the reply text, the DUMP-phase protocol started at attempt 1 returns
    after [n] LLM calls, [n] between 1 and 3; call [k+1] carries the history
    with [k] corrective reminders appended; every reply before the last
    failed the forbidden-content check or the length check; a reply that
    ends with a question mark before the third attempt is followed by
    another attempt; the result carries the content of the last reply,
    [validationPassed] tells whether that reply passed both checks, and
    [regenerated] tells whether more than one call was made. On success there
    is no violations list. On failure three calls were made, and the
    violations list is that of the forbidden-content check on the last
    reply: it is non-empty exactly when that check fired. *)
Theorem generatePhaseResponse_bounded_retries :
  forall (oracle : list ChatMessage.t -> jsstring) (base : Env)
         (history : list ChatMessage.t) (w : World),
    let env := Protocol.with_oracle oracle base in
    let content := Protocol.attempt_content env history in
    exists n response,
      (1 <= n <= 3)%nat /\
      SessionService.generatePhaseResponse env DUMP history 1 w =
        (Ok response,
         Protocol.add_requests w
           (List.map (Protocol.attempt_request env history) (List.seq 0 n))) /\
      (forall k, ChatRequest.messages (Protocol.attempt_request env history k) =
         PhasePrompts.buildPhaseMessages env DUMP
           (history ++ List.repeat SessionService.REMINDER k)) /\
      ChatMessage.role SessionService.REMINDER = system /\
      (forall k, content k =
         trim (oracle (PhasePrompts.buildPhaseMessages env DUMP
                         (history ++ List.repeat SessionService.REMINDER k)))) /\
      (forall k, (k + 1 < n)%nat -> Protocol.violates (content k) = true) /\
      (forall k, (k < 2)%nat -> (k < n)%nat ->
                 endsWith (content k) (js "?") = true -> (k + 1 < n)%nat) /\
      SessionService.PhaseResponse.content response = content (n - 1)%nat /\
      SessionService.PhaseResponse.validationPassed response =
        negb (Protocol.violates (content (n - 1)%nat)) /\
      SessionService.PhaseResponse.regenerated response = (1 <? n)%nat /\
      (SessionService.PhaseResponse.validationPassed response = true ->
       SessionService.PhaseResponse.violations response = None) /\
      (SessionService.PhaseResponse.validationPassed response = false ->
       n = 3%nat /\
       SessionService.PhaseResponse.violations response =
         Some (SessionService.violations
                 (SessionService.checkDumpPhaseViolations (content 2%nat))) /\
       (SessionService.violations
          (SessionService.checkDumpPhaseViolations (content 2%nat)) <> [] <->
        SessionService.hasViolations
          (SessionService.checkDumpPhaseViolations (content 2%nat)) = true)).
Proof.
  intros oracle base history w env content. subst env.
  assert (Hq : forall k, endsWith (content k) (js "?") = true ->
                         Protocol.violates (content k) = false -> False).
  { intros k H1 H2. by rewrite (question_mark_violates _ H1) in H2. }
  replace (SessionService.generatePhaseResponse _ DUMP history 1 w)
    with (SessionService.generatePhaseResponse
            (Protocol.with_oracle oracle base) DUMP
            (Protocol.retry_history history 0) 1 w)
    by (unfold Protocol.retry_history; cbn; by rewrite app_nil_r).
  rewrite generatePhaseResponse_retry. cbv zeta. fold (content 0%nat).
  destruct (Protocol.violates (content 0%nat)) eqn:V0; cycle 1.
  { exists 1%nat. eexists. split; [lia|]. split; [reflexivity|].
    project_response. rewrite V0. repeat split; try done; try lia.
    intros k _ Hk Hend. assert (k = 0)%nat as -> by lia. by destruct (Hq 0%nat). }
  cbn [Nat.ltb Nat.leb SessionService.MAX_ATTEMPTS].
  rewrite generatePhaseResponse_retry. cbv zeta. fold (content 1%nat).
  rewrite add_requests_app.
  destruct (Protocol.violates (content 1%nat)) eqn:V1; cycle 1.
  { exists 2%nat. eexists. split; [lia|]. split; [reflexivity|].
    project_response. rewrite V1. repeat split; try done; try lia.
    - intros k Hk. by assert (k = 0)%nat as -> by lia.
    - intros k Hk _ Hend. destruct k as [|[|]]; [lia| |lia]. by destruct (Hq 1%nat). }
  cbn [Nat.ltb Nat.leb SessionService.MAX_ATTEMPTS].
  rewrite generatePhaseResponse_retry. cbv zeta. fold (content 2%nat).
  rewrite add_requests_app.
  exists 3%nat. cbn [Nat.ltb Nat.leb SessionService.MAX_ATTEMPTS].
  assert (Hk : forall k, (k + 1 < 3)%nat -> Protocol.violates (content k) = true).
  { intros k Hk. by destruct k as [|[|]]; [| |lia]. }
  destruct (Protocol.violates (content 2%nat)) eqn:V2;
    (eexists; split; [lia|]; split; [reflexivity|];
     project_response; rewrite V2; repeat split; try done; try lia;
     by apply hasViolations_nonempty).
Qed.

(** C1 (counterexample). An LLM that always answers with seven plain lines
    fails the length check, and only that check, at each of the three
    attempts; the result is flagged as not validated and its violations list
    is empty. *)
Lemma generatePhaseResponse_empty_violations_list :
  exists response w',
    SessionService.generatePhaseResponse
      (Protocol.with_oracle (fun _ => Protocol.seven_lines)
         (SampleEnv.env SampleEnv.silent))
      DUMP [] 1 SampleEnv.empty_world = (Ok response, w') /\
    List.length (llm_requests w') = 3%nat /\
    Protocol.violates (trim Protocol.seven_lines) = true /\
    SessionService.isValid
      (SessionService.checkResponseLength (trim Protocol.seven_lines)) = false /\
    SessionService.PhaseResponse.validationPassed response = false /\
    SessionService.PhaseResponse.violations response = Some [].
Proof. eexists _, _. split; [vm_compute; reflexivity|]. by vm_compute. Qed.

(** ** Processing a message (sessionService.js) *)

Section ProcessMessage.
Context (env : Env).
Import SessionService PhasePrompts Protocol.

Lemma addMessage_found w sessionId role content phase session :
  sessions w !! sessionId = Some session ->
  exists message w',
    SessionModel.addMessage env sessionId role content phase w =
      (Ok (Some message), w') /\
    Message.role message = role /\
    Message.content message = content /\
    Message.phase message = phase /\
    is_Some (sessions w' !! sessionId) /\
    (exists session', sessions w' !! sessionId = Some session' /\
       Session.current_phase session' = Session.current_phase session) /\
    messages w' !! sessionId =
      Some (default [] (messages w !! sessionId) ++ [message]) /\
    llm_requests w' = llm_requests w.
Proof.
  intros Hs. unfold SessionModel.addMessage. run_model. rewrite Hs. cbn.
  eexists _, _. split; [reflexivity|]. cbn.
  rewrite !lookup_insert_eq. repeat split; eauto.
Qed.

(** A run that did nothing but send the single request for [history]. *)
Lemma only_requests_single phase history w out :
  (forall e, out = Throw e ->
     llm env (phase_request env phase history) = Rejected e) ->
  only_requests env phase history w
    (out, add_requests w [phase_request env phase history]).
Proof.
  intros Hthrow. exists [phase_request env phase history].
  split; [done|]. split; [done|]. split.
  - intros request [<-|[]]. exists 0%nat.
    unfold retry_history. cbn. by rewrite app_nil_r.
  - intros e He. exists (phase_request env phase history).
    split; [by left|by apply Hthrow].
Qed.

(** [generatePhaseResponse] only talks to the LLM: it sends at least one
    request, each for the history with some reminders appended, and it
    throws only what the LLM rejected a request with. *)
Lemma generatePhaseResponse_effects phase n :
  forall history attempt w,
    (MAX_ATTEMPTS - attempt <= n)%nat ->
    only_requests env phase history w
      (generatePhaseResponse env phase history attempt w).
Proof.
  induction n as [|n IH]; intros history attempt w Hn;
    rewrite generatePhaseResponse_attempt; cbv zeta;
    destruct (llm env (phase_request env phase history)) as [completion|e]
      eqn:Hllm;
    try (apply only_requests_single; by intros e' [= <-]);
    destruct phase; try (by apply only_requests_single);
    destruct (violates _); try (by apply only_requests_single);
    destruct (Nat.ltb_spec attempt MAX_ATTEMPTS) as [Hlt|Hge];
    try (by apply only_requests_single).
  - lia.
  - destruct (IH (history ++ [REMINDER]) (attempt + 1)%nat
                (add_requests w [phase_request env DUMP history]))
      as (new & Hw & Hne & Hk & He); [lia|].
    exists (phase_request env DUMP history :: new).
    rewrite Hw, add_requests_app. split; [done|]. split; [done|]. split.
    + intros r [<-|Hr].
      * exists 0%nat. unfold retry_history. cbn. by rewrite app_nil_r.
      * destruct (Hk r Hr) as [k ->]. exists (S k). f_equal.
        unfold retry_history. by rewrite <- app_assoc.
    + intros e Hthrow. destruct (He e Hthrow) as (r & Hr & Hrej).
      exists r. split; [by right|done].
Qed.
End ProcessMessage.

Section ProcessMessageUnfold.
Context (env : Env).
Import SessionService.

Lemma read_messages_total sessionId ref w :
  exists stored, SessionModel.read_messages sessionId ref w = (Ok stored, w).
Proof. destruct ref; by eexists. Qed.

(** [processMessage] on a stored session, step by step. *)
Lemma processMessage_unfold w sessionId userContent session :
  sessions w !! sessionId = Some session ->
  processMessage env sessionId userContent w =
  let currentPhase := Session.current_phase session in
  let session_messages :=
    match messages w !! sessionId with
    | Some _ => SessionModel.StoredArray
    | None => SessionModel.FreshArray
    end in
  match SessionModel.addMessage env sessionId user userContent currentPhase w with
  | (Throw e, w1) => (Throw e, w1)
  | (Ok _, w1) =>
      match SessionModel.read_messages sessionId session_messages w1 with
      | (Throw e, w1') => (Throw e, w1')
      | (Ok stored, w1') =>
          let history :=
            List.map
              (fun m => {| ChatMessage.role := Message.role m;
                           ChatMessage.content := Message.content m |})
              stored ++
            [{| ChatMessage.role := user; ChatMessage.content := userContent |}] in
          match generatePhaseResponse env currentPhase history 1 w1' with
          | (Throw e, w2) => (Throw e, w2)
          | (Ok response, w2) =>
              match SessionModel.addMessage env sessionId assistant
                      (PhaseResponse.content response) currentPhase w2 with
              | (Throw e, w3) => (Throw e, w3)
              | (Ok savedMessage, w3) =>
                  (Ok {| ProcessResult.message := savedMessage;
                         ProcessResult.phase := currentPhase;
                         ProcessResult.validationPassed :=
                           PhaseResponse.validationPassed response;
                         ProcessResult.regenerated :=
                           PhaseResponse.regenerated response |}, w3)
              end
          end
      end
  end.
Proof.
  intros Hs. unfold processMessage, SessionModel.findWithMessages.
  unfold mbind at 1, M_bind at 1, gets at 1. rewrite Hs.
  unfold mbind, M_bind, mret, M_ret. cbv zeta.
  destruct (SessionModel.addMessage _ _ _ _ _ _) as [[?|?] ?]; [|done].
  destruct (SessionModel.read_messages _ _ _) as [[?|?] ?]; [|done].
  destruct (generatePhaseResponse _ _ _ _ _) as [[?|?] ?]; [|done].
  by destruct (SessionModel.addMessage _ _ _ _ _ _) as [[?|?] ?].
Qed.
End ProcessMessageUnfold.

(** C10. For a stored session, [processMessage] appends the user message to
    the session's log and then calls the LLM, at least once, every request
    carrying the new user message. When a call throws, [processMessage]
    throws what the LLM threw and the log is the old log followed by the
    user message alone; otherwise the log is the old log followed by the
    user message and the assistant message that is returned. *)
Theorem processMessage_saves_user_message_first :
  forall env w sessionId userContent session,
    sessions w !! sessionId = Some session ->
    exists userMessage new,
      Message.role userMessage = user /\
      Message.content userMessage = userContent /\
      Message.phase userMessage = Session.current_phase session /\
      llm_requests (SessionService.processMessage env sessionId userContent w).2
        = llm_requests w ++ new /\
      new <> [] /\
      (forall request, In request new ->
         In {| ChatMessage.role := user; ChatMessage.content := userContent |}
            (ChatRequest.messages request)) /\
      match (SessionService.processMessage env sessionId userContent w).1 with
      | Throw e =>
          (exists request, In request new /\ llm env request = Rejected e) /\
          messages (SessionService.processMessage env sessionId userContent w).2
            !! sessionId =
          Some (default [] (messages w !! sessionId) ++ [userMessage])
      | Ok result =>
          exists assistantMessage,
            SessionService.ProcessResult.message result = Some assistantMessage /\
            Message.role assistantMessage = assistant /\
            messages (SessionService.processMessage env sessionId userContent w).2
              !! sessionId =
            Some (default [] (messages w !! sessionId) ++
                  [userMessage; assistantMessage])
      end.
Proof.
  intros env w sessionId userContent session Hs.
  destruct (addMessage_found env w sessionId user userContent
              (Session.current_phase session) session Hs)
    as (um & w1 & Hadd1 & Hrole & Hcontent & Hphase & _ & (s1 & Hs1 & Hp1) & Hlog1 & Hreq1).
  rewrite (processMessage_unfold env w sessionId userContent session Hs).
  cbv zeta. rewrite Hadd1.
  destruct (read_messages_total sessionId
              (match messages w !! sessionId with
               | Some _ => SessionModel.StoredArray
               | None => SessionModel.FreshArray
               end) w1) as [stored ->].
  set (history := List.map _ stored ++ _).
  destruct (generatePhaseResponse_effects env (Session.current_phase session) 3
              history 1 w1 ltac:(cbn; lia))
    as (new & Hw2 & Hne & Hk & He).
  assert (Hcarried : forall request, In request new ->
            In {| ChatMessage.role := user; ChatMessage.content := userContent |}
               (ChatRequest.messages request)).
  { intros request Hin. destruct (Hk request Hin) as [k ->]. cbn. right.
    apply in_map_iff.
    exists {| ChatMessage.role := user; ChatMessage.content := userContent |}.
    split; [done|]. unfold Protocol.retry_history, history.
    apply in_or_app. left. apply in_or_app. right. by left. }
  destruct (SessionService.generatePhaseResponse env
              (Session.current_phase session) history 1 w1)
    as [[response|e] w2] eqn:Egen; cbn in Hw2; subst w2.
  - destruct (addMessage_found env (Protocol.add_requests w1 new) sessionId assistant
                (SessionService.PhaseResponse.content response)
                (Session.current_phase session) s1 Hs1)
      as (am & w3 & Hadd2 & Hrole2 & _ & _ & _ & _ & Hlog3 & Hreq3).
    rewrite Hadd2. cbn.
    exists um, new. repeat split; try done.
    + by rewrite Hreq3; cbn; rewrite Hreq1.
    + exists am. split; [done|]. split; [done|].
      rewrite Hlog3. cbn. rewrite Hlog1. cbn. by rewrite <- app_assoc.
  - cbn. exists um, new. repeat split; try done.
    + by rewrite Hreq1.
    + by apply He.
Qed.

(** C10 (witness). A message for the one stored session, the LLM failing. *)
Lemma processMessage_saves_user_message_first_witness :
  exists userMessage new,
    Message.role userMessage = user /\
    Message.content userMessage = js "I feel stuck" /\
    Message.phase userMessage = DUMP /\
    llm_requests
      (SessionService.processMessage (SampleEnv.env SampleEnv.failing)
         (js "uuid-0") (js "I feel stuck") SampleEnv.one_session).2
      = llm_requests SampleEnv.one_session ++ new /\
    new <> [] /\
    (forall request, In request new ->
       In {| ChatMessage.role := user; ChatMessage.content := js "I feel stuck" |}
          (ChatRequest.messages request)) /\
    match (SessionService.processMessage (SampleEnv.env SampleEnv.failing)
             (js "uuid-0") (js "I feel stuck") SampleEnv.one_session).1 with
    | Throw e =>
        (exists request,
           In request new /\
           llm (SampleEnv.env SampleEnv.failing) request = Rejected e) /\
        messages
          (SessionService.processMessage (SampleEnv.env SampleEnv.failing)
             (js "uuid-0") (js "I feel stuck") SampleEnv.one_session).2
          !! js "uuid-0" =
        Some (default [] (messages SampleEnv.one_session !! js "uuid-0") ++
              [userMessage])
    | Ok result =>
        exists assistantMessage,
          SessionService.ProcessResult.message result = Some assistantMessage /\
          Message.role assistantMessage = assistant /\
          messages
            (SessionService.processMessage (SampleEnv.env SampleEnv.failing)
               (js "uuid-0") (js "I feel stuck") SampleEnv.one_session).2
            !! js "uuid-0" =
          Some (default [] (messages SampleEnv.one_session !! js "uuid-0") ++
                [userMessage; assistantMessage])
    end.
Proof.
  apply (processMessage_saves_user_message_first
           (SampleEnv.env SampleEnv.failing) SampleEnv.one_session
           (js "uuid-0") (js "I feel stuck") SampleEnv.first_session).
  vm_compute. reflexivity.
Defined.

(** The failing LLM at work: the call throws, and the log of the session,
    empty before, holds the user message alone. *)
Example processMessage_llm_failure :
  let out :=
    SessionService.processMessage (SampleEnv.env SampleEnv.failing)
      (js "uuid-0") (js "I feel stuck") SampleEnv.one_session in
  out.1 = Throw (Error (js "Connection error.")) /\
  messages SampleEnv.one_session !! js "uuid-0" = Some [] /\
  messages out.2 !! js "uuid-0" =
    Some [{| Message.id := js "uuid-1"; Message.session_id := js "uuid-0";
             Message.role := user; Message.content := js "I feel stuck";
             Message.phase := DUMP; Message.created_at := js "t2" |}].
Proof. by vm_compute. Qed.

(** ** Input validation (normalizeInput.js) *)

Section ValidateInput.
Import NormalizeInput RegExp.

Lemma search_class p prev s : search (Class p) prev s = List.existsb p s.
Proof.
  revert prev. induction s as [|c s IH]; intros prev; [done|].
  cbn [search matches List.existsb]. by rewrite IH, andb_true_r.
Qed.

Lemma test_class p s : test (Class p) s = List.existsb p s.
Proof. apply search_class. Qed.

Lemma no_letter_iff s :
  test (Class is_letter) s = false <-> Forall (fun c => is_letter c = false) s.
Proof.
  rewrite test_class. induction s as [|c s IH]; cbn.
  - split; [constructor|done].
  - rewrite orb_false_iff, IH. split.
    + intros [? ?]. by constructor.
    + by inversion 1.
Qed.

Lemma In_optional {A} (b : bool) (x y : A) :
  In x (if b then [y] else []) <-> b = true /\ x = y.
Proof. destruct b; cbn; intuition congruence. Qed.

Lemma messages_distinct :
  TOO_SHORT <> TOO_LONG /\ TOO_SHORT <> MUST_CONTAIN_TEXT /\
  TOO_LONG <> MUST_CONTAIN_TEXT.
Proof. by vm_compute. Qed.

(** The errors of a truthy string input, one optional message per check. *)
Lemma validateInput_string input :
  truthy input = true -> is_string input = true ->
  let normalized := normalizeInput input in
  let too_short := N.of_nat (List.length normalized) <? 3 in
  let too_long := 10000 <? N.of_nat (List.length normalized) in
  let no_text := negb (test (Class is_letter) normalized) in
  let errors :=
    (if too_short then [TOO_SHORT] else []) ++
    (if too_long then [TOO_LONG] else []) ++
    (if no_text then [MUST_CONTAIN_TEXT] else []) in
  validateInput input =
  {| valid := match errors with [] => true | _ => false end;
     errors := errors;
     normalized := match errors with [] => Text normalized | _ => Null end |}.
Proof. unfold validateInput. by intros -> ->. Qed.
End ValidateInput.

(** C7 (amended). [validateInput] fails with the input-required error, and
    sets no [normalized], when the input is falsy (undefined, null, false, 0
    or the empty string); it fails with the type error, and sets no
    [normalized], when the input is truthy and not a string. For a non-empty
    string the errors are among too-short, too-long and no-text: too-short
    exactly when the normalized length is below 3, too-long exactly when it
    is above 10000, no-text exactly when the normalized string has no ASCII
    letter; the result is valid exactly when there is no error, and
    [normalized] is then the normalized string, and [null] otherwise. The
    input "hi" fails with too-short alone, and the input of 11000 letters
    [a] fails with too-long alone. *)
Theorem validateInput_cases :
  forall input : option JSON,
    let result := NormalizeInput.validateInput input in
    (truthy input = false ->
     result = {| NormalizeInput.valid := false;
                 NormalizeInput.errors := [NormalizeInput.INPUT_REQUIRED];
                 NormalizeInput.normalized := NormalizeInput.NotSet |}) /\
    (truthy input = true -> is_string input = false ->
     result = {| NormalizeInput.valid := false;
                 NormalizeInput.errors := [NormalizeInput.MUST_BE_STRING];
                 NormalizeInput.normalized := NormalizeInput.NotSet |}) /\
    (truthy input = true -> is_string input = true ->
     let normalized := NormalizeInput.normalizeInput input in
     let errors := NormalizeInput.errors result in
     (In NormalizeInput.TOO_SHORT errors <->
        (N.of_nat (List.length normalized) < 3)%N) /\
     (In NormalizeInput.TOO_LONG errors <->
        (10000 < N.of_nat (List.length normalized))%N) /\
     (In NormalizeInput.MUST_CONTAIN_TEXT errors <->
        Forall (fun c => RegExp.is_letter c = false) normalized) /\
     (forall e, In e errors ->
        e = NormalizeInput.TOO_SHORT \/ e = NormalizeInput.TOO_LONG \/
        e = NormalizeInput.MUST_CONTAIN_TEXT) /\
     (NormalizeInput.valid result = true <-> errors = []) /\
     NormalizeInput.normalized result =
       if NormalizeInput.valid result then NormalizeInput.Text normalized
       else NormalizeInput.Null) /\
    NormalizeInput.validateInput (Some (JStr (js "hi"))) =
      {| NormalizeInput.valid := false;
         NormalizeInput.errors := [NormalizeInput.TOO_SHORT];
         NormalizeInput.normalized := NormalizeInput.Null |} /\
    NormalizeInput.validateInput (Some (JStr (List.repeat 97 (N.to_nat 11000)))) =
      {| NormalizeInput.valid := false;
         NormalizeInput.errors := [NormalizeInput.TOO_LONG];
         NormalizeInput.normalized := NormalizeInput.Null |}.
Proof.
  intros input result. subst result.
  split; [|split; [|split; [|split]]].
  - unfold NormalizeInput.validateInput. by intros ->.
  - unfold NormalizeInput.validateInput. by intros -> ->.
  - intros Ht Hs. rewrite (validateInput_string input Ht Hs).
    cbv zeta. cbn [NormalizeInput.errors NormalizeInput.valid
                   NormalizeInput.normalized].
    destruct messages_distinct as (Hsl & Hst & Hlt).
    set (n := NormalizeInput.normalizeInput input).
    rewrite <- N.ltb_lt, <- N.ltb_lt, <- no_letter_iff, <- negb_true_iff.
    split; [|split; [|split; [|split; [|split]]]].
    + rewrite !in_app_iff, !In_optional. intuition congruence.
    + rewrite !in_app_iff, !In_optional. intuition congruence.
    + rewrite !in_app_iff, !In_optional. intuition congruence.
    + intros e. rewrite !in_app_iff, !In_optional. tauto.
    + by destruct (_ ++ _).
    + by destruct (_ ++ _).
  - by vm_compute.
  - by vm_compute.
Qed.

(** C7 (counterexample). The empty string is a string whose normalized length
    is below 3, and [null] is not a string; both fail with the input-required
    error only, and the result has no [normalized] property, not [null]. *)
Lemma validateInput_required_before_type_and_length :
  let empty := NormalizeInput.validateInput (Some (JStr [])) in
  let null := NormalizeInput.validateInput (Some JNull) in
  (N.of_nat (List.length (NormalizeInput.normalizeInput (Some (JStr [])))) < 3)%N /\
  NormalizeInput.errors empty = [NormalizeInput.INPUT_REQUIRED] /\
  ~ In NormalizeInput.TOO_SHORT (NormalizeInput.errors empty) /\
  NormalizeInput.normalized empty <> NormalizeInput.Null /\
  is_string (Some JNull) = false /\
  NormalizeInput.errors null = [NormalizeInput.INPUT_REQUIRED] /\
  ~ In NormalizeInput.MUST_BE_STRING (NormalizeInput.errors null) /\
  NormalizeInput.normalized null <> NormalizeInput.Null.
Proof.
  cbv zeta. repeat split; try done.
  - intros [H|[]]. by vm_compute in H.
  - intros [H|[]]. by vm_compute in H.
Qed.

(** ** Reordering tasks (priorityService.js) *)

(** C9 (failing input). Moving task [a] of three tasks to priority 5
    returns the two other tasks only, renumbered 1 and 2: the moved task is
    lost from the result. *)
Theorem reorderTasks_loses_task_beyond_end :
  PriorityService.reorderTasks SampleTasks.three (js "a") 5 =
    [SampleTasks.row "b" 1; SampleTasks.row "c" 2] /\
  ~ Permutation
      (List.map PriorityService.id SampleTasks.three)
      (List.map PriorityService.id
         (PriorityService.reorderTasks SampleTasks.three (js "a") 5)).
Proof.
  split; [reflexivity|].
  intros H%Permutation_length. by vm_compute in H.
Qed.

Section Reorder.
Import PriorityService.

Lemma jsstring_eqb_eq (a b : jsstring) : jsstring_eqb a b = true <-> a = b.
Proof.
  revert b. induction a as [|c a IH]; intros [|d b]; cbn; try done.
  rewrite andb_true_iff, N.eqb_eq, IH. split.
  - by intros [-> ->].
  - by intros [= -> ->].
Qed.

Lemma reorder_loop_after task newPriority n :
  forall others c,
    (newPriority < c)%Z -> (List.length others <= n)%nat ->
    reorder_loop n task newPriority others c = renumber c others.
Proof.
  induction n as [|n IH]; intros others c Hc Hn.
  - by destruct others; [|cbn in Hn; lia].
  - cbn [reorder_loop]. destruct (Z.eqb_spec c newPriority) as [->|_]; [lia|].
    destruct others as [|o rest]; cbn.
    + by rewrite IH by (cbn; lia).
    + rewrite IH; [done|lia|cbn in Hn; lia].
Qed.

Lemma reorder_loop_before task newPriority :
  forall others c,
    (c <= newPriority <= c + Z.of_nat (List.length others))%Z ->
    reorder_loop (List.length others + 1) task newPriority others c =
    renumber c
      (take (Z.to_nat (newPriority - c)) others ++
       task :: drop (Z.to_nat (newPriority - c)) others).
Proof.
  induction others as [|o rest IH]; intros c Hc.
  - cbn in Hc. assert (c = newPriority) as -> by lia.
    cbn. by rewrite Z.eqb_refl, Z.sub_diag.
  - cbn [List.length Nat.add reorder_loop].
    destruct (Z.eqb_spec c newPriority) as [->|Hne].
    + rewrite Z.sub_diag. cbn. by rewrite reorder_loop_after; [|lia|lia].
    + cbn [app]. rewrite IH by (cbn [List.length] in Hc; lia).
      by replace (Z.to_nat (newPriority - c))
        with (S (Z.to_nat (newPriority - (c + 1)))) by lia.
Qed.

Lemma findIndex_first tasks taskId :
  NoDup (List.map id tasks) ->
  forall task, In task tasks -> id task = taskId ->
  exists taskIndex,
    findIndex tasks taskId = Some taskIndex /\
    List.nth_error tasks taskIndex = Some task.
Proof.
  induction tasks as [|t rest IH]; intros Hnd task Hin Hid; [done|].
  cbn [findIndex]. apply NoDup_cons in Hnd as [Hnotin Hnd].
  destruct (jsstring_eqb (id t) taskId) eqn:E.
  - apply jsstring_eqb_eq in E. exists 0%nat. split; [done|].
    destruct Hin as [->|Hin]; [done|].
    exfalso. apply Hnotin, list_elem_of_In, in_map_iff.
    exists task. split; [congruence|done].
  - destruct Hin as [->|Hin].
    + apply not_true_iff_false in E. by rewrite jsstring_eqb_eq in E.
    + destruct (IH Hnd task Hin Hid) as (i & -> & Hnth). by exists (S i).
Qed.

Lemma others_all tasks taskId :
  ~ In taskId (List.map id tasks) ->
  List.filter (fun t => negb (jsstring_eqb (id t) taskId)) tasks = tasks.
Proof.
  induction tasks as [|t rest IH]; intros Hnotin; [done|].
  cbn [List.filter]. destruct (jsstring_eqb (id t) taskId) eqn:E.
  - apply jsstring_eqb_eq in E. exfalso. apply Hnotin. by left.
  - cbn. f_equal. apply IH. intros Hin. apply Hnotin. by right.
Qed.

Lemma others_length tasks taskId :
  NoDup (List.map id tasks) -> In taskId (List.map id tasks) ->
  (List.length
     (List.filter (fun t => negb (jsstring_eqb (id t) taskId)) tasks) + 1 =
   List.length tasks)%nat.
Proof.
  induction tasks as [|t rest IH]; intros Hnd Hin; [done|].
  apply NoDup_cons in Hnd as [Hnotin Hnd]. cbn [List.filter List.length].
  destruct (jsstring_eqb (id t) taskId) eqn:E; cbn [negb List.length].
  - apply jsstring_eqb_eq in E. rewrite others_all; [lia|].
    intros H. apply Hnotin, list_elem_of_In. by rewrite E.
  - destruct Hin as [Hin|Hin].
    + apply not_true_iff_false in E. by rewrite jsstring_eqb_eq in E.
    + rewrite <- (IH Hnd Hin). lia.
Qed.

(** Inside the range [1..N], [reorderTasks] puts the task at the new place
    among the other tasks and numbers the list from 1. *)
Lemma reorderTasks_in_range tasks taskId newPriority task :
  NoDup (List.map id tasks) ->
  In task tasks -> id task = taskId ->
  (1 <= newPriority <= Z.of_nat (List.length tasks))%Z ->
  let otherTasks :=
    List.filter (fun t => negb (jsstring_eqb (id t) taskId)) tasks in
  reorderTasks tasks taskId newPriority =
  renumber 1
    (take (Z.to_nat (newPriority - 1)) otherTasks ++
     task :: drop (Z.to_nat (newPriority - 1)) otherTasks).
Proof.
  intros Hnd Hin Hid Hrange otherTasks. unfold reorderTasks.
  destruct (findIndex_first tasks taskId Hnd task Hin Hid) as (i & -> & ->).
  fold otherTasks. apply reorder_loop_before.
  pose proof (others_length tasks taskId Hnd) as Hlen. fold otherTasks in Hlen.
  rewrite <- Hlen in Hrange; [lia|].
  apply in_map_iff. by exists task.
Qed.
End Reorder.

(** ** Confidence (confidenceScore.js) *)

Section Confidence.
Import ConfidenceScore.
Local Open Scope Q_scope.








End Confidence.



(** * Further properties *)

(** ** The message route and the service behind it *)

Section BlankStrings.

Lemma trimStart_nil_iff s : trimStart s = [] <-> forallb is_ws s = true.
Proof.
  induction s as [|c s IH]; simpl; [done|].
  destruct (is_ws c); simpl; [done|]. split; discriminate.
Qed.

Lemma forallb_rev {A} (p : A -> bool) (l : list A) :
  forallb p (rev l) = forallb p l.
Proof.
  induction l as [|x l IH]; simpl; [done|].
  rewrite forallb_app, IH. simpl. rewrite andb_true_r. apply andb_comm.
Qed.

(** A string trims to the empty string exactly when it is all white space. *)
Lemma trim_nil_iff s : trim s = [] <-> forallb is_ws s = true.
Proof.
  split.
  - intros H. unfold trim, trimEnd in H.
    apply (f_equal (@rev N)) in H. rewrite rev_involutive in H. simpl in H.
    apply trimStart_nil_iff in H. rewrite forallb_rev in H.
    apply trimStart_nil_iff.
    destruct (trimStart s) as [|c t] eqn:E; [done|].
    apply trimStart_head in E. simpl in H. by rewrite E in H.
  - intros H. unfold trim. apply trimStart_nil_iff in H. by rewrite H.
Qed.
End BlankStrings.

(** X1. The message route answers 400 [Content is required], and
    touches neither the store nor the LLM, when the content is missing, is
    not a string, or is a string of white space only. With any other content
    it answers 404 for a session that the store does not hold, again without
    touching anything; for a stored session it runs [processMessage] on the
    trimmed content and answers with its message, phase and flags, or throws
    what it throws. *)
Theorem sendMessage_content_required :
  forall env id content w,
    let answer := SessionRoutes.sendMessage env id content w in
    let rejected := (Throw (Errors.badRequest (js "Content is required")), w) in
    (is_string content = false -> answer = rejected) /\
    (forall text, content = Some (JStr text) ->
       if forallb is_ws text then answer = rejected
       else
         match sessions w !! id with
         | None =>
             answer = (Throw (Errors.notFound (js "Session not found")), w)
         | Some _ =>
             let run := SessionService.processMessage env id (trim text) w in
             answer.2 = run.2 /\
             match run.1 with
             | Throw e => answer.1 = Throw e
             | Ok result =>
                 answer.1 =
                 Ok {| SessionRoutes.message :=
                         SessionService.ProcessResult.message result;
                       SessionRoutes.phase :=
                         SessionService.ProcessResult.phase result;
                       SessionRoutes._meta :=
                         {| SessionRoutes.validationPassed :=
                              SessionService.ProcessResult.validationPassed result;
                            SessionRoutes.regenerated :=
                              SessionService.ProcessResult.regenerated result |} |}
             end
         end).
Proof.
  intros env id content w answer rejected. subst answer rejected. split.
  - unfold SessionRoutes.sendMessage.
    by destruct content as [[| | |text| |]|].
  - intros text ->. unfold SessionRoutes.sendMessage.
    destruct (forallb is_ws text) eqn:Hblank.
    + apply trim_nil_iff in Hblank. rewrite Hblank.
      by destruct text.
    + assert (Htrim : trim text <> []).
      { intros H. apply trim_nil_iff in H. congruence. }
      assert (Htext : text <> []) by (by intros ->).
      assert (Hok : truthy (Some (JStr (trim text))) = true)
        by (by destruct (trim text)).
      assert (Hok' : truthy (Some (JStr text)) = true) by (by destruct text).
      rewrite Hok, Hok'. cbn [is_string negb orb].
      unfold SessionService.getSession, SessionModel.findWithMessages.
      unfold mbind, M_bind, gets, mret, M_ret, throw.
      destruct (sessions w !! id) as [session|]; [|reflexivity].
      by destruct (SessionService.processMessage env id (trim text) w)
        as [[result|e] w'].
Qed.

Section FirstRequest.
Context (env : Env).
Import SessionService PhasePrompts Protocol.

(** The first request of [generatePhaseResponse] is the one for the history
    it is given. *)
Lemma generatePhaseResponse_first_request phase history attempt w :
  exists rest,
    llm_requests (generatePhaseResponse env phase history attempt w).2 =
    llm_requests w ++ phase_request env phase history :: rest.
Proof.
  rewrite generatePhaseResponse_attempt. cbv zeta.
  destruct (llm env (phase_request env phase history)) as [completion|e];
    [|by exists []].
  destruct phase; try (by exists []).
  destruct (violates _); [|by exists []].
  destruct (attempt <? MAX_ATTEMPTS)%nat; [|by exists []].
  destruct (generatePhaseResponse_effects env DUMP MAX_ATTEMPTS
              (history ++ [REMINDER]) (attempt + 1)%nat
              (add_requests w [phase_request env DUMP history]))
    as (new & Hw & _); [lia|].
  exists new. rewrite Hw. cbn. by rewrite <- app_assoc.
Qed.
End FirstRequest.

(** X2. When the store holds a message log for the session,
    [processMessage] sends the new user message to the LLM twice: the first
    request carries the system prompt of the phase, the old log, and then the
    user message once as read back from the stored log, which
    [addMessage] has just extended, and once more as appended by
    [processMessage] itself. *)
Theorem processMessage_repeats_user_message :
  forall env w sessionId userContent session old,
    sessions w !! sessionId = Some session ->
    messages w !! sessionId = Some old ->
    let u := {| ChatMessage.role := user; ChatMessage.content := userContent |} in
    exists first rest,
      llm_requests (SessionService.processMessage env sessionId userContent w).2 =
        llm_requests w ++ first :: rest /\
      ChatRequest.messages first =
        {| ChatMessage.role := system;
           ChatMessage.content :=
             PHASE_PROMPTS env (Session.current_phase session) |} ::
        List.map chat_of old ++ [u; u].
Proof.
  intros env w sessionId userContent session old Hs Hm u.
  destruct (addMessage_found env w sessionId user userContent
              (Session.current_phase session) session Hs)
    as (um & w1 & Hadd1 & Hrole & Hcontent & _ & _ & (s1 & Hs1 & _) & Hlog1 & Hreq1).
  rewrite (processMessage_unfold env w sessionId userContent session Hs).
  cbv zeta. rewrite Hadd1, Hm.
  unfold SessionModel.read_messages, gets. cbv beta iota.
  rewrite Hlog1, Hm. cbv [default from_option id].
  set (history := List.map _ (old ++ [um]) ++ _).
  destruct (generatePhaseResponse_first_request env
              (Session.current_phase session) history 1 w1) as [rest Hfirst].
  exists (Protocol.phase_request env (Session.current_phase session) history), rest.
  destruct (generatePhaseResponse_effects env
              (Session.current_phase session) 3 history 1 w1
              ltac:(cbn; lia)) as (new & Hw2 & _).
  split.
  - rewrite <- Hreq1.
    destruct (SessionService.generatePhaseResponse env
                (Session.current_phase session) history 1 w1)
      as [[response|e] w2]; cbn [fst snd] in Hfirst, Hw2; [|done].
    assert (Hs2 : sessions w2 !! sessionId = Some s1) by (by subst w2).
    destruct (addMessage_found env w2 sessionId assistant
                (SessionService.PhaseResponse.content response)
                (Session.current_phase session) s1 Hs2)
      as (am & w3 & Hadd2 & _ & _ & _ & _ & _ & _ & Hreq3).
    rewrite Hadd2. cbn [snd]. by rewrite Hreq3.
  - assert (Hid : forall l : list ChatMessage.t,
              List.map (fun msg => {| ChatMessage.role := ChatMessage.role msg;
                                      ChatMessage.content := ChatMessage.content msg |})
                l = l).
    { induction l as [|[] l IH]; cbn; congruence. }
    cbn. unfold PhasePrompts.buildPhaseMessages, PhasePrompts.getPhasePrompt.
    rewrite Hid. f_equal. unfold history.
    rewrite List.map_app, <- app_assoc. cbn. subst u.
    by rewrite Hrole, Hcontent.
Qed.

(** X2 (witness). The one stored session, its log empty. *)
Lemma processMessage_repeats_user_message_witness :
  let u := {| ChatMessage.role := user; ChatMessage.content := js "I feel stuck" |} in
  exists first rest,
    llm_requests
      (SessionService.processMessage (SampleEnv.env SampleEnv.silent)
         (js "uuid-0") (js "I feel stuck") SampleEnv.one_session).2 =
      llm_requests SampleEnv.one_session ++ first :: rest /\
    ChatRequest.messages first =
      {| ChatMessage.role := system;
         ChatMessage.content :=
           PHASE_PROMPTS (SampleEnv.env SampleEnv.silent)
             (Session.current_phase SampleEnv.first_session) |} ::
      List.map chat_of [] ++ [u; u].
Proof.
  apply (processMessage_repeats_user_message
           (SampleEnv.env SampleEnv.silent) SampleEnv.one_session
           (js "uuid-0") (js "I feel stuck") SampleEnv.first_session []).
  - vm_compute. reflexivity.
  - vm_compute. reflexivity.
Defined.

(** ** Advancing a session *)

Section Advance.
Context (env : Env).

Lemma canAdvance_successor p :
  SessionModel.canAdvance p = match successor p with Some _ => true | None => false end.
Proof. by destruct p. Qed.

Lemma service_advancePhase_unfold sessionId w :
  SessionService.advancePhase env sessionId w =
  match sessions w !! sessionId with
  | None => (Throw (Error (js "Session not found")), w)
  | Some session =>
      if negb (SessionModel.canAdvance (Session.current_phase session))
      then (Throw (Error (js "Cannot advance from current phase")), w)
      else SessionModel.advancePhase env sessionId w
  end.
Proof.
  unfold SessionService.advancePhase, SessionModel.findById.
  unfold mbind, M_bind, gets, throw.
  destruct (sessions w !! sessionId) as [session|]; [|done].
  by destruct (negb _).
Qed.

Lemma route_advancePhase_unfold id w :
  SessionController.advancePhase env id w =
  match sessions w !! id with
  | None => (Throw (Errors.notFound (js "Session not found")), w)
  | Some session =>
      if SessionModel.Phase_eqb (Session.current_phase session) DUMP
      then (Throw (Errors.badRequest
              (js "Phase 2 (CLARITY) is not yet implemented. Stay in the dump phase for now.")),
            w)
      else
        match SessionService.advancePhase env id w with
        | (Ok (Some updated), w') =>
            (Ok {| SessionController.id := Session.id updated;
                   SessionController.previousPhase := Session.current_phase session;
                   SessionController.currentPhase := Session.current_phase updated |},
             w')
        | (Ok None, w') =>
            (Throw (Errors.badRequest (js "Cannot advance from current phase")), w')
        | (Throw e, w') => (Throw e, w')
        end
  end.
Proof.
  unfold SessionController.advancePhase, SessionService.getSession,
    SessionModel.findWithMessages.
  unfold mbind, M_bind, gets, throw, mret, M_ret.
  destruct (sessions w !! id) as [session|]; [|done].
  destruct (SessionModel.Phase_eqb _ _); [done|].
  by destruct (SessionService.advancePhase env id w) as [[[s|]|e] w'].
Qed.
End Advance.

(** What the service's [advancePhase] does, by the session and its phase. *)
Lemma service_advancePhase_cases env sessionId w :
  let run := SessionService.advancePhase env sessionId w in
  match sessions w !! sessionId with
  | None => run = (Throw (Error (js "Session not found")), w)
  | Some session =>
      match successor (Session.current_phase session) with
      | None => run = (Throw (Error (js "Cannot advance from current phase")), w)
      | Some next =>
          exists updated,
            run.1 = Ok (Some updated) /\
            sessions run.2 !! sessionId = Some updated /\
            Session.current_phase updated = next /\
            Session.id updated = Session.id session /\
            Session.user_id updated = Session.user_id session /\
            Session.created_at updated = Session.created_at session
      end
  end.
Proof.
  intros run. subst run. rewrite service_advancePhase_unfold.
  destruct (sessions w !! sessionId) as [session|] eqn:Hs; [|done].
  rewrite canAdvance_successor.
  unfold SessionModel.advancePhase, mbind, M_bind, gets. rewrite Hs.
  destruct session as [i u p c t]. cbn [Session.current_phase].
  destruct p; cbn; try done;
    (eexists; split; [reflexivity|]; split; [apply lookup_insert_eq|done]).
Qed.

(** X3. The service's [advancePhase] never returns [null]. For an unknown
    session it throws [Session not found]; for a session in the last phase it
    throws [Cannot advance from current phase]; both leave the world as it
    was. In any other phase it stores and returns the session moved to the
    next phase, its identifier, user and creation time unchanged. *)
Theorem advancePhase_never_null :
  forall env sessionId w,
    let run := SessionService.advancePhase env sessionId w in
    run.1 <> Ok None /\
    match sessions w !! sessionId with
    | None => run = (Throw (Error (js "Session not found")), w)
    | Some session =>
        match successor (Session.current_phase session) with
        | None => run = (Throw (Error (js "Cannot advance from current phase")), w)
        | Some next =>
            exists updated,
              run.1 = Ok (Some updated) /\
              sessions run.2 !! sessionId = Some updated /\
              Session.current_phase updated = next /\
              Session.id updated = Session.id session /\
              Session.user_id updated = Session.user_id session /\
              Session.created_at updated = Session.created_at session
        end
    end.
Proof.
  intros env sessionId w run.
  pose proof (service_advancePhase_cases env sessionId w) as Hcases.
  fold run in Hcases. cbv zeta in Hcases. split; [|exact Hcases].
  destruct (sessions w !! sessionId) as [session|].
  - destruct (successor (Session.current_phase session)).
    + destruct Hcases as (updated & -> & _). done.
    + by rewrite Hcases.
  - by rewrite Hcases.
Qed.

(** X4. The advance route has four outcomes: 404 for an unknown
    session; the 400 of the phase that is not implemented for a session in
    DUMP; the service's plain error, which carries no status code, for a
    session in the last phase; and otherwise the identifier with the old and
    the new phase. The first three leave the world as it was, and the
    route's own 400 [Cannot advance from current phase] is never thrown. *)
Theorem advance_route_outcomes :
  forall env id w,
    let run := SessionController.advancePhase env id w in
    run.1 <> Throw (Errors.badRequest (js "Cannot advance from current phase")) /\
    match sessions w !! id with
    | None => run = (Throw (Errors.notFound (js "Session not found")), w)
    | Some session =>
        match Session.current_phase session with
        | DUMP =>
            run = (Throw (Errors.badRequest
                     (js "Phase 2 (CLARITY) is not yet implemented. Stay in the dump phase for now.")),
                   w)
        | EXECUTION =>
            run = (Throw (Error (js "Cannot advance from current phase")), w)
        | previous =>
            exists updated,
              sessions run.2 !! id = Some updated /\
              successor previous = Some (Session.current_phase updated) /\
              run.1 = Ok {| SessionController.id := Session.id session;
                            SessionController.previousPhase := previous;
                            SessionController.currentPhase :=
                              Session.current_phase updated |}
        end
    end.
Proof.
  intros env id w run. subst run.
  rewrite route_advancePhase_unfold.
  destruct (sessions w !! id) as [session|] eqn:Hs; [|by split].
  pose proof (service_advancePhase_cases env id w) as Hadv.
  cbv zeta in Hadv. rewrite Hs in Hadv.
  destruct session as [i u p c t]. cbn [Session.current_phase] in *.
  destruct p; cbn [SessionModel.Phase_eqb successor] in *;
    try (by split);
    try (rewrite Hadv; by split);
    destruct Hadv as (updated & Hrun & Hstored & Hp & Hi & _);
    destruct (SessionService.advancePhase env id w) as [[[s|]|e] w'];
    cbn [fst snd] in *; try done;
    injection Hrun as ->;
    (split; [done|]); exists updated; cbn in Hi; by rewrite Hp, Hi.
Qed.

(** ** Invariants of the session store *)

Section StoreInvariants.
Context (env : Env).
Import SessionModel.

Lemma addMessage_unfold sessionId role content phase w :
  addMessage env sessionId role content phase w =
  match sessions w !! sessionId with
  | None => (Ok None, w)
  | Some session =>
      let message :=
        {| Message.id := randomUUID_at env (uuids_drawn w);
           Message.session_id := sessionId;
           Message.role := role; Message.content := content;
           Message.phase := phase;
           Message.created_at := toISOString_at env (clock_reads w) |} in
      (Ok (Some message),
       {| sessions :=
            <[sessionId :=
                {| Session.id := Session.id session;
                   Session.user_id := Session.user_id session;
                   Session.current_phase := Session.current_phase session;
                   Session.created_at := Session.created_at session;
                   Session.updated_at := toISOString_at env (S (clock_reads w)) |}]>
              (sessions w);
          messages :=
            <[sessionId := default [] (messages w !! sessionId) ++ [message]]>
              (messages w);
          uuids_drawn := S (uuids_drawn w);
          clock_reads := S (S (clock_reads w));
          llm_requests := llm_requests w |})
  end.
Proof.
  unfold addMessage. run_model. by destruct (sessions w !! sessionId).
Qed.

Lemma advancePhase_messages sessionId w :
  messages (advancePhase env sessionId w).2 = messages w.
Proof.
  unfold advancePhase. run_model.
  destruct (sessions w !! sessionId) as [[i u p c t]|]; [|done].
  by destruct p.
Qed.

Lemma advancePhase_sessions sessionId w k :
  sessions (advancePhase env sessionId w).2 !! k = sessions w !! k \/
  exists session updated,
    k = sessionId /\
    sessions w !! k = Some session /\
    sessions (advancePhase env sessionId w).2 !! k = Some updated /\
    Session.id updated = Session.id session.
Proof.
  unfold advancePhase. run_model.
  destruct (sessions w !! sessionId) as [[i u p c t]|] eqn:Hs; [|by left].
  destruct p; cbn; try (by left);
    (destruct (decide (k = sessionId)) as [->|Hne];
     [right; eexists _, _; split; [done|]; split; [exact Hs|];
      split; [apply lookup_insert_eq|done]
     |left; apply lookup_insert_ne; congruence]).
Qed.

Lemma store_step_consistent w w' :
  store_step env w w' -> store_consistent w -> store_consistent w'.
Proof.
  intros Hstep [Hids Hlogs].
  destruct Hstep as [userId Hfresh|sid role content phase|sid].
  - unfold store_consistent, create. run_model. split.
    + intros k session. destruct (decide (k = randomUUID_at env (uuids_drawn w)))
        as [->|Hne].
      * rewrite lookup_insert_eq. by intros [= <-].
      * rewrite lookup_insert_ne by done. apply Hids.
    + intros k log. destruct (decide (k = randomUUID_at env (uuids_drawn w)))
        as [->|Hne].
      * rewrite !lookup_insert_eq. intros [= <-]. by split.
      * rewrite !lookup_insert_ne by done. apply Hlogs.
  - rewrite addMessage_unfold.
    destruct (sessions w !! sid) as [session|] eqn:Hs; [|done].
    unfold store_consistent. cbn [snd sessions messages]. split.
    + intros k s. destruct (decide (k = sid)) as [->|Hne].
      * rewrite lookup_insert_eq. intros [= <-]. cbn. by apply Hids.
      * rewrite lookup_insert_ne by done. apply Hids.
    + intros k log. destruct (decide (k = sid)) as [->|Hne].
      * rewrite !lookup_insert_eq. intros [= <-]. split; [done|].
        apply Forall_app. split; [|by repeat constructor].
        destruct (messages w !! sid) as [old|] eqn:Hold; [|constructor].
        by apply (Hlogs sid old).
      * rewrite !lookup_insert_ne by done. apply Hlogs.
  - split.
    + intros k s Hk.
      destruct (advancePhase_sessions sid w k)
        as [Hsame|(session & updated & -> & Hold & Hnew & Hid)].
      * apply Hids. by rewrite <- Hsame.
      * replace s with updated by congruence. rewrite Hid. by apply Hids.
    + intros k log. rewrite advancePhase_messages. intros Hk.
      destruct (Hlogs k log Hk) as [[s Hs] Hall]. split; [|done].
      destruct (advancePhase_sessions sid w k)
        as [Hsame|(session & updated & -> & Hold & Hnew & Hid)].
      * rewrite Hsame. by exists s.
      * by exists updated.
Qed.

Lemma store_step_append_only w w' k log :
  store_step env w w' -> store_consistent w ->
  messages w !! k = Some log ->
  exists more, messages w' !! k = Some (log ++ more).
Proof.
  intros Hstep [Hids Hlogs] Hk.
  destruct Hstep as [userId Hfresh|sid role content phase|sid].
  - exists []. rewrite app_nil_r. unfold create. run_model.
    rewrite lookup_insert_ne; [done|]. intros <-.
    destruct (Hlogs _ log Hk) as [[s Hs] _]. congruence.
  - rewrite addMessage_unfold.
    destruct (sessions w !! sid) as [session|] eqn:Hs;
      [|exists []; by rewrite app_nil_r].
    cbn. destruct (decide (k = sid)) as [->|Hne].
    + rewrite lookup_insert_eq, Hk. by eexists.
    + rewrite lookup_insert_ne by done. exists []. by rewrite app_nil_r.
  - rewrite advancePhase_messages. exists []. by rewrite app_nil_r.
Qed.
End StoreInvariants.

(** X5. Over any sequence of create, addMessage and advancePhase
    operations the store stays consistent: every session is stored under its
    own identifier, every message log belongs to a stored session, and every
    message of a log carries the identifier of that session. *)
Theorem store_stays_consistent :
  forall env w w',
    store_consistent w ->
    rtc (store_step env) w w' ->
    store_consistent w'.
Proof.
  intros env w w' Hw Hsteps. induction Hsteps as [w|w w1 w2 Hstep _ IH]; [done|].
  apply IH. by apply (store_step_consistent env w).
Qed.

(** X6. Message logs only grow: over any sequence of create, addMessage
    and advancePhase operations that starts in a consistent store, with
    [create] drawing identifiers that no stored session has, the log of a
    session keeps every message it held, in place, and new messages come
    after them. *)
Theorem message_log_append_only :
  forall env w w' k log,
    store_consistent w ->
    rtc (store_step env) w w' ->
    messages w !! k = Some log ->
    exists more, messages w' !! k = Some (log ++ more).
Proof.
  intros env w w' k log Hw Hsteps. revert log.
  induction Hsteps as [w|w w1 w2 Hstep _ IH]; intros log Hk.
  - exists []. by rewrite app_nil_r.
  - destruct (store_step_append_only env w w1 k log Hstep Hw Hk) as [m1 H1].
    destruct (IH (store_step_consistent env w w1 Hstep Hw) _ H1) as [m2 H2].
    exists (m1 ++ m2). by rewrite app_assoc.
Qed.

Lemma empty_world_consistent : store_consistent SampleEnv.empty_world.
Proof. split; intros k x H; cbn in H; by rewrite lookup_empty in H. Qed.

Lemma one_session_consistent : store_consistent SampleEnv.one_session.
Proof.
  apply (store_step_consistent (SampleEnv.env SampleEnv.silent)
           SampleEnv.empty_world); [|exact empty_world_consistent].
  exact (step_create _ SampleEnv.empty_world None (lookup_empty _)).
Qed.

(** The two operations that lead from the one-session world to the later
    world. *)
Lemma one_session_later :
  rtc (store_step (SampleEnv.env SampleEnv.silent))
    SampleEnv.one_session SampleEnv.later_world.
Proof.
  eapply rtc_l;
    [exact (step_addMessage _ SampleEnv.one_session (js "uuid-0") user
              (js "I feel stuck") DUMP)|].
  apply rtc_once.
  exact (step_advancePhase _
           (SessionModel.addMessage (SampleEnv.env SampleEnv.silent)
              (js "uuid-0") user (js "I feel stuck") DUMP
              SampleEnv.one_session).2
           (js "uuid-0")).
Qed.

(** X5 (witness). From the one-session world to the later world. *)
Lemma store_stays_consistent_witness : store_consistent SampleEnv.later_world.
Proof.
  apply (store_stays_consistent (SampleEnv.env SampleEnv.silent)
           SampleEnv.one_session SampleEnv.later_world).
  - exact one_session_consistent.
  - exact one_session_later.
Defined.

(** X6 (witness). The empty log of the one stored session. *)
Lemma message_log_append_only_witness :
  exists more,
    messages SampleEnv.later_world !! js "uuid-0" = Some ([] ++ more).
Proof.
  apply (message_log_append_only (SampleEnv.env SampleEnv.silent)
           SampleEnv.one_session SampleEnv.later_world (js "uuid-0") []).
  - exact one_session_consistent.
  - exact one_session_later.
  - vm_compute. reflexivity.
Defined.

(** ** Blank replies *)

(** X7. In the DUMP phase a completion without content, or with white
    space only, fails the length check. With an LLM that answers every
    request that way, [generatePhaseResponse] sends three requests, the
    second and the third with one and two reminders, and returns the empty
    content flagged as failed and regenerated, with an empty list of
    violations. *)
Theorem blank_reply_never_passes :
  forall env history w,
    (forall request, exists completion,
       llm env request = Resolved completion /\ blank completion = true) ->
    SessionService.generatePhaseResponse env DUMP history 1 w =
    (Ok {| SessionService.PhaseResponse.content := [];
           SessionService.PhaseResponse.validationPassed := false;
           SessionService.PhaseResponse.regenerated := true;
           SessionService.PhaseResponse.violations := Some [] |},
     Protocol.add_requests w
       [Protocol.attempt_request env history 0;
        Protocol.attempt_request env history 1;
        Protocol.attempt_request env history 2]).
Proof.
  intros env history w Hllm.
  assert (Hcontent : forall request,
            exists completion,
              llm env request = Resolved completion /\
              Protocol.reply_content (Resolved completion) = []).
  { intros request. destruct (Hllm request) as (completion & Hr & Hb).
    exists completion. split; [done|].
    destruct completion as [c|]; [|done]. by apply trim_nil_iff. }
  assert (Hstep : forall h attempt w0,
            SessionService.generatePhaseResponse env DUMP h attempt w0 =
            if (attempt <? SessionService.MAX_ATTEMPTS)%nat then
              SessionService.generatePhaseResponse env DUMP
                (h ++ [SessionService.REMINDER]) (attempt + 1)
                (Protocol.add_requests w0 [Protocol.phase_request env DUMP h])
            else
              (Ok {| SessionService.PhaseResponse.content := [];
                     SessionService.PhaseResponse.validationPassed := false;
                     SessionService.PhaseResponse.regenerated := (1 <? attempt)%nat;
                     SessionService.PhaseResponse.violations := Some [] |},
               Protocol.add_requests w0 [Protocol.phase_request env DUMP h])).
  { intros h attempt w0. rewrite generatePhaseResponse_attempt. cbv zeta.
    destruct (Hcontent (Protocol.phase_request env DUMP h))
      as (completion & -> & ->).
    replace (Protocol.violates []) with true by (by vm_compute).
    by replace (SessionService.violations
                  (SessionService.checkDumpPhaseViolations []))
      with (@nil SessionService.Violation) by (by vm_compute). }
  rewrite Hstep. cbn [Nat.ltb Nat.leb SessionService.MAX_ATTEMPTS Nat.add].
  rewrite Hstep. cbn [Nat.ltb Nat.leb SessionService.MAX_ATTEMPTS Nat.add].
  rewrite Hstep. cbn [Nat.ltb Nat.leb SessionService.MAX_ATTEMPTS Nat.add].
  rewrite !add_requests_app. cbn [app].
  unfold Protocol.attempt_request, Protocol.retry_history. cbn [List.repeat].
  by rewrite app_nil_r, <- app_assoc.
Qed.

(** X7 (witness). The LLM that resolves without content. *)
Lemma blank_reply_never_passes_witness :
  SessionService.generatePhaseResponse (SampleEnv.env SampleEnv.silent) DUMP
    [] 1 SampleEnv.empty_world =
  (Ok {| SessionService.PhaseResponse.content := [];
         SessionService.PhaseResponse.validationPassed := false;
         SessionService.PhaseResponse.regenerated := true;
         SessionService.PhaseResponse.violations := Some [] |},
   Protocol.add_requests SampleEnv.empty_world
     [Protocol.attempt_request (SampleEnv.env SampleEnv.silent) [] 0;
      Protocol.attempt_request (SampleEnv.env SampleEnv.silent) [] 1;
      Protocol.attempt_request (SampleEnv.env SampleEnv.silent) [] 2]).
Proof.
  apply (blank_reply_never_passes (SampleEnv.env SampleEnv.silent) []
           SampleEnv.empty_world).
  intros request. exists None. split; reflexivity.
Defined.

(** ** The forbidden-content check *)

Section Violations.
Import RegExp SessionService.

Lemma first_match_cases category patterns response :
  (first_match category patterns response = [] /\
   forall p, In p patterns -> test (re p) response = false) \/
  (exists p,
     In p patterns /\ test (re p) response = true /\
     first_match category patterns response =
       [{| SessionService.category := category; pattern := source p |}]).
Proof.
  induction patterns as [|p patterns IH]; simpl.
  - left. by split.
  - destruct (test (re p) response) eqn:Hp.
    + right. exists p. by repeat split; [left|..].
    + destruct IH as [[Hnil Hall]|(q & Hq & Ht & Hm)].
      * left. split; [done|]. by intros q [<-|Hq]; [|apply Hall].
      * right. exists q. by repeat split; [right|..].
Qed.

(** The check over any table of categories. *)
Lemma violations_table (table : list (Category * list Pattern)) response :
  let found :=
    List.concat
      (List.map (fun '(category, patterns) =>
                   first_match category patterns response) table) in
  sublist (List.map SessionService.category found) (List.map fst table) /\
  (forall v, In v found ->
     exists patterns p,
       In (SessionService.category v, patterns) table /\ In p patterns /\
       pattern v = source p /\ test (re p) response = true) /\
  (found = [] ->
   forall category patterns p,
     In (category, patterns) table -> In p patterns ->
     test (re p) response = false).
Proof.
  induction table as [|[category patterns] table (IHs & IHv & IHn)]; simpl.
  - repeat split; [constructor|done|done].
  - destruct (first_match_cases category patterns response)
      as [[-> Hall]|(p & Hp & Ht & ->)]; simpl.
    + split; [by apply sublist_cons|]. split.
      * intros v Hv. destruct (IHv v Hv) as (ps & q & Hin & ?).
        exists ps, q. by split; [right|].
      * intros Hnil c ps q [[= <- <-]|Hin] Hq; [by apply Hall|].
        by apply (IHn Hnil c ps).
    + split; [by apply sublist_skip|]. split; [|done].
      intros v [<-|Hv].
      * exists patterns, p. by repeat split; [left|..].
      * destruct (IHv v Hv) as (ps & q & Hin & ?).
        exists ps, q. by split; [right|].
Qed.
End Violations.

(** X8. [checkDumpPhaseViolations] reports at most one violation for each
    category, in the order questions, advice, structure, nextSteps. Every
    reported violation names a pattern of its category that matches the
    response, and the check reports none exactly when no pattern of any
    category matches. *)
Theorem checkDumpPhaseViolations_one_per_category :
  forall response,
    let check := SessionService.checkDumpPhaseViolations response in
    sublist
      (List.map SessionService.category (SessionService.violations check))
      [SessionService.questions; SessionService.advice;
       SessionService.structure; SessionService.nextSteps] /\
    (forall v, In v (SessionService.violations check) ->
       exists patterns p,
         In (SessionService.category v, patterns)
            SessionService.DUMP_PHASE_VIOLATIONS /\
         In p patterns /\
         SessionService.pattern v = SessionService.source p /\
         RegExp.test (SessionService.re p) response = true) /\
    (SessionService.hasViolations check = false <->
     forall category patterns p,
       In (category, patterns) SessionService.DUMP_PHASE_VIOLATIONS ->
       In p patterns ->
       RegExp.test (SessionService.re p) response = false).
Proof.
  intros response check. subst check.
  destruct (violations_table SessionService.DUMP_PHASE_VIOLATIONS response)
    as (Hs & Hv & Hn).
  unfold SessionService.checkDumpPhaseViolations.
  cbn [SessionService.violations SessionService.hasViolations].
  split; [exact Hs|]. split; [exact Hv|]. split.
  - intros Hnone. apply Hn.
    destruct (List.concat _); [done|discriminate].
  - intros Hall.
    destruct (List.concat _) as [|v found] eqn:E; [done|].
    destruct (Hv v (or_introl eq_refl)) as (ps & p & Hin & Hp & _ & Ht).
    by rewrite (Hall _ ps p Hin Hp) in Ht.
Qed.

(** ** Counting the lines of a reply (sessionService.js) *)

Section Lines.

Lemma split_on_plain sep s : ~ In sep s -> split_on sep s = [s].
Proof.
  induction s as [|c s IH]; intros Hs; [done|]. cbn [split_on].
  destruct (N.eqb_spec c sep) as [->|_]; [exfalso; apply Hs; by left|].
  rewrite IH; [done|]. intros H. apply Hs. by right.
Qed.

Lemma split_on_app sep p s :
  ~ In sep p -> split_on sep (p ++ sep :: s) = p :: split_on sep s.
Proof.
  induction p as [|c p IH]; intros Hp.
  - cbn. by rewrite N.eqb_refl.
  - cbn [app split_on].
    destruct (N.eqb_spec c sep) as [->|_]; [exfalso; apply Hp; by left|].
    rewrite IH; [done|]. intros H. apply Hp. by right.
Qed.

(** Splitting what was joined gives the parts back. *)
Lemma split_on_join sep parts :
  parts <> [] -> Forall (fun p => ~ In sep p) parts ->
  split_on sep (join [sep] parts) = parts.
Proof.
  induction parts as [|p parts IH]; intros Hne Hall; [done|].
  apply Forall_cons in Hall as [Hp Hall]. destruct parts as [|q parts].
  - cbn. by apply split_on_plain.
  - change (join [sep] (p :: q :: parts))
      with (p ++ sep :: join [sep] (q :: parts)).
    rewrite split_on_app by done. f_equal. by apply IH.
Qed.
End Lines.

(** X9. For a trimmed reply made of lines that all hold a visible code
    unit, [checkResponseLength] counts the lines, and the reply is valid
    exactly when there are six of them at most. *)
Theorem checkResponseLength_counts_lines :
  forall lines,
    lines <> [] ->
    Forall (fun l => ~ In 10 l /\ trim l <> []) lines ->
    trimmed (join [10] lines) ->
    let check := SessionService.checkResponseLength (join [10] lines) in
    SessionService.lineCount check = List.length lines /\
    SessionService.isValid check = (List.length lines <=? 6)%nat.
Proof.
  intros lines Hne Hall Htrimmed check. subst check.
  unfold SessionService.checkResponseLength.
  cbn [SessionService.lineCount SessionService.isValid].
  rewrite (trim_of_trimmed _ Htrimmed).
  rewrite split_on_join; [|done|by eapply Forall_impl; [exact Hall|intros ? []]].
  assert (Hkeep :
    List.filter
      (fun l => match trim l with [] => false | _ :: _ => true end) lines = lines).
  { apply forallb_filter_id, forallb_forall. intros l Hl.
    rewrite Forall_forall in Hall.
    destruct (Hall l (proj2 (list_elem_of_In _ _) Hl)) as [_ Hvisible].
    by destruct (trim l). }
  rewrite Hkeep. split; [done|].
  destruct lines as [|l lines]; [done|]. done.
Qed.

(** X9 (witness). The reply of seven plain lines. *)
Lemma checkResponseLength_counts_lines_witness :
  let lines :=
    [js "That sounds heavy."; js "So much sits on you."; js "It makes sense.";
     js "Nothing here feels simple."; js "You carry a lot.";
     js "It all feels loud."; js "There is room for it."] in
  let check := SessionService.checkResponseLength (join [10] lines) in
  SessionService.lineCount check = List.length lines /\
  SessionService.isValid check = (List.length lines <=? 6)%nat.
Proof.
  apply (checkResponseLength_counts_lines
           [js "That sounds heavy."; js "So much sits on you.";
            js "It makes sense."; js "Nothing here feels simple.";
            js "You carry a lot."; js "It all feels loud.";
            js "There is room for it."]).
  - done.
  - repeat constructor; try (by vm_compute); vm_compute; intuition discriminate.
  - split; by vm_compute.
Defined.

(** ** What the validation accepts (responseParser.js) *)

(** A reply with an error message is not accepted. *)
Ltac refused :=
  cbn [app isArray negb orb];
  match goal with
  | |- obind ?m _ = _ -> _ => by destruct m
  end.

Section Acceptance.
Import ResponseParser.

Lemma task_errors_nil task index :
  task_errors task index = Ok [] <->
  exists declared, as_declared task = Some declared /\ acceptable_task declared.
Proof.
  unfold task_errors, as_declared, acceptable_task.
  destruct task as [| | | | |props];
    cbn [get obind truthy is_string is_number negb orb app];
    try (split; [done|by intros (? & ? & _)]).
  destruct (assoc (js "title") props) as [[|[|]| |[|c t]| |]|],
           (assoc (js "priority") props) as [[| |p| | |]|];
    cbn [truthy is_string is_number negb orb app];
    rewrite ?orb_true_r; cbn [app];
    try (split; [done|by intros (? & ? & _)]);
    try (split; [done|intros (? & [= <-] & Ht & _); by destruct Ht]).
  unfold Qltb. split.
  - destruct (Qle_bool 1 p) eqn:Hp; [|done]. intros _.
    eexists. split; [done|]. cbn. split; [done|]. by apply Qle_bool_iff.
  - intros (declared & [= <-] & Ht & Hp). cbn in Ht, Hp.
    apply Qle_bool_iff in Hp. by rewrite Hp.
Qed.

Lemma tasks_errors_nil items index :
  tasks_errors items index = Ok [] <->
  exists declared,
    all_declared items = Some declared /\ Forall acceptable_task declared.
Proof.
  revert index. induction items as [|task items IH]; intros index;
    cbn [tasks_errors all_declared].
  - split; [by exists []|done].
  - split.
    + destruct (task_errors task index) as [e|] eqn:He; [|done].
      destruct (tasks_errors items (S index)) as [es|] eqn:Hes; [|done].
      cbn [obind]. intros [= H]. apply app_eq_nil in H as [-> ->].
      apply task_errors_nil in He as (d & -> & Hd).
      apply IH in Hes as (ds & -> & Hds).
      exists (d :: ds). split; [done|]. by constructor.
    + intros (declared & Hall & Hacc).
      destruct (as_declared task) as [d|] eqn:Hd; [|done].
      destruct (all_declared items) as [ds|] eqn:Hds; [|done].
      injection Hall as <-. apply Forall_cons in Hacc as [Hd' Hds'].
      replace (task_errors task index) with (Ok (@nil jsstring))
        by (symmetry; apply task_errors_nil; by exists d).
      replace (tasks_errors items (S index)) with (Ok (@nil jsstring))
        by (symmetry; apply IH; by exists ds).
      done.
Qed.

Lemma nonempty_string v :
  negb (truthy v) || negb (is_string v) = false ->
  exists s, v = Some (JStr s) /\ s <> [].
Proof.
  destruct v as [[|[|]|q|[|c s]| |]|]; cbn; try done;
    [by destruct (Qeq_bool q 0)|].
  intros _. by eexists.
Qed.

Lemma length_Qltb n : (n <= 5)%nat -> Qltb 5 (inject_Z (Z.of_nat n)) = false.
Proof.
  intros H. unfold Qltb. apply negb_false_iff, Qle_bool_iff.
  change 5%Q with (inject_Z 5). rewrite <- Zle_Qle. lia.
Qed.
End Acceptance.

(** [validateDecisionStructure] accepts a reply exactly when its
    [decision] and its [reasoning] are strings that are not empty and its
    [tasks] are an array of one to five objects, each with a string [title]
    that is not empty and a number [priority] of at least 1; it then returns
    the trimmed decision and reasoning with the normalized tasks. *)
Lemma validateDecisionStructure_iff :
  forall data v,
    ResponseParser.validateDecisionStructure data = Ok v <->
    exists d r declared,
      get data (js "decision") = Ok (Some (JStr d)) /\ d <> [] /\
      get data (js "reasoning") = Ok (Some (JStr r)) /\ r <> [] /\
      declared_tasks data = Some declared /\
      (1 <= List.length declared <= 5)%nat /\
      Forall acceptable_task declared /\
      v = {| ResponseParser.decision := trim d;
             ResponseParser.reasoning := trim r;
             ResponseParser.tasks := ResponseParser.normalizeTasks declared |}.
Proof.
  intros data v. unfold ResponseParser.validateDecisionStructure, declared_tasks.
  destruct (get data (js "decision")) as [d|];
    [|split; [done|by intros (? & ? & ? & ? & _)]].
  destruct (get data (js "reasoning")) as [r|];
    [|split; [done|by intros (? & ? & ? & _ & _ & ? & _)]].
  destruct (get data (js "tasks")) as [ts|];
    [|split; [done|by intros (? & ? & ? & _ & _ & _ & _ & ? & _)]].
  cbn [obind]. split.
  - destruct (negb (truthy d) || negb (is_string d)) eqn:Hd; [refused|].
    destruct (negb (truthy r) || negb (is_string r)) eqn:Hr; [refused|].
    apply nonempty_string in Hd as (d' & -> & Hd).
    apply nonempty_string in Hr as (r' & -> & Hr).
    destruct ts as [[| | | |items|]|]; try refused.
    cbn [isArray negb orb length_of truthy andb].
    destruct (Qeq_bool _ 0) eqn:Hne; [refused|].
    destruct (ResponseParser.Qltb 5 _) eqn:Hle; [refused|].
    destruct (ResponseParser.tasks_errors items 0) as [[|e es]|] eqn:He;
      cbn [obind app]; [|done|done].
    apply tasks_errors_nil in He as (declared & Hall & Hacc).
    rewrite Hall. intros [= <-].
    exists d', r', declared. repeat split; try done.
    + rewrite (all_declared_length _ _ Hall). by apply Qeq_length.
    + rewrite (all_declared_length _ _ Hall). by apply Qltb_length.
  - intros (d' & r' & declared & [= ->] & Hd & [= ->] & Hr & Hts & Hlen & Hacc & ->).
    destruct ts as [[| | | |items|]|]; try done.
    pose proof (all_declared_length _ _ Hts) as Hitems.
    assert (Herrors : ResponseParser.tasks_errors items 0 = Ok [])
      by (apply tasks_errors_nil; by exists declared).
    rewrite Herrors, Hts. cbn [obind].
    destruct d' as [|c d]; [done|]. destruct r' as [|c' r]; [done|].
    cbn [truthy is_string isArray negb orb length_of andb].
    rewrite length_Qltb by lia.
    replace (Qeq_bool (inject_Z (Z.of_nat (List.length items))) 0) with false;
      [done|].
    symmetry. destruct items; [cbn in Hitems; lia|done].
Qed.


(** X11. In every reply that [parseDecisionResponse] accepts, the
    decision and the reasoning are trimmed and the reasoning includes the
    alignment question. When the trimmed reasoning of the reply includes
    the question, it is returned as it is; otherwise one closing full stop,
    exclamation mark or question mark is dropped and the question is
    appended after a full stop and a space, so that the reasoning ends with
    it. *)
Theorem parseDecisionResponse_holds_question :
  forall (JSON_parse : jsstring -> option JSON) rawResponse d,
    ResponseParser.parseDecisionResponse JSON_parse rawResponse = Ok d ->
    includes (ResponseParser.reasoning d) ResponseParser.ALIGNMENT_SUFFIX = true /\
    trimmed (ResponseParser.reasoning d) /\
    trimmed (ResponseParser.decision d) /\
    exists data r,
      JSON_parse rawResponse = Some data /\
      get data (js "reasoning") = Ok (Some (JStr r)) /\
      if includes (trim r) ResponseParser.ALIGNMENT_SUFFIX
      then ResponseParser.reasoning d = trim r
      else
        ResponseParser.reasoning d =
          trim (ResponseParser.strip_trailing_punct (trim r)) ++ js ". " ++
          ResponseParser.ALIGNMENT_SUFFIX /\
        endsWith (ResponseParser.reasoning d) ResponseParser.ALIGNMENT_SUFFIX
          = true.
Proof.
  intros JSON_parse rawResponse d. unfold ResponseParser.parseDecisionResponse.
  destruct (JSON_parse rawResponse) as [data|]; [|done].
  destruct (ResponseParser.validateDecisionStructure data) as [v|] eqn:Hv;
    [|done].
  cbn [obind]. intros [= <-].
  apply validateDecisionStructure_iff in Hv
    as (d0 & r & declared & _ & _ & Hr & _ & _ & _ & _ & ->).
  cbn [ResponseParser.reasoning ResponseParser.decision].
  split; [|split; [|split]].
  - destruct (includes (trim r) ResponseParser.ALIGNMENT_SUFFIX) eqn:E.
    + by rewrite ensureAlignmentQuestion_present.
    + rewrite ensureAlignmentQuestion_absent by done.
      rewrite app_assoc. apply includes_suffix.
  - apply ensureAlignmentQuestion_trimmed, trim_trimmed.
  - apply trim_trimmed.
  - exists data, r. split; [done|]. split; [done|].
    destruct (includes (trim r) ResponseParser.ALIGNMENT_SUFFIX) eqn:E.
    + by apply ensureAlignmentQuestion_present.
    + split; [by apply ensureAlignmentQuestion_absent|].
      by apply ensureAlignmentQuestion_appended.
Qed.

(** X11 (witness). The reply whose reasoning is [Focus on X]. *)
Lemma parseDecisionResponse_holds_question_witness :
  let d :=
    {| ResponseParser.decision := js "Ship the onboarding flow";
       ResponseParser.reasoning :=
         js "Focus on X. Are we aligned, or should we challenge this before moving on?";
       ResponseParser.tasks :=
         [{| ResponseParser.title := js "A"; ResponseParser.priority := 1 |};
          {| ResponseParser.title := js "B"; ResponseParser.priority := 2 |}] |} in
  includes (ResponseParser.reasoning d) ResponseParser.ALIGNMENT_SUFFIX = true /\
  trimmed (ResponseParser.reasoning d) /\
  trimmed (ResponseParser.decision d) /\
  exists data r,
    Some Samples.fractional_reply = Some data /\
    get data (js "reasoning") = Ok (Some (JStr r)) /\
    if includes (trim r) ResponseParser.ALIGNMENT_SUFFIX
    then ResponseParser.reasoning d = trim r
    else
      ResponseParser.reasoning d =
        trim (ResponseParser.strip_trailing_punct (trim r)) ++ js ". " ++
        ResponseParser.ALIGNMENT_SUFFIX /\
      endsWith (ResponseParser.reasoning d) ResponseParser.ALIGNMENT_SUFFIX
        = true.
Proof.
  apply (parseDecisionResponse_holds_question
           (fun _ => Some Samples.fractional_reply) []).
  vm_compute. reflexivity.
Defined.

(** ** The decision engine (decisionEngine.js) *)

Section ParserErrors.
Import ResponseParser.

Lemma get_throws v k e : get v k = Throw e -> e = TypeError.
Proof. destruct v; cbn; congruence. Qed.

Lemma task_errors_throws task index e :
  task_errors task index = Throw e -> e = TypeError.
Proof.
  unfold task_errors.
  destruct (get task (js "title")) as [t|e1] eqn:E1; cbn [obind];
    [|intros [= <-]; by apply get_throws in E1].
  destruct (get task (js "priority")) as [p|e2] eqn:E2; cbn [obind]; [done|].
  intros [= <-]. by apply get_throws in E2.
Qed.

Lemma tasks_errors_throws items index e :
  tasks_errors items index = Throw e -> e = TypeError.
Proof.
  revert index. induction items as [|task items IH]; intros index; [done|].
  cbn [tasks_errors].
  destruct (task_errors task index) as [es|e1] eqn:E1; cbn [obind];
    [|intros [= <-]; by apply task_errors_throws in E1].
  destruct (tasks_errors items (S index)) as [es'|e2] eqn:E2; cbn [obind];
    [done|].
  intros [= <-]. by apply IH in E2.
Qed.

(** What the validation throws: a TypeError, or the error that lists what
    is wrong with the reply. *)
Lemma validateDecisionStructure_throws data e :
  validateDecisionStructure data = Throw e ->
  e = TypeError \/
  exists errors,
    errors <> [] /\
    e = Error (js "Invalid AI response: " ++ join (js "; ") errors).
Proof.
  unfold validateDecisionStructure.
  destruct (get data (js "decision")) as [d|e1] eqn:E1; cbn [obind];
    [|intros [= <-]; left; by apply get_throws in E1].
  destruct (get data (js "reasoning")) as [r|e2] eqn:E2; cbn [obind];
    [|intros [= <-]; left; by apply get_throws in E2].
  destruct (get data (js "tasks")) as [ts|e3] eqn:E3; cbn [obind];
    [|intros [= <-]; left; by apply get_throws in E3].
  destruct (match ts with Some (JArr items) => tasks_errors items 0 | _ => Ok [] end)
    as [errors5|e5] eqn:E5; cbn [obind].
  - destruct (_ ++ _ ++ _ ++ _ ++ errors5) as [|m errors] eqn:Herrors.
    + destruct d as [[| | |d| |]|], r as [[| | |r| |]|],
        ts as [[| | | |array|]|]; try (intros [= <-]; by left).
      destruct (all_declared array); [done|]. intros [= <-]. by left.
    + intros [= <-]. right. by exists (m :: errors).
  - intros [= <-]. left.
    destruct ts as [[| | | |array|]|]; try done.
    by apply tasks_errors_throws in E5.
Qed.
End ParserErrors.

Section Client.
Import DecisionEngine.
Context (create : list ChatMessage.t -> Completion).

Lemma callOpenAI_wraps (error : ClientError) :
  exists m,
    (if code_is error "insufficient_quota"
     then Throw (Error (js "OpenAI API quota exceeded. Please check your billing."))
     else if code_is error "invalid_api_key"
     then Throw (Error (js "Invalid OpenAI API key. Please check your configuration."))
     else if code_is error "rate_limit_exceeded"
     then Throw (Error (js "Rate limit exceeded. Please try again in a moment."))
     else Throw (Error (js "AI service error: " ++ message error)))
    = @Throw jsstring (Error m) /\
    (In m [js "OpenAI API quota exceeded. Please check your billing.";
           js "Invalid OpenAI API key. Please check your configuration.";
           js "Rate limit exceeded. Please try again in a moment."] \/
     m = js "AI service error: " ++ message error).
Proof.
  destruct (code_is error "insufficient_quota");
    [eexists; split; [done|]; left; cbn; tauto|].
  destruct (code_is error "invalid_api_key");
    [eexists; split; [done|]; left; cbn; tauto|].
  destruct (code_is error "rate_limit_exceeded");
    [eexists; split; [done|]; left; cbn; tauto|].
  eexists. split; [done|]. by right.
Qed.

(** [callOpenAI] returns the content of the completion, which is not
    empty. *)
Lemma callOpenAI_returns messages content :
  callOpenAI create messages = Ok content ->
  create messages = Content (Some content) /\ content <> [].
Proof.
  unfold callOpenAI.
  destruct (create messages) as [[[|c text]|]|error]; cbn [truthy].
  - by destruct (callOpenAI_wraps
                   {| code := None; message := js "Empty response from OpenAI" |})
      as (m & -> & _).
  - by intros [= <-].
  - by destruct (callOpenAI_wraps
                   {| code := None; message := js "Empty response from OpenAI" |})
      as (m & -> & _).
  - by destruct (callOpenAI_wraps error) as (m & -> & _).
Qed.

(** What [callOpenAI] throws is never the error of the client itself. *)
Lemma callOpenAI_throws messages e :
  callOpenAI create messages = Throw e ->
  exists m,
    e = Error m /\
    (In m [js "OpenAI API quota exceeded. Please check your billing.";
           js "Invalid OpenAI API key. Please check your configuration.";
           js "Rate limit exceeded. Please try again in a moment."] \/
     startsWith m (js "AI service error: ") = true).
Proof.
  assert (Hwraps : forall error : ClientError,
    (if code_is error "insufficient_quota"
     then Throw (Error (js "OpenAI API quota exceeded. Please check your billing."))
     else if code_is error "invalid_api_key"
     then Throw (Error (js "Invalid OpenAI API key. Please check your configuration."))
     else if code_is error "rate_limit_exceeded"
     then Throw (Error (js "Rate limit exceeded. Please try again in a moment."))
     else Throw (Error (js "AI service error: " ++ message error)))
    = @Throw jsstring e ->
    exists m,
      e = Error m /\
      (In m [js "OpenAI API quota exceeded. Please check your billing.";
             js "Invalid OpenAI API key. Please check your configuration.";
             js "Rate limit exceeded. Please try again in a moment."] \/
       startsWith m (js "AI service error: ") = true)).
  { intros error. destruct (callOpenAI_wraps error) as (m & -> & Hm).
    intros [= <-]. exists m. split; [done|].
    destruct Hm as [Hm| ->]; [by left|right].
    exact (startsWith_app (js "AI service error: ") _). }
  unfold callOpenAI.
  destruct (create messages) as [[[|c text]|]|error]; cbn [truthy];
    try apply Hwraps. done.
Qed.

Lemma callOpenAI_empty messages content :
  create messages = Content content ->
  content = None \/ content = Some [] ->
  callOpenAI create messages =
  Throw (Error (js "AI service error: Empty response from OpenAI")).
Proof. unfold callOpenAI. by intros -> [->| ->]. Qed.
End Client.

(** X12. [generateDecision] sends the messages of the decision prompt.
    When it returns, the completion had a content that is not empty, given
    back as [raw], and the decision holds one to five tasks with the
    priorities 1, 2, ..., N and a reasoning that includes the alignment
    question. When it throws, the error is a TypeError or a plain error
    whose message is one of the three fixed sentences on the quota, the API
    key and the rate limit, or starts with [AI service error: ], or is the
    sentence on JSON, or starts with [Invalid AI response: ]; an empty
    completion gives [AI service error: Empty response from OpenAI]. *)
Theorem generateDecision_outcomes :
  forall create JSON_parse SYSTEM_PROMPT userInput context,
    let messages :=
      PromptBuilder.buildDecisionPrompt SYSTEM_PROMPT userInput context in
    let run :=
      DecisionEngine.generateDecision create JSON_parse SYSTEM_PROMPT
        userInput context in
    (forall generated, run = Ok generated ->
       create messages =
         DecisionEngine.Content (Some (DecisionEngine.raw generated)) /\
       DecisionEngine.raw generated <> [] /\
       (1 <= List.length (DecisionEngine.tasks generated) <= 5)%nat /\
       List.map ResponseParser.priority (DecisionEngine.tasks generated) =
         List.map Z.of_nat
           (List.seq 1 (List.length (DecisionEngine.tasks generated))) /\
       includes (DecisionEngine.reasoning generated)
         ResponseParser.ALIGNMENT_SUFFIX = true) /\
    (forall e, run = Throw e ->
       e = TypeError \/
       exists m,
         e = Error m /\
         (In m [js "OpenAI API quota exceeded. Please check your billing.";
                js "Invalid OpenAI API key. Please check your configuration.";
                js "Rate limit exceeded. Please try again in a moment.";
                js "Failed to parse AI response as JSON"] \/
          startsWith m (js "AI service error: ") = true \/
          startsWith m (js "Invalid AI response: ") = true)) /\
    (forall content,
       create messages = DecisionEngine.Content content ->
       content = None \/ content = Some [] ->
       run = Throw (Error (js "AI service error: Empty response from OpenAI"))).
Proof.
  intros create JSON_parse SYSTEM_PROMPT userInput context messages run.
  subst run. unfold DecisionEngine.generateDecision. fold messages.
  split; [|split].
  - intros generated.
    destruct (DecisionEngine.callOpenAI create messages) as [response|]
      eqn:Hcall; [|done].
    apply callOpenAI_returns in Hcall as [Hcreate Hresponse].
    cbn [obind]. unfold ResponseParser.parseDecisionResponse.
    destruct (JSON_parse response) as [data|]; [|done].
    destruct (ResponseParser.validateDecisionStructure data) as [v|] eqn:Hv;
      [|done].
    cbn [obind]. intros [= <-].
    cbn [DecisionEngine.raw DecisionEngine.tasks DecisionEngine.reasoning
         ResponseParser.tasks ResponseParser.reasoning].
    destruct (validateDecisionStructure_ok data v Hv)
      as (d & r & declared & _ & Hlen & ->).
    cbn [ResponseParser.tasks ResponseParser.reasoning].
    assert (Hn : List.length (ResponseParser.normalizeTasks declared) =
                 List.length declared).
    { by rewrite <- (List.length_map ResponseParser.priority),
        normalizeTasks_priorities, List.length_map, List.length_seq. }
    rewrite Hn, normalizeTasks_priorities.
    repeat split; try done; try lia.
    destruct (includes (trim r) ResponseParser.ALIGNMENT_SUFFIX) eqn:E.
    + by rewrite ensureAlignmentQuestion_present.
    + rewrite ensureAlignmentQuestion_absent by done.
      rewrite app_assoc. apply includes_suffix.
  - intros e.
    destruct (DecisionEngine.callOpenAI create messages) as [response|e']
      eqn:Hcall; cbn [obind].
    + unfold ResponseParser.parseDecisionResponse.
      destruct (JSON_parse response) as [data|].
      * destruct (ResponseParser.validateDecisionStructure data) as [v|e'] eqn:Hv;
          [done|]. cbn [obind]. intros [= <-].
        destruct (validateDecisionStructure_throws data e' Hv)
          as [->|(errors & _ & ->)]; [by left|].
        right. eexists. split; [done|]. right. right.
        exact (startsWith_app (js "Invalid AI response: ") _).
      * cbn [obind]. intros [= <-]. right. eexists. split; [done|].
        left. cbn. tauto.
    + intros [= <-]. right.
      destruct (callOpenAI_throws create messages e' Hcall) as (m & -> & Hm).
      exists m. split; [done|].
      destruct Hm as [Hm|Hm]; [left; cbn in *; tauto|by right; left].
  - intros content Hcreate Hempty.
    by rewrite (callOpenAI_empty create messages content Hcreate Hempty).
Qed.

(** ** Building the decision prompt (promptBuilder.js) *)

Section Substitution.
Import PromptBuilder.

(** A replacement text without a dollar sign is inserted as it is. *)
Lemma GetSubstitution_plain matched before after replacement :
  ~ In 36 replacement ->
  GetSubstitution matched before after replacement = replacement.
Proof.
  induction replacement as [|c rest IH]; intros Hplain; [done|].
  cbn [GetSubstitution].
  destruct (N.eqb_spec c 36) as [->|_]; [exfalso; apply Hplain; by left|].
  rewrite IH; [done|]. intros H. apply Hplain. by right.
Qed.

(** A doubled dollar sign is inserted as a single one. *)
Lemma GetSubstitution_doubled matched before after a b :
  ~ In 36 a -> ~ In 36 b ->
  GetSubstitution matched before after (a ++ [36; 36] ++ b) = a ++ [36] ++ b.
Proof.
  intros Ha Hb. induction a as [|c a IH].
  - cbn. by rewrite GetSubstitution_plain.
  - cbn [app GetSubstitution].
    destruct (N.eqb_spec c 36) as [->|_]; [exfalso; apply Ha; by left|].
    cbn [app] in IH. rewrite IH; [done|]. intros H. apply Ha. by right.
Qed.

Lemma replace_userInput userInput :
  replace USER_INPUT_TEMPLATE (js "{userInput}") userInput =
  js "USER INPUT:" ++ [10] ++
  GetSubstitution (js "{userInput}") (js "USER INPUT:" ++ [10]) [] userInput.
Proof.
  unfold replace.
  replace (split_at USER_INPUT_TEMPLATE (js "{userInput}"))
    with (Some (js "USER INPUT:" ++ [10], @nil N)) by (by vm_compute).
  by rewrite app_nil_r, <- app_assoc.
Qed.

Lemma replace_context text :
  replace CONTEXT_TEMPLATE (js "{context}") text =
  js "KNOWN CONTEXT (if any):" ++ [10] ++
  GetSubstitution (js "{context}") (js "KNOWN CONTEXT (if any):" ++ [10])
    ([10; 10] ++ js "---") text ++
  [10; 10] ++ js "---".
Proof.
  unfold replace.
  replace (split_at CONTEXT_TEMPLATE (js "{context}"))
    with (Some (js "KNOWN CONTEXT (if any):" ++ [10], [10; 10] ++ js "---"))
    by (by vm_compute).
  by rewrite <- app_assoc.
Qed.
End Substitution.

(** X13. The decision prompt is the system prompt, then the known
    context as a second system message when there is a non-empty one, then
    the user message. A user input without a dollar sign follows
    [USER INPUT:] and a line break as it is, and so does a context between
    the lines of its template. A dollar sign is read as a replacement
    pattern: a user input with one doubled dollar sign reaches the prompt
    with a single one. *)
Theorem buildDecisionPrompt_messages :
  forall SYSTEM_PROMPT userInput context,
    let messages :=
      PromptBuilder.buildDecisionPrompt SYSTEM_PROMPT userInput context in
    let system_message :=
      {| ChatMessage.role := system; ChatMessage.content := SYSTEM_PROMPT |} in
    (exists context_message user_content,
       messages =
         system_message :: context_message ++
         [{| ChatMessage.role := user; ChatMessage.content := user_content |}] /\
       (context = None \/ context = Some [] -> context_message = []) /\
       (forall text, context = Some text -> text <> [] ->
        exists content,
          context_message =
            [{| ChatMessage.role := system; ChatMessage.content := content |}] /\
          (~ In 36 text ->
           content = js "KNOWN CONTEXT (if any):" ++ [10] ++ text ++
                     [10; 10] ++ js "---")) /\
       (~ In 36 userInput ->
        user_content = js "USER INPUT:" ++ [10] ++ userInput) /\
       (forall a b, userInput = a ++ js "$$" ++ b ->
        ~ In 36 a -> ~ In 36 b ->
        user_content = js "USER INPUT:" ++ [10] ++ a ++ js "$" ++ b)).
Proof.
  intros SYSTEM_PROMPT userInput context messages system_message.
  subst messages. unfold PromptBuilder.buildDecisionPrompt.
  rewrite replace_userInput.
  assert (Huser :
    (~ In 36 userInput ->
     js "USER INPUT:" ++ [10] ++
       PromptBuilder.GetSubstitution (js "{userInput}")
         (js "USER INPUT:" ++ [10]) [] userInput =
     js "USER INPUT:" ++ [10] ++ userInput) /\
    (forall a b, userInput = a ++ js "$$" ++ b ->
     ~ In 36 a -> ~ In 36 b ->
     js "USER INPUT:" ++ [10] ++
       PromptBuilder.GetSubstitution (js "{userInput}")
         (js "USER INPUT:" ++ [10]) [] userInput =
     js "USER INPUT:" ++ [10] ++ a ++ js "$" ++ b)).
  { split.
    - intros H. by rewrite GetSubstitution_plain.
    - intros a b -> Ha Hb. change (js "$$") with [36; 36].
      by rewrite (GetSubstitution_doubled _ _ _ a b Ha Hb). }
  destruct context as [[|c text]|].
  - eexists [], _. split; [reflexivity|]. split; [done|].
    split; [by intros ? [= <-] []|]. exact Huser.
  - eexists [_], _. split; [reflexivity|].
    split; [by intros [|]|]. split; [|exact Huser].
    intros ? [= <-] _. eexists. split; [reflexivity|].
    intros Hplain. rewrite replace_context.
    by rewrite GetSubstitution_plain.
  - eexists [], _. split; [reflexivity|]. split; [done|]. split; [done|].
    exact Huser.
Qed.

(** ** Input normalization *)

Section Normalize.
Import NormalizeInput.

Lemma undash_cases c :
  (undash c = 45 /\ (c = 0x2013 \/ c = 0x2014)) \/
  (undash c = c /\ c <> 0x2013 /\ c <> 0x2014).
Proof.
  unfold undash.
  destruct (N.eqb_spec c 0x2013) as [->|H1]; [left; by split; [|left]|].
  destruct (N.eqb_spec c 0x2014) as [->|H2]; [left; by split; [|right]|].
  right. by repeat split.
Qed.

Lemma undash_ws c : is_ws (undash c) = is_ws c.
Proof. by destruct (undash_cases c) as [[-> [->| ->]]|[-> _]]. Qed.

Lemma undash_control c : is_control (undash c) = is_control c.
Proof. by destruct (undash_cases c) as [[-> [->| ->]]|[-> _]]. Qed.

Lemma undash_idem c : undash (undash c) = undash c.
Proof. destruct (undash_cases c) as [[H _]|[H _]]; by rewrite !H. Qed.

Lemma undash_space c : is_ws c = true -> undash c = c.
Proof.
  intros Hc. destruct (undash_cases c) as [[_ [->| ->]]|[-> _]]; done.
Qed.

Lemma replace_quote q s : replace_class (fun c => c =? q) q s = s.
Proof.
  unfold replace_class. induction s as [|c s IH]; simpl; [done|].
  rewrite IH. by destruct (N.eqb_spec c q) as [->|].
Qed.

(** [normalizeInput] on a string, step by step. *)
Lemma normalizeInput_string s :
  normalizeInput (Some (JStr s)) =
  List.map undash
    (List.filter (fun c => negb (is_control c)) (collapse_ws false (trim s))).
Proof.
  unfold normalizeInput. destruct s as [|c s]; [done|].
  cbn [truthy negb]. by rewrite !replace_quote.
Qed.

Lemma trimStart_map s : trimStart (List.map undash s) = List.map undash (trimStart s).
Proof.
  induction s as [|c s IH]; simpl; [done|].
  rewrite undash_ws. by destruct (is_ws c).
Qed.

Lemma trim_map s : trim (List.map undash s) = List.map undash (trim s).
Proof.
  unfold trim, trimEnd.
  by rewrite trimStart_map, <- List.map_rev, trimStart_map, List.map_rev.
Qed.

Lemma collapse_map b s :
  collapse_ws b (List.map undash s) = List.map undash (collapse_ws b s).
Proof.
  revert b. induction s as [|c s IH]; intros b; simpl; [done|].
  rewrite undash_ws. destruct (is_ws c) eqn:Hc.
  - destruct b; simpl; by rewrite IH.
  - simpl. by rewrite IH.
Qed.

Lemma filter_map s :
  List.filter (fun c => negb (is_control c)) (List.map undash s) =
  List.map undash (List.filter (fun c => negb (is_control c)) s).
Proof.
  induction s as [|c s IH]; simpl; [done|].
  rewrite undash_control. destruct (is_control c); simpl; by rewrite IH.
Qed.

Lemma collapse_snoc b s c :
  is_ws c = false -> collapse_ws b (s ++ [c]) = collapse_ws b s ++ [c].
Proof.
  intros Hc. revert b. induction s as [|d s IH]; intros b; simpl.
  - by rewrite Hc.
  - destruct (is_ws d); [destruct b|]; simpl; by rewrite IH.
Qed.

Lemma trimStart_fixed s :
  trimStart s = s -> s = [] \/ exists c t, s = c :: t /\ is_ws c = false.
Proof.
  destruct s as [|c t]; [by left|]. intros H. right. exists c, t.
  split; [done|]. by apply (trimStart_head _ _ _ H).
Qed.

Lemma trimEnd_fixed s :
  trimEnd s = s -> s = [] \/ exists t c, s = t ++ [c] /\ is_ws c = false.
Proof.
  unfold trimEnd. intros H.
  apply (f_equal (@rev N)) in H. rewrite rev_involutive in H.
  destruct (trimStart_fixed _ H) as [Hnil|(c & t & Hr & Hc)].
  - left. apply (f_equal (@rev N)) in Hnil. by rewrite rev_involutive in Hnil.
  - right. exists (rev t), c. split; [|done].
    apply (f_equal (@rev N)) in Hr. by rewrite rev_involutive in Hr.
Qed.

Lemma collapse_trimmed s : trimmed s -> trimmed (collapse_ws false s).
Proof.
  intros [Hstart Hend]. split.
  - destruct (trimStart_fixed _ Hstart) as [->|(c & t & -> & Hc)]; [done|].
    simpl. rewrite Hc. simpl. by rewrite Hc.
  - destruct (trimEnd_fixed _ Hend) as [->|(t & c & -> & Hc)]; [done|].
    rewrite collapse_snoc by done. by apply trimEnd_snoc.
Qed.

Lemma collapse_idem b s :
  collapse_ws false (collapse_ws b s) = collapse_ws b s /\
  collapse_ws true (collapse_ws true s) = collapse_ws true s.
Proof.
  revert b. induction s as [|c s IH]; intros b; simpl; [done|].
  destruct (is_ws c) eqn:Hc.
  - destruct (IH true) as [IH1 IH2]. destruct b; simpl.
    + done.
    + by rewrite IH2.
  - destruct (IH false) as [IH1 _]. simpl. rewrite Hc.
    split; by rewrite IH1.
Qed.

Lemma collapse_alphabet b s c :
  In c (collapse_ws b s) -> c = 32 \/ (In c s /\ is_ws c = false).
Proof.
  revert b. induction s as [|d s IH]; intros b; simpl; [done|].
  destruct (is_ws d) eqn:Hd.
  - destruct b; simpl.
    + intros H. destruct (IH _ H) as [?|[? ?]]; [by left|right; by split; [right|]].
    + intros [<-|H]; [by left|].
      destruct (IH _ H) as [?|[? ?]]; [by left|right; by split; [right|]].
  - intros [<-|H]; [right; by split; [left|]|].
    destruct (IH _ H) as [?|[? ?]]; [by left|right; by split; [right|]].
Qed.

Lemma collapse_length b s :
  (List.length (collapse_ws b s) <= List.length s)%nat.
Proof.
  revert b. induction s as [|d s IH]; intros b; simpl; [done|].
  pose proof (IH true). pose proof (IH false).
  destruct (is_ws d); [destruct b|]; simpl; lia.
Qed.

Lemma trim_length s : (List.length (trim s) <= List.length s)%nat.
Proof.
  unfold trim, trimEnd. rewrite List.length_rev.
  pose proof (trimStart_length (rev (trimStart s))) as H1.
  pose proof (trimStart_length s) as H2.
  rewrite List.length_rev in H1. lia.
Qed.

Lemma trim_alphabet s c : In c (trim s) -> In c s.
Proof.
  assert (Hstart : forall t, In c (trimStart t) -> In c t).
  { induction t as [|d t IH]; simpl; [done|].
    destruct (is_ws d); [by right; apply IH|done]. }
  unfold trim, trimEnd. intros H.
  apply in_rev, Hstart, in_rev in H. by apply Hstart.
Qed.
End Normalize.

(** X14. Whatever the input, the result of [normalizeInput] holds no
    control character, no white space other than the space, no en dash and
    no em dash, and it is never longer than the input string. *)
Theorem normalizeInput_alphabet :
  forall input,
    forallb normal_unit (NormalizeInput.normalizeInput input) = true /\
    forall s, input = Some (JStr s) ->
      (List.length (NormalizeInput.normalizeInput input) <= List.length s)%nat.
Proof.
  intros input. split.
  - destruct input as [[| | |s| |]|]; try done.
    rewrite normalizeInput_string. apply forallb_forall.
    intros c Hc. apply in_map_iff in Hc as (d & <- & Hd).
    apply filter_In in Hd as [Hd Hcontrol].
    apply negb_true_iff in Hcontrol.
    unfold normal_unit. rewrite undash_control, Hcontrol, undash_ws.
    cbn [negb andb].
    assert (Hws : negb (is_ws d) || (undash d =? 32) = true).
    { destruct (collapse_alphabet _ _ _ Hd) as [->|[_ ->]]; done. }
    rewrite Hws. cbn [andb].
    by destruct (undash_cases d) as [[-> _]|[-> [H1 H2]]];
      [|apply N.eqb_neq in H1, H2; rewrite H1, H2].
  - intros s ->. rewrite normalizeInput_string, List.length_map.
    pose proof (List.filter_length_le (fun c => negb (NormalizeInput.is_control c))
                  (NormalizeInput.collapse_ws false (trim s))) as H1.
    pose proof (collapse_length false (trim s)) as H2.
    pose proof (trim_length s) as H3. lia.
Qed.

(** X15. On a string whose only control characters are white space,
    [normalizeInput] is idempotent: normalizing its result changes
    nothing. *)
Theorem normalizeInput_idempotent :
  forall s,
    no_hidden_control s = true ->
    NormalizeInput.normalizeInput
      (Some (JStr (NormalizeInput.normalizeInput (Some (JStr s))))) =
    NormalizeInput.normalizeInput (Some (JStr s)).
Proof.
  intros s Hs. rewrite !normalizeInput_string.
  set (collapsed := NormalizeInput.collapse_ws false (trim s)).
  assert (Hkeep : List.filter (fun c => negb (NormalizeInput.is_control c))
                    collapsed = collapsed).
  { apply forallb_filter_id, forallb_forall. intros c Hc.
    destruct (collapse_alphabet _ _ _ Hc) as [->|[Hin Hws]]; [done|].
    apply trim_alphabet in Hin.
    unfold no_hidden_control in Hs.
    rewrite forallb_forall in Hs. specialize (Hs c Hin).
    by rewrite Hws, orb_false_r in Hs. }
  rewrite Hkeep, trim_map.
  rewrite (trim_of_trimmed collapsed)
    by (apply collapse_trimmed, trim_trimmed).
  rewrite collapse_map.
  replace (NormalizeInput.collapse_ws false collapsed) with collapsed
    by (symmetry; apply collapse_idem).
  rewrite filter_map, Hkeep, List.map_map.
  apply List.map_ext. intros c. apply undash_idem.
Qed.

(** X15 (witness). Runs of blanks and tabs, and an em dash. *)
Lemma normalizeInput_idempotent_witness :
  NormalizeInput.normalizeInput
    (Some (JStr (NormalizeInput.normalizeInput
                   (Some (JStr (js "  I want   to ship" ++ [9; 0x2014; 10] ++
                                js " soon  ")))))) =
  NormalizeInput.normalizeInput
    (Some (JStr (js "  I want   to ship" ++ [9; 0x2014; 10] ++ js " soon  "))).
Proof.
  apply (normalizeInput_idempotent
           (js "  I want   to ship" ++ [9; 0x2014; 10] ++ js " soon  ")).
  vm_compute. reflexivity.
Defined.

(** ** The intent of an input (normalizeInput.js) *)

Section LiteralPatterns.
Import RegExp IntentType.

(** A literal matches at a position exactly when the text starts with it
    there. *)
Lemma matches_literal (l : jsstring) prev s :
  matches (seq_of (List.map (fun c => Class (N.eqb c)) l)) prev s
    (fun _ _ => true) =
  startsWith s l.
Proof.
  revert prev s. induction l as [|c l IH]; intros prev s; [done|].
  destruct l as [|c2 l].
  - cbn. destruct s as [|d s]; [done|]. destruct s; by rewrite andb_true_r.
  - change (seq_of (List.map _ (c :: c2 :: l)))
      with (Seq (Class (N.eqb c))
              (seq_of (List.map (fun c => Class (N.eqb c)) (c2 :: l)))).
    cbn [matches]. destruct s as [|d s]; [done|].
    cbn [startsWith]. by rewrite IH.
Qed.

Lemma search_literal (l : jsstring) prev s :
  search (seq_of (List.map (fun c => Class (N.eqb c)) l)) prev s = includes s l.
Proof.
  revert prev. induction s as [|d s IH]; intros prev; cbn [search includes];
    rewrite matches_literal; [done|]. by rewrite IH.
Qed.

Lemma search_Alt a b prev s :
  search (Alt a b) prev s = search a prev s || search b prev s.
Proof.
  revert prev. induction s as [|d s IH]; intros prev; cbn [search matches].
  - by rewrite !orb_false_r.
  - rewrite IH.
    destruct (matches a prev (d :: s) _), (matches b prev (d :: s) _),
      (search a (Some d) s), (search b (Some d) s); done.
Qed.

Lemma search_alt_of rs prev s :
  search (alt_of rs) prev s = List.existsb (fun r => search r prev s) rs.
Proof.
  induction rs as [|r rs IH].
  - cbn [alt_of List.existsb]. rewrite search_class.
    by induction s.
  - destruct rs as [|r2 rs].
    + cbn. by rewrite orb_false_r.
    + change (alt_of (r :: r2 :: rs)) with (Alt r (alt_of (r2 :: rs))).
      by rewrite search_Alt, IH.
Qed.

(** A pattern of alternative literals matches exactly the texts that
    include one of them. *)
Lemma test_any_of words s :
  test (any_of words) s = List.existsb (fun w => includes s (js w)) words.
Proof.
  unfold test, any_of. rewrite search_alt_of.
  induction words as [|w words IH]; [done|].
  cbn [List.map List.existsb]. rewrite IH. f_equal. apply search_literal.
Qed.
End LiteralPatterns.

Section Visible.
Import NormalizeInput.

Lemma trimStart_keeps c s : In c s -> is_ws c = false -> In c (trimStart s).
Proof.
  intros Hin Hc. induction s as [|d s IH]; [done|]. cbn [trimStart].
  destruct (is_ws d) eqn:Hd; [|done].
  destruct Hin as [->|Hin]; [congruence|by apply IH].
Qed.

Lemma trim_keeps c s : In c s -> is_ws c = false -> In c (trim s).
Proof.
  intros Hin Hc. unfold trim, trimEnd.
  apply in_rev. rewrite rev_involutive. apply trimStart_keeps; [|done].
  apply in_rev. rewrite rev_involutive. by apply trimStart_keeps.
Qed.

Lemma collapse_keeps b c s :
  In c s -> is_ws c = false -> In c (collapse_ws b s).
Proof.
  intros Hin Hc. revert b. induction s as [|d s IH]; intros b; [done|].
  cbn [collapse_ws]. destruct (is_ws d) eqn:Hd.
  - destruct Hin as [->|Hin]; [congruence|].
    destruct b; [|right]; by apply IH.
  - destruct Hin as [->|Hin]; [by left|right; by apply IH].
Qed.

Lemma toLowerCase_keeps c s :
  In c s -> RegExp.is_upper c = false -> c <> 0x212A -> c <> 0x0130 ->
  In c (ConfidenceScore.toLowerCase s).
Proof.
  intros Hin Hu H1 H2. unfold ConfidenceScore.toLowerCase.
  apply in_concat. exists [c]. split; [|by left].
  apply in_map_iff. exists c. split; [|done].
  apply N.eqb_neq in H1, H2. by rewrite Hu, H1, H2.
Qed.

(** A code unit that is visible, not a dash and not a capital letter is
    still there after normalizing and lower-casing. *)
Lemma normalized_keeps c s :
  In c s -> is_ws c = false -> is_control c = false -> undash c = c ->
  RegExp.is_upper c = false -> c <> 0x212A -> c <> 0x0130 ->
  In c (ConfidenceScore.toLowerCase (normalizeInput (Some (JStr s)))).
Proof.
  intros Hin Hws Hcontrol Hdash Hu H1 H2.
  apply toLowerCase_keeps; try done.
  rewrite normalizeInput_string, <- Hdash. apply in_map.
  apply filter_In. split; [|by rewrite Hcontrol].
  apply collapse_keeps; [|done]. by apply trim_keeps.
Qed.
End Visible.

Section Alternatives.
Import RegExp IntentType.

Lemma matches_alt_of rs prev s k :
  matches (alt_of rs) prev s k = List.existsb (fun r => matches r prev s k) rs.
Proof.
  induction rs as [|r rs IH].
  - cbn. by destruct s.
  - destruct rs as [|r2 rs].
    + cbn. by rewrite orb_false_r.
    + change (alt_of (r :: r2 :: rs)) with (Alt r (alt_of (r2 :: rs))).
      cbn [matches List.existsb]. by rewrite IH.
Qed.

Lemma matches_any_of words s :
  matches (any_of words) None s (fun _ _ => true) =
  List.existsb (fun w => startsWith s (js w)) words.
Proof.
  unfold any_of. rewrite matches_alt_of.
  induction words as [|w words IH]; [done|].
  cbn [List.map List.existsb]. rewrite IH. f_equal. apply matches_literal.
Qed.
End Alternatives.

(** X16. [detectIntentType] reads the lower-cased normalized input.
    An input that is not a string is general. A string with a question mark
    is a question whatever else it holds, and so is a text that starts with
    one of the question words, be it as the start of a longer word. A text
    that includes the letters [or], inside a word or not, is never a task
    and never general: the decision pattern matches it. *)
Theorem detectIntentType_rules :
  forall input,
    let text :=
      ConfidenceScore.toLowerCase (NormalizeInput.normalizeInput input) in
    (is_string input = false ->
     IntentType.detectIntentType input = IntentType.general) /\
    (forall s, input = Some (JStr s) -> In 63 s ->
     IntentType.detectIntentType input = IntentType.question) /\
    (forall word,
       In word ["what"; "how"; "why"; "when"; "where"; "who"; "which"; "can";
                "should"; "would"; "is"; "are"; "do"; "does"]%string ->
       startsWith text (js word) = true ->
       IntentType.detectIntentType input = IntentType.question) /\
    (includes text (js "or") = true ->
     IntentType.detectIntentType input <> IntentType.task /\
     IntentType.detectIntentType input <> IntentType.general).
Proof.
  intros input text. split; [|split; [|split]].
  - by destruct input as [[| | |s| |]|].
  - intros s -> Hin. unfold IntentType.detectIntentType.
    cbv zeta. cbn [IntentType.intentPatterns IntentType.first_intent].
    unfold IntentType.question_pattern, RegExp.chr. rewrite test_class.
    replace (List.existsb _ _) with true; [done|].
    symmetry. apply List.existsb_exists. exists 63. split; [|done].
    by apply normalized_keeps.
  - intros word Hword Hstart. unfold IntentType.detectIntentType.
    cbv zeta. fold text.
    cbn [IntentType.intentPatterns IntentType.first_intent].
    unfold IntentType.question_pattern. rewrite matches_any_of.
    replace (List.existsb (fun w => startsWith text (js w)) _) with true;
      [by rewrite orb_true_r|].
    symmetry. apply List.existsb_exists. by exists word.
  - intros Hor. unfold IntentType.detectIntentType. cbv zeta. fold text.
    cbn [IntentType.intentPatterns IntentType.first_intent].
    rewrite (test_any_of ["decide"; "choose"; "pick"; "select"; "option";
                          "alternative"; "versus"; "or"]%string).
    replace (List.existsb (fun w => includes text (js w))
               ["decide"; "choose"; "pick"; "select"; "option";
                "alternative"; "versus"; "or"]%string) with true.
    + destruct (IntentType.question_pattern text); [done|].
      destruct (RegExp.test _ text); [done|].
      by destruct (RegExp.test _ text).
    + symmetry. apply List.existsb_exists. exists "or"%string.
      split; [|done]. cbn. tauto.
Qed.

(** ** Scoring and renumbering tasks (priorityService.js) *)

Section SortedInput.
Context {A : Type} (key : A -> Z).

(** Sorting a list that is in ascending order of the key changes nothing. *)
Lemma sort_of_sorted l :
  StronglySorted (fun a b => (key a <= key b)%Z) l ->
  sort (fun a b => (key a - key b)%Z) l = l.
Proof.
  induction 1 as [|x l Hs IH Hx]; [done|].
  cbn [sort]. rewrite IH. destruct l as [|y l]; [done|].
  cbn [sort_insert]. apply Forall_cons in Hx as [Hxy _].
  destruct (Z.leb_spec (key x - key y) 0); [done|lia].
Qed.
End SortedInput.

Section Renumber.
Import PriorityService.

Lemma map_index_renumber i tasks :
  map_index (fun task index => with_priority task (Z.of_nat (index + 1))) i tasks =
  renumber (Z.of_nat (i + 1)) tasks.
Proof.
  revert i. induction tasks as [|t rest IH]; intros i; [done|].
  cbn [map_index renumber]. rewrite IH. do 2 f_equal. lia.
Qed.

Lemma renumber_priorities c tasks :
  List.map priority (renumber c tasks) =
  List.map (fun i => (c + Z.of_nat i)%Z) (List.seq 0 (List.length tasks)).
Proof.
  revert c. induction tasks as [|t rest IH]; intros c; [done|].
  cbn [renumber List.map List.length List.seq]. rewrite IH.
  cbn [priority with_priority]. f_equal; [lia|].
  rewrite <- List.seq_shift, List.map_map. apply List.map_ext. intros i. lia.
Qed.

Lemma renumber_ids c tasks :
  List.map id (renumber c tasks) = List.map id tasks.
Proof.
  revert c. induction tasks as [|t rest IH]; intros c; [done|].
  cbn [renumber List.map]. by rewrite IH.
Qed.

Lemma renumber_length c tasks :
  List.length (renumber c tasks) = List.length tasks.
Proof.
  revert c. induction tasks as [|t rest IH]; intros c; [done|].
  cbn [renumber List.length]. by rewrite IH.
Qed.

Lemma renumber_lower c tasks :
  Forall (fun t => (c <= priority t)%Z) (renumber c tasks).
Proof.
  revert c. induction tasks as [|t rest IH]; intros c; cbn [renumber];
    constructor; [cbn; lia|].
  eapply Forall_impl; [apply (IH (c + 1)%Z)|]. cbn. intros; lia.
Qed.

Lemma renumber_sorted c tasks :
  StronglySorted (fun a b => (priority a <= priority b)%Z) (renumber c tasks).
Proof.
  revert c. induction tasks as [|t rest IH]; intros c; cbn [renumber];
    constructor; [apply IH|].
  eapply Forall_impl; [apply (renumber_lower (c + 1)%Z)|]. cbn. intros; lia.
Qed.

Lemma renumber_idem c tasks :
  renumber c (renumber c tasks) = renumber c tasks.
Proof.
  revert c. induction tasks as [|t rest IH]; intros c; [done|].
  cbn [renumber]. by rewrite IH.
Qed.
End Renumber.

(** X17. [normalizePriorities] leaves its argument array in stable
    ascending order of the priorities, and returns these tasks, in that
    order, with the priorities 1, 2, ..., N and nothing else changed. *)
Theorem normalizePriorities_dense :
  forall tasks,
    let run := PriorityScoring.normalizePriorities tasks in
    stable_sort_by Z.le Z.eqb PriorityService.priority tasks run.1 /\
    run.2 = renumber 1 run.1 /\
    List.map PriorityService.priority run.2 =
      List.map Z.of_nat (List.seq 1 (List.length tasks)) /\
    List.map PriorityService.id run.2 = List.map PriorityService.id run.1.
Proof.
  intros tasks run. subst run. unfold PriorityScoring.normalizePriorities.
  cbn [fst snd]. rewrite map_index_renumber. cbn [Nat.add Z.of_nat].
  split; [apply sort_stable|]. split; [done|]. split.
  - rewrite renumber_priorities, (sort_length PriorityService.priority).
    rewrite <- List.seq_shift, List.map_map. apply List.map_ext. intros i. lia.
  - apply renumber_ids.
Qed.

(** X18. [normalizePriorities] is idempotent: called on its own result,
    it leaves that array as it is and returns an equal one. *)
Theorem normalizePriorities_idempotent :
  forall tasks,
    let result := (PriorityScoring.normalizePriorities tasks).2 in
    PriorityScoring.normalizePriorities result = (result, result).
Proof.
  intros tasks result. subst result. unfold PriorityScoring.normalizePriorities.
  cbn [fst snd]. rewrite !map_index_renumber. cbn [Nat.add Z.of_nat].
  rewrite (sort_of_sorted PriorityService.priority (renumber 1 _))
    by apply renumber_sorted.
  by rewrite renumber_idem.
Qed.

Section LowerCase.
Import ConfidenceScore.

Lemma toLowerCase_app s t : toLowerCase (s ++ t) = toLowerCase s ++ toLowerCase t.
Proof. unfold toLowerCase. by rewrite List.map_app, List.concat_app. Qed.

(** Lower-casing twice is lower-casing once. *)
Lemma toLowerCase_idem s : toLowerCase (toLowerCase s) = toLowerCase s.
Proof.
  induction s as [|c s IH]; [done|].
  change (c :: s) with ([c] ++ s). rewrite !toLowerCase_app, IH. f_equal.
  unfold toLowerCase. cbn [List.map List.concat]. rewrite !app_nil_r.
  destruct (RegExp.is_upper c) eqn:Hu.
  - cbn [List.map List.concat]. rewrite app_nil_r.
    unfold RegExp.is_upper in *.
    apply andb_true_iff in Hu as [H1%N.leb_le H2%N.leb_le].
    destruct (N.leb_spec 65 (c + 32)); [|lia].
    destruct (N.leb_spec (c + 32) 90); [lia|]. cbn [andb].
    destruct (N.eqb_spec (c + 32) 0x212A); [lia|].
    by destruct (N.eqb_spec (c + 32) 0x0130); [lia|].
  - destruct (N.eqb_spec c 0x212A) as [->|H1]; [done|].
    destruct (N.eqb_spec c 0x0130) as [->|H2]; [done|].
    cbn [List.map List.concat]. rewrite app_nil_r, Hu.
    apply N.eqb_neq in H1, H2. by rewrite H1, H2.
Qed.
End LowerCase.

(** X19. [assignPriorities] returns the titles in stable ascending
    order of their scores, with the priorities 1, 2, ..., N; the score of a
    title is that of its lower-case form. *)
Theorem assignPriorities_ranks :
  forall tasks,
    let result := PriorityScoring.assignPriorities tasks in
    let score task :=
      PriorityScoring.calculatePriorityScore (PriorityScoring.t_title task) in
    (exists ranked,
       stable_sort_by Z.le Z.eqb score tasks ranked /\
       List.map ResponseParser.title result =
         List.map PriorityScoring.t_title ranked) /\
    List.map ResponseParser.priority result =
      List.map Z.of_nat (List.seq 1 (List.length tasks)) /\
    forall title,
      PriorityScoring.calculatePriorityScore (ConfidenceScore.toLowerCase title) =
      PriorityScoring.calculatePriorityScore title.
Proof.
  intros tasks result score. subst result.
  unfold PriorityScoring.assignPriorities. split; [|split].
  - exists (sort (fun a b => (score a - score b)%Z) tasks).
    split; [apply sort_stable|].
    rewrite (map_index_map _ ResponseParser.title
               (fun task _ => PriorityScoring.s_title task)) by done.
    rewrite map_index_const, sort_map, List.map_map. done.
  - rewrite (map_index_map _ ResponseParser.priority
               (fun _ index => Z.of_nat (index + 1))) by done.
    rewrite map_index_positions. cbn [Nat.add].
    by rewrite (sort_length PriorityScoring.score), List.length_map.
  - intros title. unfold PriorityScoring.calculatePriorityScore.
    by rewrite toLowerCase_idem.
Qed.

Section ReorderInRange.
Import PriorityService.

Lemma renumber_nth c tasks i :
  List.nth_error (renumber c tasks) i =
  option_map (fun t => with_priority t (c + Z.of_nat i)) (List.nth_error tasks i).
Proof.
  revert c i. induction tasks as [|t rest IH]; intros c [|i]; try done.
  - cbn. do 2 f_equal. lia.
  - cbn [renumber List.nth_error]. rewrite IH.
    destruct (List.nth_error rest i); [|done]. cbn. do 2 f_equal. lia.
Qed.

Lemma renumber_filter (q : Task -> bool) c tasks :
  (forall t p, q (with_priority t p) = q t) ->
  List.map id (List.filter q (renumber c tasks)) =
  List.map id (List.filter q tasks).
Proof.
  intros Hq. revert c. induction tasks as [|t rest IH]; intros c; [done|].
  cbn [renumber List.filter]. rewrite Hq.
  destruct (q t); cbn [List.map]; by rewrite IH.
Qed.

Lemma filter_filter_same {A} (q : A -> bool) l :
  List.filter q (List.filter q l) = List.filter q l.
Proof.
  induction l as [|x l IH]; [done|]. cbn [List.filter].
  destruct (q x) eqn:E; [|done]. cbn [List.filter]. by rewrite E, IH.
Qed.

(** Without repeated identifiers, the tasks are the one with the identifier
    and the others. *)
Lemma others_permutation tasks taskId task :
  NoDup (List.map id tasks) -> In task tasks -> id task = taskId ->
  Permutation tasks
    (task :: List.filter (fun t => negb (jsstring_eqb (id t) taskId)) tasks).
Proof.
  induction tasks as [|t rest IH]; intros Hnd Hin Hid; [done|].
  apply NoDup_cons in Hnd as [Hnotin Hnd]. cbn [List.filter].
  destruct (jsstring_eqb (id t) taskId) eqn:E; cbn [negb].
  - apply jsstring_eqb_eq in E. destruct Hin as [->|Hin].
    + rewrite others_all; [done|].
      intros H. apply Hnotin, list_elem_of_In. by rewrite E.
    + exfalso. apply Hnotin, list_elem_of_In, in_map_iff.
      exists task. split; [congruence|done].
  - destruct Hin as [->|Hin].
    + apply not_true_iff_false in E. by rewrite jsstring_eqb_eq in E.
    + rewrite (IH Hnd Hin Hid) at 1. apply perm_swap.
Qed.
End ReorderInRange.

(** X20. For tasks with distinct identifiers and a new priority
    between 1 and their number, [reorderTasks] returns the same tasks with
    the priorities 1, 2, ..., N, the moved task at the new priority and the
    other tasks in their old order. For an identifier that no task has, it
    returns the tasks as they are. *)
Theorem reorderTasks_moves_within_range :
  forall tasks taskId newPriority task,
    NoDup (List.map PriorityService.id tasks) ->
    In task tasks ->
    PriorityService.id task = taskId ->
    (1 <= newPriority <= Z.of_nat (List.length tasks))%Z ->
    let result := PriorityService.reorderTasks tasks taskId newPriority in
    let other t := negb (jsstring_eqb (PriorityService.id t) taskId) in
    Permutation (List.map PriorityService.id tasks)
      (List.map PriorityService.id result) /\
    List.map PriorityService.priority result =
      List.map Z.of_nat (List.seq 1 (List.length tasks)) /\
    List.nth_error result (Z.to_nat (newPriority - 1)) =
      Some (PriorityService.with_priority task newPriority) /\
    List.map PriorityService.id (List.filter other result) =
      List.map PriorityService.id (List.filter other tasks) /\
    forall unknown newPriority',
      ~ In unknown (List.map PriorityService.id tasks) ->
      PriorityService.reorderTasks tasks unknown newPriority' = tasks.
Proof.
  intros tasks taskId newPriority task Hnd Hin Hid Hrange result other.
  subst result.
  rewrite (reorderTasks_in_range tasks taskId newPriority task Hnd Hin Hid Hrange).
  cbv zeta. fold other.
  set (others := List.filter other tasks).
  set (k := Z.to_nat (newPriority - 1)).
  assert (Hlen : (List.length others + 1 = List.length tasks)%nat).
  { apply others_length; [done|]. apply in_map_iff. by exists task. }
  assert (Hk : (k <= List.length others)%nat) by lia.
  assert (Hperm : Permutation tasks (take k others ++ task :: drop k others)).
  { rewrite <- Permutation_middle, take_drop.
    by apply others_permutation. }
  split; [|split; [|split; [|split]]].
  - rewrite renumber_ids. by apply Permutation_map.
  - rewrite renumber_priorities, <- (Permutation_length Hperm).
    rewrite <- List.seq_shift, List.map_map. apply List.map_ext. intros i. lia.
  - rewrite renumber_nth.
    rewrite List.nth_error_app2 by (rewrite length_take; lia).
    rewrite length_take.
    replace (k - k `min` List.length others)%nat with 0%nat by lia.
    cbn. do 2 f_equal. lia.
  - rewrite renumber_filter by done.
    rewrite List.filter_app. cbn [List.filter].
    assert (Hself : other task = false).
    { unfold other. rewrite <- Hid.
      by replace (jsstring_eqb _ _) with true
        by (symmetry; by apply jsstring_eqb_eq). }
    rewrite Hself, <- List.filter_app, take_drop.
    unfold others. by rewrite filter_filter_same.
  - intros unknown p Hunknown. unfold PriorityService.reorderTasks.
    replace (PriorityService.findIndex tasks unknown) with (@None nat); [done|].
    symmetry. clear -Hunknown.
    induction tasks as [|t rest IH]; [done|]. cbn [PriorityService.findIndex].
    destruct (jsstring_eqb (PriorityService.id t) unknown) eqn:E.
    + apply jsstring_eqb_eq in E. exfalso. apply Hunknown. by left.
    + rewrite IH; [done|]. intros H. apply Hunknown. by right.
Qed.

(** X20 (witness). The third of three tasks is moved to the front. *)
Lemma reorderTasks_moves_within_range_witness :
  let result := PriorityService.reorderTasks SampleTasks.three (js "c") 1 in
  let other t := negb (jsstring_eqb (PriorityService.id t) (js "c")) in
  Permutation (List.map PriorityService.id SampleTasks.three)
    (List.map PriorityService.id result) /\
  List.map PriorityService.priority result =
    List.map Z.of_nat (List.seq 1 (List.length SampleTasks.three)) /\
  List.nth_error result (Z.to_nat (1 - 1)) =
    Some (PriorityService.with_priority (SampleTasks.row "c" 3) 1) /\
  List.map PriorityService.id (List.filter other result) =
    List.map PriorityService.id (List.filter other SampleTasks.three) /\
  forall unknown newPriority',
    ~ In unknown (List.map PriorityService.id SampleTasks.three) ->
    PriorityService.reorderTasks SampleTasks.three unknown newPriority' =
    SampleTasks.three.
Proof.
  apply (reorderTasks_moves_within_range SampleTasks.three (js "c") 1
           (SampleTasks.row "c" 3)).
  - apply (bool_decide_unpack _). by vm_compute.
  - vm_compute. tauto.
  - reflexivity.
  - vm_compute. split; discriminate.
Defined.

(** ** Confidence indicators and the display of a score *)

Section Scores.
Import ConfidenceScore.
Local Open Scope Q_scope.






End Scores.


Section FactorBounds.
Import ConfidenceScore.
Local Open Scope Q_scope.






End FactorBounds.



Section LowestFactor.
Import ConfidenceScore ConfidenceDisplay.
Local Open Scope Q_scope.

Context {A : Type} (key : A -> Q).

Let comparefn (a b : A) : Z := sign (key a - key b).




End LowestFactor.

Section Percentage.
Local Open Scope Q_scope.

End Percentage.



(** ** Truncating a summary (summaryService.js) *)

(** X24. [truncate] returns a text that is not longer than [maxLength]
    as it is. From a longer text and a [maxLength] of at least 3 it keeps
    the first [maxLength - 3] code units and appends three dots, which makes
    [maxLength] code units. With a [maxLength] below 3 the result of a
    longer text is not shorter than [maxLength]: it has 3 code units or
    more. *)
Theorem truncate_length :
  forall text maxLength,
    let len := Z.of_nat (List.length text) in
    let result := SummaryService.truncate (Some text) maxLength in
    SummaryService.truncate None maxLength = None /\
    ((len <= maxLength)%Z -> result = Some text) /\
    ((maxLength < len)%Z -> (3 <= maxLength)%Z ->
     result = Some (take (Z.to_nat (maxLength - 3)) text ++ js "...") /\
     exists s, result = Some s /\ Z.of_nat (List.length s) = maxLength) /\
    ((maxLength < len)%Z -> (maxLength < 3)%Z -> text <> [] ->
     exists s, result = Some s /\ (3 <= List.length s)%nat /\
               (maxLength < Z.of_nat (List.length s))%Z).
Proof.
  intros text maxLength len result. subst len result.
  unfold SummaryService.truncate, SummaryService.slice_to.
  split; [done|]. split; [|split].
  - intros Hle. apply Z.leb_le in Hle. rewrite Hle. by rewrite orb_true_r.
  - intros Hlt Hmax. apply Z.leb_gt in Hlt as Hlt'. rewrite Hlt'.
    destruct text as [|c text]; [cbn in Hlt; lia|]. cbn [truthy negb orb].
    cbv zeta. destruct (Z.ltb_spec (maxLength - 3) 0) as [|_]; [lia|].
    rewrite Z.min_l by lia. split; [done|]. eexists. split; [done|].
    rewrite List.length_app, length_take.
    change (List.length (js "...")) with 3%nat. cbn [List.length] in *. lia.
  - intros Hlt Hmax Htext. apply Z.leb_gt in Hlt as Hlt'. rewrite Hlt'.
    destruct text as [|c text]; [done|]. cbn [truthy negb orb].
    eexists. split; [done|]. rewrite List.length_app.
    change (List.length (js "...")) with 3%nat. lia.
Qed.

(** ** The logged body (requestLogger.js) *)

Section Sanitize.
Import RequestLogger.

(** One field of the first loop, entry by entry. *)
Lemma redact_entries sanitized field :
  NoDup (List.map fst sanitized) ->
  redact sanitized field =
  List.map
    (fun '(key, value) =>
       (key,
        if jsstring_eqb (js field) key && truthy (Some value)
        then JStr (js "[REDACTED]") else value))
    sanitized.
Proof.
  unfold redact. induction sanitized as [|[k v] rest IH]; intros Hnd; [done|].
  apply NoDup_cons in Hnd as [Hnotin Hnd]. cbn [assoc set_prop List.map].
  destruct (jsstring_eqb (js field) k) eqn:Hk.
  - apply jsstring_eqb_eq in Hk as <-. cbn [andb].
    assert (Hrest : List.map
              (fun '(key, value) =>
                 (key,
                  if jsstring_eqb (js field) key && truthy (Some value)
                  then JStr (js "[REDACTED]") else value)) rest = rest).
    { clear IH Hnd. induction rest as [|[k' v'] rest IH]; [done|].
      cbn [List.map]. rewrite IH.
      - destruct (jsstring_eqb (js field) k') eqn:E; [|done].
        apply jsstring_eqb_eq in E. exfalso.
        apply Hnotin, list_elem_of_In. cbn. by left.
      - intros H%list_elem_of_In. apply Hnotin, list_elem_of_In. by right. }
    rewrite Hrest. by destruct (truthy (Some v)).
  - cbn [andb]. specialize (IH Hnd).
    destruct (truthy (assoc (js field) rest)); by rewrite <- IH.
Qed.

Lemma redact_keys sanitized field :
  NoDup (List.map fst sanitized) ->
  List.map fst (redact sanitized field) = List.map fst sanitized.
Proof.
  intros Hnd. rewrite redact_entries by done. rewrite List.map_map.
  apply List.map_ext. by intros [k v].
Qed.

(** The first loop over any list of fields, entry by entry. *)
Lemma redact_fields fields body :
  NoDup (List.map fst body) ->
  List.fold_left redact fields body =
  List.map
    (fun '(key, value) =>
       (key,
        if List.existsb (fun field => jsstring_eqb (js field) key) fields &&
           truthy (Some value)
        then JStr (js "[REDACTED]") else value))
    body.
Proof.
  revert body. induction fields as [|field fields IH]; intros body Hnd.
  - cbn. rewrite <- (List.map_id body) at 1. apply List.map_ext. by intros [k v].
  - cbn [List.fold_left List.existsb].
    rewrite IH by (by rewrite redact_keys).
    rewrite redact_entries by done. rewrite List.map_map.
    apply List.map_ext. intros [k v].
    destruct (jsstring_eqb (js field) k), (truthy (Some v)) eqn:Hv; cbn [andb orb];
      try rewrite Hv; by destruct (List.existsb _ fields).
Qed.
End Sanitize.

Lemma shorten_truthy value :
  truthy (Some (RequestLogger.shorten value)) = truthy (Some value).
Proof.
  destruct value as [| | |t| |]; try done. unfold RequestLogger.shorten.
  destruct (Nat.ltb_spec 500 (List.length t)) as [Hlong|_]; [|done].
  destruct t as [|c t]; [cbn in Hlong; lia|done].
Qed.

(** X25. For a body whose properties have distinct names,
    [sanitizeBody] keeps the properties and their order. A sensitive
    property (password, token, apiKey, secret) with a truthy value is logged
    as [REDACTED]; any other string longer than 500 code units is cut to
    500 and marked, which makes 515; every other value is logged as it is,
    an object with a password inside included. The result holds no string
    longer than 515, and sanitizing it again changes nothing. *)
Theorem sanitizeBody_entries :
  forall body,
    NoDup (List.map fst body) ->
    let result := RequestLogger.sanitizeBody body in
    result = List.map (fun '(key, value) => (key, logged key value)) body /\
    List.map fst result = List.map fst body /\
    (forall key s, In (key, JStr s) result -> (List.length s <= 515)%nat) /\
    (forall key props,
       sensitive key = false ->
       In (key, JObj props) body -> In (key, JObj props) result) /\
    RequestLogger.sanitizeBody result = result.
Proof.
  intros body Hnd result.
  assert (Hresult :
    result = List.map (fun '(key, value) => (key, logged key value)) body).
  { subst result. unfold RequestLogger.sanitizeBody.
    rewrite redact_fields by done. rewrite List.map_map.
    apply List.map_ext. intros [k v]. unfold logged, sensitive.
    by destruct (_ && truthy (Some v)). }
  assert (Hkeys : List.map fst result = List.map fst body).
  { rewrite Hresult, List.map_map. apply List.map_ext. by intros [k v]. }
  assert (Hshort : forall v s, RequestLogger.shorten v = JStr s ->
                     (List.length s <= 515)%nat).
  { intros v s. unfold RequestLogger.shorten.
    destruct v as [| | |t| |]; try done.
    destruct (Nat.ltb_spec 500 (List.length t)); intros [= <-]; [|lia].
    rewrite List.length_app, length_take.
    change (List.length (js "... [truncated]")) with 15%nat. lia. }
  assert (Hagain : forall k v, logged k (logged k v) = logged k v).
  { intros k v. unfold logged at 2 3.
    destruct (sensitive k && truthy (Some v)) eqn:E.
    - unfold logged. apply andb_true_iff in E as [Hk _]. rewrite Hk.
      reflexivity.
    - unfold logged.
      assert (Hidem : RequestLogger.shorten (RequestLogger.shorten v) =
                      RequestLogger.shorten v).
      { unfold RequestLogger.shorten. destruct v as [| | |t| |]; try done.
        destruct (Nat.ltb_spec 500 (List.length t)) as [Hlong|Hshort'].
        - destruct (Nat.ltb_spec 500
                      (List.length (take 500 t ++ js "... [truncated]")))
            as [_|Hle].
          + rewrite take_app_le by (rewrite length_take; lia).
            by rewrite take_take, Nat.min_id.
          + rewrite List.length_app, length_take in Hle.
            change (List.length (js "... [truncated]")) with 15%nat in Hle. lia.
        - by destruct (Nat.ltb_spec 500 (List.length t)); [lia|]. }
      by rewrite Hidem, shorten_truthy, E. }
  split; [done|]. split; [done|]. split; [|split].
  - intros key s. rewrite Hresult. intros Hin.
    apply in_map_iff in Hin as ([k v] & [= <- Hv] & _).
    unfold logged in Hv. destruct (sensitive k && truthy (Some v)).
    + injection Hv as <-.
      change (List.length (js "[REDACTED]")) with 10%nat. lia.
    + by apply (Hshort v).
  - intros key props Hkey Hin. rewrite Hresult.
    apply in_map_iff. exists (key, JObj props). split; [|done].
    unfold logged. by rewrite Hkey.
  - assert (Hnd' : NoDup (List.map fst result)) by (by rewrite Hkeys).
    assert (Hresult' :
      RequestLogger.sanitizeBody result =
      List.map (fun '(key, value) => (key, logged key value)) result).
    { unfold RequestLogger.sanitizeBody.
      rewrite redact_fields by done. rewrite List.map_map.
      apply List.map_ext. intros [k v]. unfold logged, sensitive.
      by destruct (_ && truthy (Some v)). }
    rewrite Hresult', Hresult, List.map_map.
    apply List.map_ext. intros [k v]. by rewrite Hagain.
Qed.

(** X25 (witness). A body with a password at the top and one inside
    an object. *)
Lemma sanitizeBody_entries_witness :
  let result := RequestLogger.sanitizeBody SampleBody.body in
  result =
    List.map (fun '(key, value) => (key, logged key value)) SampleBody.body /\
  List.map fst result = List.map fst SampleBody.body /\
  (forall key s, In (key, JStr s) result -> (List.length s <= 515)%nat) /\
  (forall key props,
     sensitive key = false ->
     In (key, JObj props) SampleBody.body -> In (key, JObj props) result) /\
  RequestLogger.sanitizeBody result = result.
Proof.
  apply (sanitizeBody_entries SampleBody.body).
  apply (bool_decide_unpack _). by vm_compute.
Defined.
